(** * AutoAD: the job ledger, the command runner and the orchestrator

    A shallow embedding of [ad_command_runner.py] (classes [JobStore] and
    [CommandRunner]) and of [orchestrator_and_parsers.py] (classes
    [SessionStore], [AutoExploitPolicy], [Orchestrator] and two of the
    registered parsers), followed by the properties of the specification
    that are settled on it.

    Conventions of the embedding.
    - Python values that travel through JSON columns, analyzer results and
      session records are terms of [value]; a [dict] is an association list
      in insertion order with unique keys.
    - A timestamp returned by [time.time()] is an integer number of clock
      ticks ([Z]); only its order and its being zero or not are used.
    - The two SQLite tables are lists of rows in insertion order, with the
      AUTOINCREMENT counters kept next to them.  A TEXT column filled with
      [json.dumps] and read with [json.loads] holds the [value] itself.
    - An id is an integer that SQLite can hold, of 64 bits: for an id
      outside this range [sqlite3] raises [OverflowError] before any
      statement runs, and no row has such an id.  The store is modelled
      for the ids within the range; a statement about an id that no job
      has says so with [fits_int64].
    - Code that raises keeps the changes it made before raising: a
      computation is a function from the world to a result and a world.
      An exception of a class derived from [Exception] ([Raises]) is told
      from one that is not ([Escapes]), which [except Exception] lets
      through. *)

From Stdlib Require Import ZArith List String Ascii Bool Lia DecimalString.
From Stdlib Require Import Sorting.Sorted Sorting.Permutation.
Import ListNotations.
Open Scope string_scope.
Open Scope list_scope.
Open Scope Z_scope.
Set Warnings "-register-all".

(** ** Python values *)

Inductive value : Type :=
| VNone
| VBool (b : bool)
| VInt (z : Z)
| VStr (s : string)
| VList (l : list value)
| VDict (d : list (string * value)).

(** [bool(v)]: the truth value Python gives to [v] in [if v:], [a or b]. *)
Definition truthy (v : value) : bool :=
  match v with
  | VNone => false
  | VBool b => b
  | VInt z => negb (z =? 0)
  | VStr s => negb (String.eqb s "")
  | VList l => match l with [] => false | _ => true end
  | VDict d => match d with [] => false | _ => true end
  end.

Definition dict := list (string * value).

(** [d.get(k)] *)
Fixpoint dict_get (d : dict) (k : string) : option value :=
  match d with
  | [] => None
  | (k', v) :: d' => if String.eqb k' k then Some v else dict_get d' k
  end.

(** [d[k] = v]: an existing key keeps its place, a new key goes last. *)
Fixpoint dict_set (d : dict) (k : string) (v : value) : dict :=
  match d with
  | [] => [(k, v)]
  | (k', v') :: d' =>
      if String.eqb k' k then (k', v) :: d' else (k', v') :: dict_set d' k v
  end.

(** [d.get(k)] as Python returns it, [None] for a missing key. *)
Definition dict_get_or_none (d : dict) (k : string) : value :=
  match dict_get d k with Some v => v | None => VNone end.

(** ** The job store ([class JobStore]) *)

Record job_row : Type := mk_job {
  j_id : Z;
  j_created_at : Z;
  j_updated_at : Z;
  j_name : string;
  j_command : list value;
  j_cwd : string;
  j_env : value;
  j_status : string;
  j_exit_code : option Z;
  j_meta : value
}.

Record output_row : Type := mk_output {
  o_id : Z;
  o_job_id : Z;
  o_created_at : Z;
  o_source : string;
  o_line : string
}.

Record JobStore : Type := mk_store {
  jobs : list job_row;
  jobs_seq : Z;          (* last id given out in table jobs *)
  outputs : list output_row;
  outputs_seq : Z        (* last id given out in table outputs *)
}.

(** [JobStore.__init__] on a fresh database file. *)
Definition JobStore_init : JobStore := mk_store [] 0 [] 0.

(** [a or b] on an optional argument. *)
Definition or_default (a : option value) (b : value) : value :=
  match a with
  | Some v => if truthy v then v else b
  | None => b
  end.

Definition create_job (now : Z) (name : string) (command : list value)
    (cwd : option string) (env meta : option value) (st : JobStore)
  : Z * JobStore :=
  let new_id := jobs_seq st + 1 in
  let cwd_text := match cwd with Some c => c | None => "" end in
  let row := mk_job new_id now now name command cwd_text
               (or_default env (VDict [])) "pending" None
               (or_default meta (VDict [])) in
  (new_id, mk_store (jobs st ++ [row]) new_id (outputs st) (outputs_seq st)).

(** One row of [UPDATE jobs SET ... WHERE id=?]. *)
Definition update_row (now : Z) (job_id : Z) (status : string)
    (exit_code : option Z) (meta : option value) (r : job_row) : job_row :=
  if j_id r =? job_id then
    match meta with
    | Some m =>
        mk_job (j_id r) (j_created_at r) now (j_name r) (j_command r)
               (j_cwd r) (j_env r) status exit_code m
    | None =>
        mk_job (j_id r) (j_created_at r) now (j_name r) (j_command r)
               (j_cwd r) (j_env r) status exit_code (j_meta r)
    end
  else r.

(** [update_job_status(job_id, status, exit_code=None, meta=None)]:
    an argument left out at the call site is [None] here. *)
Definition update_job_status (now : Z) (job_id : Z) (status : string)
    (exit_code : option Z) (meta : option value) (st : JobStore) : JobStore :=
  mk_store (map (update_row now job_id status exit_code meta) (jobs st))
           (jobs_seq st) (outputs st) (outputs_seq st).

Definition append_output (now : Z) (job_id : Z) (source line : string)
    (st : JobStore) : JobStore :=
  let new_id := outputs_seq st + 1 in
  mk_store (jobs st) (jobs_seq st)
           (outputs st ++ [mk_output new_id job_id now source line]) new_id.

Definition get_job (job_id : Z) (st : JobStore) : option job_row :=
  find (fun r => j_id r =? job_id) (jobs st).

(** [ORDER BY id ASC]: insertion sort on the id column. *)
Fixpoint insert_by_id (r : output_row) (l : list output_row)
  : list output_row :=
  match l with
  | [] => [r]
  | x :: l' => if o_id r <=? o_id x then r :: l else x :: insert_by_id r l'
  end.

Fixpoint order_by_id (l : list output_row) : list output_row :=
  match l with
  | [] => []
  | x :: l' => insert_by_id x (order_by_id l')
  end.

(** [if since:] on [since: Optional[float]]: [None] and [0.0] are false. *)
Definition since_truthy (since : option Z) : bool :=
  match since with
  | Some t => negb (t =? 0)
  | None => false
  end.

Definition fetch_outputs (job_id : Z) (since : option Z) (st : JobStore)
  : list output_row :=
  match since with
  | Some t =>
      if since_truthy (Some t) then
        order_by_id (filter (fun o => (o_job_id o =? job_id)
                                      && (t <? o_created_at o)) (outputs st))
      else
        order_by_id (filter (fun o => o_job_id o =? job_id) (outputs st))
  | None =>
      order_by_id (filter (fun o => o_job_id o =? job_id) (outputs st))
  end.

(** ** Strings *)

(** [str(n)] for an [int]. *)
Definition str_int (z : Z) : string := NilZero.string_of_int (Z.to_int z).

Definition newline : ascii := ascii_of_nat 10.

(** [s.rstrip('\n')] *)
Fixpoint rstrip_newline (s : string) : string :=
  match s with
  | EmptyString => EmptyString
  | String c s' =>
      match rstrip_newline s' with
      | EmptyString =>
          if Ascii.eqb c newline then EmptyString else String c EmptyString
      | r => String c r
      end
  end.

(** [needle in hay] on strings. *)
Fixpoint contains (needle hay : string) : bool :=
  String.prefix needle hay
  || match hay with
     | EmptyString => false
     | String _ hay' => contains needle hay'
     end.

(** ** Exceptions, results and the world *)

(** An exception object of a class derived from [Exception]: the name of
    its class and [str(e)]. *)
Inductive exn : Type := Exception (cls msg : string).

Definition exn_str (e : exn) : string :=
  match e with Exception _ msg => msg end.

(** An exception of a class derived from [BaseException] and not from
    [Exception]: the cancellation of the task that runs the coroutine, an
    interrupt from the keyboard, an exit of the interpreter.  A handler
    [except Exception] does not catch it. *)
Inductive base_exn : Type := CancelledError | KeyboardInterrupt | SystemExit.

Inductive result (A : Type) : Type :=
| Returns (a : A)
| Raises (e : exn)
| Hangs                       (* the awaited event never happens *)
| Escapes (b : base_exn).     (* raised, and caught by no handler here *)
Arguments Returns {A} a.
Arguments Raises {A} e.
Arguments Hangs {A}.
Arguments Escapes {A} b.

(** The two pipes of a child process. *)
Inductive stream : Type := stdout | stderr.

Definition stream_name (s : stream) : string :=
  match s with stdout => "stdout" | stderr => "stderr" end.

(** Who receives a signal. *)
Inductive signal_target : Type := to_process | to_process_group.

(** Requests made to the operating system about child processes. *)
Inductive os_call : Type :=
| os_exec (argv : list value)          (* a child was created, with two pipes *)
| os_readline (s : stream)             (* one line read from a pipe *)
| os_kill (target : signal_target)     (* SIGKILL *)
| os_wait.                             (* the exit status collected *)

(** How the wait for the two readers ends.  The timeout of [run_job] is
    the timeout of this wait only: once both pipes are at EOF the exit of
    the child is awaited without limit, so [drained] says nothing of the
    time at which the child exits, before or after the timeout. *)
Inductive wait_end : Type :=
| drained (exit_code : Z)    (* both pipes reached EOF; the child exits so *)
| pending                    (* not both at EOF when the timeout, if any,
                                is over *)
| lingering.                 (* both pipes reached EOF; the child never
                                exits *)

(** What a child does during one run: the lines it writes, in the order
    the readers get them, and how the wait ends. *)
Record process : Type := mk_process {
  p_lines : list (stream * string);
  p_end : wait_end
}.

(** What [asyncio.create_subprocess_exec] does in one run. *)
Inductive spawn_outcome : Type :=
| spawn_not_found              (* raises FileNotFoundError *)
| spawn_raises (e : exn)       (* raises another exception derived from
                                  Exception: PermissionError, ... *)
| spawned (p : process)
| spawn_escapes (b : base_exn).  (* the await is left by an exception
                                    outside Exception: the task is
                                    cancelled *)

(** The event [_notify] hands to the listeners of a job. *)
Record event : Type := mk_event {
  e_job_id : Z;
  e_source : string;
  e_line : string;
  e_timestamp : Z
}.

Record world : Type := mk_world {
  store : JobStore;
  sessions : list value;             (* SessionStore.sessions *)
  allow : bool;                      (* Orchestrator.auto_exploit.allow *)
  dependencies : list (Z * list Z);  (* Orchestrator.dependencies *)
  tasks : list Z;                    (* create_task(_run_and_process(id)) *)
  logfiles : list (Z * string);      (* writes to logs/job_<id>.log *)
  events : list event;               (* events built by _notify *)
  os_calls : list os_call;
  time_calls : nat                   (* calls of time.time() so far *)
}.

Definition set_store (f : JobStore -> JobStore) (w : world) : world :=
  mk_world (f (store w)) (sessions w) (allow w) (dependencies w) (tasks w)
           (logfiles w) (events w) (os_calls w) (time_calls w).

Definition set_sessions (f : list value -> list value) (w : world) : world :=
  mk_world (store w) (f (sessions w)) (allow w) (dependencies w) (tasks w)
           (logfiles w) (events w) (os_calls w) (time_calls w).

Definition set_allow (b : bool) (w : world) : world :=
  mk_world (store w) (sessions w) b (dependencies w) (tasks w)
           (logfiles w) (events w) (os_calls w) (time_calls w).

Definition set_dependencies (f : list (Z * list Z) -> list (Z * list Z))
    (w : world) : world :=
  mk_world (store w) (sessions w) (allow w) (f (dependencies w)) (tasks w)
           (logfiles w) (events w) (os_calls w) (time_calls w).

Definition set_tasks (f : list Z -> list Z) (w : world) : world :=
  mk_world (store w) (sessions w) (allow w) (dependencies w) (f (tasks w))
           (logfiles w) (events w) (os_calls w) (time_calls w).

Definition set_logfiles (f : list (Z * string) -> list (Z * string))
    (w : world) : world :=
  mk_world (store w) (sessions w) (allow w) (dependencies w) (tasks w)
           (f (logfiles w)) (events w) (os_calls w) (time_calls w).

Definition set_events (f : list event -> list event) (w : world) : world :=
  mk_world (store w) (sessions w) (allow w) (dependencies w) (tasks w)
           (logfiles w) (f (events w)) (os_calls w) (time_calls w).

Definition set_os_calls (f : list os_call -> list os_call) (w : world)
  : world :=
  mk_world (store w) (sessions w) (allow w) (dependencies w) (tasks w)
           (logfiles w) (events w) (f (os_calls w)) (time_calls w).

Definition set_time_calls (n : nat) (w : world) : world :=
  mk_world (store w) (sessions w) (allow w) (dependencies w) (tasks w)
           (logfiles w) (events w) (os_calls w) n.

(** A computation: it ends in a result and leaves a world, also when it
    raises. *)
Definition M (A : Type) : Type := world -> result A * world.

Definition ret {A} (a : A) : M A := fun w => (Returns a, w).

Definition bind {A B} (m : M A) (k : A -> M B) : M B :=
  fun w =>
    match m w with
    | (Returns a, w') => k a w'
    | (Raises e, w') => (Raises e, w')
    | (Hangs, w') => (Hangs, w')
    | (Escapes b, w') => (Escapes b, w')
    end.

Definition raise {A} (e : exn) : M A := fun w => (Raises e, w).

Definition hang {A} : M A := fun w => (Hangs, w).

Definition escape {A} (b : base_exn) : M A := fun w => (Escapes b, w).

(** [try: m  except Exception as e: handler e]: an exception outside
    [Exception] is not caught. *)
Definition try_except {A} (m : M A) (handler : exn -> M A) : M A :=
  fun w =>
    match m w with
    | (Raises e, w') => handler e w'
    | rw => rw
    end.

Definition modify (f : world -> world) : M unit := fun w => (Returns tt, f w).

Definition gets {A} (f : world -> A) : M A := fun w => (Returns (f w), w).

Declare Scope monad_scope.
Delimit Scope monad_scope with M.
Notation "x <- m ;; k" := (bind m (fun x => k))
  (at level 61, m at next level, right associativity) : monad_scope.
Notation "m ;; k" := (bind m (fun _ => k))
  (at level 61, right associativity) : monad_scope.
Open Scope monad_scope.

(** [for x in l: body x] *)
Fixpoint for_each {A} (l : list A) (body : A -> M unit) : M unit :=
  match l with
  | [] => ret tt
  | x :: l' => body x ;; for_each l' body
  end.

(** An exception that a parser, or a use of a value at the wrong type,
    raises. *)
Definition lift {A} (r : exn + A) : M A :=
  match r with
  | inl e => raise e
  | inr a => ret a
  end.

(** ** Dynamic operations on values *)

Definition TypeError (msg : string) : exn := Exception "TypeError" msg.
Definition AttributeError (msg : string) : exn :=
  Exception "AttributeError" msg.
Definition KeyError (msg : string) : exn := Exception "KeyError" msg.

(** [v.get(k)] and [v.get(k, default)]: only a dict has [get]. *)
Definition py_get (v : value) (k : string) (default : value) : exn + value :=
  match v with
  | VDict d => inr (match dict_get d k with Some x => x | None => default end)
  | _ => inl (AttributeError "object has no attribute 'get'")
  end.

(** [v[k]] with a string key. *)
Definition py_getitem (v : value) (k : string) : exn + value :=
  match v with
  | VDict d => match dict_get d k with
               | Some x => inr x
               | None => inl (KeyError k)
               end
  | VList _ | VStr _ => inl (TypeError "indices must be integers")
  | _ => inl (TypeError "object is not subscriptable")
  end.

Fixpoint chars (s : string) : list value :=
  match s with
  | EmptyString => []
  | String c s' => VStr (String c EmptyString) :: chars s'
  end.

(** The items [for x in v] goes through. *)
Definition py_iter (v : value) : exn + list value :=
  match v with
  | VList l => inr l
  | VDict d => inr (map (fun kv => VStr (fst kv)) d)
  | VStr s => inr (chars s)
  | _ => inl (TypeError "object is not iterable")
  end.

(** [v == 'text'] *)
Definition eq_str (v : value) (s : string) : bool :=
  match v with
  | VStr s' => String.eqb s' s
  | _ => false
  end.

(** A value can be put in a set unless it is a list or a dict. *)
Definition hashable (v : value) : bool :=
  match v with
  | VList _ | VDict _ => false
  | _ => true
  end.

(** [v == n] for an int [n] other than 0 and 1. *)
Definition eq_int (v : value) (n : Z) : bool :=
  match v with
  | VInt z => z =? n
  | _ => false
  end.

(** [meta.setdefault('parsers', {})[name] = pr] *)
Definition attach_parser_result (meta : value) (name : string) (pr : value)
  : exn + value :=
  match meta with
  | VDict d =>
      match dict_get d "parsers" with
      | None => inr (VDict (dict_set d "parsers" (VDict [(name, pr)])))
      | Some (VDict ps) =>
          inr (VDict (dict_set d "parsers" (VDict (dict_set ps name pr))))
      | Some (VList _) => inl (TypeError "list indices must be integers")
      | Some _ => inl (TypeError "object does not support item assignment")
      end
  | _ => inl (AttributeError "object has no attribute 'setdefault'")
  end.

(** [self.dependencies[parent].append(child)] on a [defaultdict(list)]. *)
Fixpoint dependencies_append (deps : list (Z * list Z)) (parent child : Z)
  : list (Z * list Z) :=
  match deps with
  | [] => [(parent, [child])]
  | (p, cs) :: deps' =>
      if p =? parent then (p, (cs ++ [child])%list) :: deps'
      else (p, cs) :: dependencies_append deps' parent child
  end.

Fixpoint dependencies_get (deps : list (Z * list Z)) (parent : Z) : list Z :=
  match deps with
  | [] => []
  | (p, cs) :: deps' =>
      if p =? parent then cs else dependencies_get deps' parent
  end.

(** A registered parser: from the output rows of a job to a result, or an
    exception of a class derived from [Exception].  The loop that calls
    the parsers awaits nothing, so that no cancellation arrives there. *)
Definition parser : Type := list output_row -> exn + value.

Section Pipeline.

(** The value returned by the n-th call of [time.time()]. *)
Variable clock : nat -> Z.

(** Python's [repr], used when a value that is not a string is formatted. *)
Variable repr : value -> string.

(** [f'{v}'] *)
Definition py_str (v : value) : string :=
  match v with
  | VStr s => s
  | _ => repr v
  end.

Definition time_time : M Z :=
  fun w =>
    (Returns (clock (time_calls w)), set_time_calls (S (time_calls w)) w).

(** *** The store, called from a computation *)

Definition store_create_job (name : string) (command : list value)
    (cwd : option string) (env meta : option value) : M Z :=
  now <- time_time ;;
  fun w =>
    let (job_id, st) := create_job now name command cwd env meta (store w) in
    (Returns job_id, set_store (fun _ => st) w).

Definition store_update_job_status (job_id : Z) (status : string)
    (exit_code : option Z) (meta : option value) : M unit :=
  now <- time_time ;;
  modify (set_store (update_job_status now job_id status exit_code meta)).

Definition store_append_output (job_id : Z) (source line : string) : M unit :=
  now <- time_time ;;
  modify (set_store (append_output now job_id source line)).

Definition store_get_job (job_id : Z) : M (option job_row) :=
  gets (fun w => get_job job_id (store w)).

Definition store_fetch_outputs (job_id : Z) (since : option Z)
  : M (list output_row) :=
  gets (fun w => fetch_outputs job_id since (store w)).

(** *** [class CommandRunner] *)

Definition _notify (job_id : Z) (source line : string) : M unit :=
  now <- time_time ;;
  modify (set_events (fun es => es ++ [mk_event job_id source line now])).

Definition os_do (c : os_call) : M unit :=
  modify (set_os_calls (fun cs => (cs ++ [c])%list)).

(** [f"[{source}] {text}\n"] *)
Definition log_line (source text : string) : string :=
  "[" ++ source ++ "] " ++ text ++ String newline EmptyString.

(** One turn of the loop of [_read_stream]: a line was read from [s]. *)
Definition read_line (job_id : Z) (sl : stream * string) : M unit :=
  let source := stream_name (fst sl) in
  let text := rstrip_newline (snd sl) in
  os_do (os_readline (fst sl)) ;;
  store_append_output job_id source text ;;
  modify (set_logfiles (fun ls =>
            (ls ++ [(job_id, log_line source text)])%list)) ;;
  _notify job_id source text.

Definition run_job (job_id : Z) (timeout : option Z) (os : spawn_outcome)
  : M Z :=
  job <- store_get_job job_id ;;
  match job with
  | None => raise (Exception "ValueError" "no such job")
  | Some job =>
      let cmd_list := j_command job in
      store_update_job_status job_id "running" None None ;;
      match os with
      | spawn_not_found =>
          match cmd_list with
          | [] => raise (Exception "IndexError" "list index out of range")
          | c :: _ =>
              store_append_output job_id "system"
                ("ERROR: command not found: " ++ py_str c) ;;
              store_update_job_status job_id "failed" (Some (-1)) None ;;
              ret (-1)
          end
      | spawn_raises e => raise e
      | spawned proc =>
          os_do (os_exec cmd_list) ;;
          for_each (p_lines proc) (read_line job_id) ;;
          match p_end proc, timeout with
          | drained exit_code, _ =>
              os_do os_wait ;;
              store_update_job_status job_id
                (if exit_code =? 0 then "finished" else "failed")
                (Some exit_code) None ;;
              ret exit_code
          | pending, Some t =>
              os_do (os_kill to_process) ;;
              os_do os_wait ;;
              store_append_output job_id "system"
                ("ERROR: timeout after " ++ str_int t
                   ++ "s, killed process") ;;
              store_update_job_status job_id "timeout" None None ;;
              ret (-1)
          | pending, None => hang
          | lingering, _ => hang
          end
      | spawn_escapes b => escape b
      end
  end.

(** *** [class SessionStore] and [class Orchestrator] *)

Definition add_session (session : dict) : M unit :=
  now <- time_time ;;
  let session := match dict_get session "first_seen" with
                 | Some _ => session
                 | None => dict_set session "first_seen" (VInt now)
                 end in
  modify (set_sessions (fun ss => (ss ++ [VDict session])%list)).

Definition set_auto_exploit (allow : bool) : M unit :=
  modify (set_allow allow).

(** [if parent_job:] on [parent_job: Optional[int]]. *)
Definition parent_truthy (parent_job : option Z) : bool :=
  match parent_job with
  | Some p => negb (p =? 0)
  | None => false
  end.

Definition schedule_job (name : string) (command : list value)
    (cwd : option string) (env meta : option value) (parent_job : option Z)
  : M Z :=
  job_id <- store_create_job name command cwd env meta ;;
  match parent_job with
  | Some p =>
      if parent_truthy (Some p)
      then modify (set_dependencies (fun d => dependencies_append d p job_id))
      else ret tt
  | None => ret tt
  end ;;
  modify (set_tasks (fun ts => (ts ++ [job_id])%list)) ;;
  ret job_id.

Definition _launch_exploits_for_cred (cred : value) (parent_job : Z)
  : M unit :=
  target <- lift (py_get cred "ip" VNone) ;;
  username <- lift (py_get cred "username" VNone) ;;
  password <- lift (py_get cred "password" VNone) ;;
  if negb (truthy target && truthy username && truthy password) then ret tt
  else
    let meta := VDict [("target", target); ("triggered_by", VInt parent_job);
                       ("cred", VDict [("u", username)])] in
    schedule_job "psexec"
      [VStr "python3"; VStr "-m"; VStr "impacket.examples.psexec";
       VStr (py_str target); username; password]
      None None (Some meta) (Some parent_job) ;;
    ret tt.

Definition ad_ports : list Z := [88; 389; 636; 3268; 445].

(** [{p['port'] for p in ports if p['state'] == 'open'}], as the list of
    the values put in the set. *)
Fixpoint open_ports (ports : list value) : exn + list value :=
  match ports with
  | [] => inr []
  | p :: ports' =>
      match py_getitem p "state" with
      | inl e => inl e
      | inr state =>
          if eq_str state "open" then
            match py_getitem p "port" with
            | inl e => inl e
            | inr port =>
                if hashable port then
                  match open_ports ports' with
                  | inl e => inl e
                  | inr rest => inr (port :: rest)
                  end
                else inl (TypeError "unhashable type")
            end
          else open_ports ports'
      end
  end.

(** [ports & ad_ports] is not empty. *)
Definition meets_ad_ports (ports : list value) : bool :=
  existsb (fun v => existsb (eq_int v) ad_ports) ports.

(** The five follow-up jobs for one host. *)
Definition schedule_enumeration (ip : value) (job_id : Z) : M unit :=
  let meta := VDict [("target", ip); ("triggered_by", VInt job_id)] in
  schedule_job "enum4linux" [VStr "enum4linux-ng"; VStr "-a"; ip]
    None None (Some meta) (Some job_id) ;;
  schedule_job "ldapdomaindump" [VStr "ldapdomaindump"; ip]
    None None (Some meta) (Some job_id) ;;
  schedule_job "nmap_smb_scripts"
    [VStr "nmap"; VStr "-p"; VStr "445"; VStr "--script";
     VStr "smb-os-discovery,smb-enum-shares,smb-enum-users"; ip]
    None None (Some meta) (Some job_id) ;;
  schedule_job "getnpusers"
    [VStr "python3"; VStr "-m"; VStr "impacket.examples.GetNPUsers";
     VStr "-no-pass"; ip]
    None None (Some meta) (Some job_id) ;;
  schedule_job "cme_scan"
    [VStr "crackmapexec"; VStr "smb"; ip; VStr "--shares"; VStr "--pass-pol";
     VStr "--local-auth"; VStr "--json"]
    None None (Some meta) (Some job_id) ;;
  ret tt.

(** The body of [for host in nmap:]. *)
Definition nmap_host (job_id : Z) (host : value) : M unit :=
  ip <- lift (py_get host "ip" VNone) ;;
  port_list <- lift (py_get host "ports" (VList [])) ;;
  port_items <- lift (py_iter port_list) ;;
  ports <- lift (open_ports port_items) ;;
  if meets_ad_ports ports then schedule_enumeration ip job_id else ret tt.

(** The body of [for cred in creds:]. *)
Definition cme_cred (job_id : Z) (cred : value) : M unit :=
  add_session [("type", VStr "cred"); ("source_job", VInt job_id);
               ("details", cred)] ;;
  store_append_output job_id "system"
    ("Valid credential found: " ++ py_str cred) ;;
  allowed <- gets allow ;;
  if allowed then _launch_exploits_for_cred cred job_id else ret tt.

Definition _apply_rules (job_id : Z) (parsed_results : dict) : M unit :=
  let nmap := dict_get_or_none parsed_results "nmap_xml" in
  (if truthy nmap then
     hosts <- lift (py_iter nmap) ;;
     for_each hosts (nmap_host job_id)
   else ret tt) ;;
  let getnp := dict_get_or_none parsed_results "impacket_getnp" in
  (if truthy getnp then
     asreps <- lift (py_get getnp "asreps" (VList [])) ;;
     if truthy asreps then
       items <- lift (py_iter asreps) ;;
       for_each items (fun h =>
         add_session [("type", VStr "hash"); ("source_job", VInt job_id);
                      ("details", h)]) ;;
       store_append_output job_id "system"
         ("FOUND " ++ str_int (Z.of_nat (List.length items))
            ++ " AS-REP hashes; stored in sessions")
     else ret tt
   else ret tt) ;;
  let cme := dict_get_or_none parsed_results "crackmapexec_json" in
  if truthy cme then
    creds <- lift (py_get cme "valid_credentials" (VList [])) ;;
    items <- lift (py_iter creds) ;;
    for_each items (cme_cred job_id)
  else ret tt.

(** One turn of [for name, parser in parser_registry.all().items():];
    the result is the new [parsed_results]. *)
Definition run_parser (job_id : Z) (outs : list output_row)
    (parsed_results : dict) (np : string * parser) : M dict :=
  let (name, parse) := np in
  pr <- match parse outs with
        | inr pr => ret pr
        | inl e =>
            store_append_output job_id "system"
              ("PARSER " ++ name ++ " ERROR: " ++ exn_str e) ;;
            ret VNone
        end ;;
  if truthy pr then
    job <- store_get_job job_id ;;
    match job with
    | None => raise (AttributeError "'NoneType' object has no attribute 'get'")
    | Some job =>
        meta <- lift (attach_parser_result (j_meta job) name pr) ;;
        store_update_job_status job_id (j_status job) None (Some meta) ;;
        ret (dict_set parsed_results name pr)
    end
  else ret parsed_results.

Fixpoint run_parsers (job_id : Z) (outs : list output_row)
    (parsed_results : dict) (registry : list (string * parser)) : M dict :=
  match registry with
  | [] => ret parsed_results
  | np :: registry' =>
      parsed_results' <- run_parser job_id outs parsed_results np ;;
      run_parsers job_id outs parsed_results' registry'
  end.

Definition _run_and_process (registry : list (string * parser)) (job_id : Z)
    (os : spawn_outcome) : M unit :=
  ran <- try_except (run_job job_id None os ;; ret true)
           (fun e =>
              store_append_output job_id "system"
                ("ERROR during run: " ++ exn_str e) ;;
              store_update_job_status job_id "failed" None None ;;
              ret false) ;;
  if ran : bool then
    outs <- store_fetch_outputs job_id None ;;
    parsed_results <- run_parsers job_id outs [] registry ;;
    _apply_rules job_id parsed_results
  else ret tt.

End Pipeline.

(** [Orchestrator.__init__] over a store: [AutoExploitPolicy(allow=False)],
    no dependency, no task. *)
Definition Orchestrator_init (st : JobStore) : world :=
  mk_world st [] false [] [] [] [] [] 0.

(** ** Two of the registered parsers *)

(** [parser_rdp_check] *)
Fixpoint parser_rdp_check (outs : list output_row) : exn + value :=
  match outs with
  | [] => inr VNone
  | o :: outs' =>
      if contains "Authentication only, exit status 0" (o_line o)
      then inr (VDict [("rdp_auth_success", VBool true)])
      else parser_rdp_check outs'
  end.

(** The list [found['asreps']] built by [parser_impacket_getnp]. *)
Fixpoint getnp_asreps (outs : list output_row) : list value :=
  match outs with
  | [] => []
  | o :: outs' =>
      if negb (String.eqb (o_source o) "stdout") then getnp_asreps outs'
      else if contains "$krb5asrep$" (o_line o)
              || contains "ASREPRoast" (o_line o)
              || contains "AS-REP" (o_line o)
      then VDict [("line", VStr (o_line o))] :: getnp_asreps outs'
      else getnp_asreps outs'
  end.

(** [parser_impacket_getnp] *)
Definition parser_impacket_getnp (outs : list output_row) : exn + value :=
  match getnp_asreps outs with
  | [] => inr VNone
  | asreps => inr (VDict [("asreps", VList asreps)])
  end.

(** ** The shapes of the results the rules read *)

(** One entry of [ports] in a host of [parser_nmap_xml]. *)
Record port : Type := mk_port {
  pt_port : Z;
  pt_state : string;
  pt_service : value
}.

(** One host of [parser_nmap_xml]. *)
Record host : Type := mk_host {
  h_ip : value;
  h_ports : list port
}.

Definition port_value (p : port) : value :=
  VDict [("port", VInt (pt_port p)); ("state", VStr (pt_state p));
         ("service", pt_service p)].

Definition host_value (h : host) : value :=
  VDict [("ip", h_ip h); ("ports", VList (map port_value (h_ports h)))].

(** One entry of [valid_credentials] of [parser_crackmapexec_json]. *)
Record credential : Type := mk_credential {
  c_ip : value;
  c_username : value;
  c_password : value
}.

Definition cred_value (c : credential) : value :=
  VDict [("ip", c_ip c); ("username", c_username c);
         ("password", c_password c)].

(** ** Notions used in the statements *)

(** Some open port of the host is one of [ad_ports]. *)
Definition interesting (h : host) : bool :=
  existsb (fun p => String.eqb (pt_state p) "open"
                    && existsb (Z.eqb (pt_port p)) ad_ports) (h_ports h).

(** Name and command of the five follow-up jobs, in the order they are
    scheduled. *)
Definition enumeration_batch (ip : value) : list (string * list value) :=
  [("enum4linux", [VStr "enum4linux-ng"; VStr "-a"; ip]);
   ("ldapdomaindump", [VStr "ldapdomaindump"; ip]);
   ("nmap_smb_scripts",
    [VStr "nmap"; VStr "-p"; VStr "445"; VStr "--script";
     VStr "smb-os-discovery,smb-enum-shares,smb-enum-users"; ip]);
   ("getnpusers",
    [VStr "python3"; VStr "-m"; VStr "impacket.examples.GetNPUsers";
     VStr "-no-pass"; ip]);
   ("cme_scan",
    [VStr "crackmapexec"; VStr "smb"; ip; VStr "--shares"; VStr "--pass-pol";
     VStr "--local-auth"; VStr "--json"])].

(** The credential has an ip, a username and a password that are true
    values. *)
Definition complete (c : credential) : bool :=
  truthy (c_ip c) && truthy (c_username c) && truthy (c_password c).

(** The shallow merge the specification describes for [update_status]:
    every key of [new] is set in [old]. *)
Definition shallow_merge (old new : dict) : dict :=
  fold_left (fun d kv => dict_set d (fst kv) (snd kv)) new old.

(** [meta['parsers'].get(name)] where [meta] is a dict whose key
    [parsers] holds a dict. *)
Definition parsers_entry (meta : value) (name : string) : option value :=
  match meta with
  | VDict d =>
      match dict_get d "parsers" with
      | Some (VDict ps) => dict_get ps name
      | _ => None
      end
  | _ => None
  end.

(** [meta] is a dict in which the key [parsers] is missing or holds a
    dict. *)
Definition meta_ok (meta : value) : Prop :=
  match meta with
  | VDict d =>
      match dict_get d "parsers" with
      | None | Some (VDict _) => True
      | Some _ => False
      end
  | _ => False
  end.

(** The tables of [w'] are those of [w] with rows added at the end, and
    the gate is as it was. *)
Definition grows (w w' : world) : Prop :=
  (exists js, jobs (store w') = jobs (store w) ++ js)
  /\ (exists os, outputs (store w') = outputs (store w) ++ os)
  /\ allow w' = allow w.

(** Whatever its result, [m] leaves the tables with rows added only. *)
Definition growing {A} (m : M A) : Prop := forall w, grows w (snd (m w)).

(** [d] without the key [k]. *)
Fixpoint dict_remove (d : dict) (k : string) : dict :=
  match d with
  | [] => []
  | (k', v) :: d' =>
      if String.eqb k' k then dict_remove d' k
      else (k', v) :: dict_remove d' k
  end.

Definition ascending : list output_row -> Prop :=
  StronglySorted (fun a b => o_id a <= o_id b).

Definition job_matches (job_id : Z) (o : output_row) : bool :=
  o_job_id o =? job_id.

Definition job_matches_after (job_id t : Z) (o : output_row) : bool :=
  (o_job_id o =? job_id) && (t <? o_created_at o).

(** The integers that [sqlite3] binds to a statement: 64 bits, signed. *)
Definition fits_int64 (n : Z) : Prop :=
  -9223372036854775808 <= n <= 9223372036854775807.

(** Every output row carries a time after the epoch: [append_output]
    stamps a row with [time.time()], which is positive on a clock set
    after 1970. *)
Definition stamped (st : JobStore) : Prop :=
  Forall (fun o => 0 < o_created_at o) (outputs st).

(** What is asked of [schedule_job]: a name, a command and a meta. *)
Definition job_spec : Type := (string * list value * value)%type.

(** [r] is the row [create_job] writes for the request [spec]. *)
Definition is_scheduled (spec : job_spec) (r : job_row) : Prop :=
  j_name r = fst (fst spec) /\ j_command r = snd (fst spec)
  /\ j_meta r = snd spec /\ j_status r = "pending"
  /\ j_exit_code r = None /\ j_cwd r = "" /\ j_env r = VDict [].

(** The ids of [rows] are the ones that follow [base], in order. *)
Fixpoint fresh_ids (base : Z) (rows : list job_row) : Prop :=
  match rows with
  | [] => True
  | r :: rows' => j_id r = base + 1 /\ fresh_ids (base + 1) rows'
  end.

(** From [w] to [w'] exactly the requests [specs] were scheduled, in this
    order, on behalf of the job [parent]: their rows are the new rows of
    table jobs, with the next ids, and these ids were added to the tasks
    to run and to the children of [parent]; the gate is as it was. *)
Definition scheduled_after (parent : Z) (specs : list job_spec)
    (w w' : world) : Prop :=
  exists rows,
    jobs (store w') = jobs (store w) ++ rows
    /\ Forall2 is_scheduled specs rows
    /\ fresh_ids (jobs_seq (store w)) rows
    /\ jobs_seq (store w') = jobs_seq (store w) + Z.of_nat (List.length rows)
    /\ tasks w' = tasks w ++ map j_id rows
    /\ dependencies_get (dependencies w') parent
       = dependencies_get (dependencies w) parent ++ map j_id rows
    /\ allow w' = allow w.

(** The requests of the batch of enumeration jobs for one host. *)
Definition batch_specs (job_id : Z) (ip : value) : list job_spec :=
  map (fun nc => (fst nc, snd nc,
                  VDict [("target", ip); ("triggered_by", VInt job_id)]))
      (enumeration_batch ip).

(** The request of the exploitation job for one credential; [str] is
    [py_str]. *)
Definition exploit_spec (str : value -> string) (job_id : Z) (c : credential)
  : job_spec :=
  ("psexec",
   [VStr "python3"; VStr "-m"; VStr "impacket.examples.psexec";
    VStr (str (c_ip c)); c_username c; c_password c],
   VDict [("target", c_ip c); ("triggered_by", VInt job_id);
          ("cred", VDict [("u", c_username c)])]).

(** [s] is the session record the rules add for the credential [c] found
    by the job [job_id]. *)
Definition is_cred_session (job_id : Z) (c : credential) (s : value) : Prop :=
  exists t,
    s = VDict [("type", VStr "cred"); ("source_job", VInt job_id);
               ("details", cred_value c); ("first_seen", VInt t)].

(** ** Inputs of the examples *)

Definition example_clock (n : nat) : Z := 1700000000 + Z.of_nat n.

(** A stand-in for [repr] in the examples. *)
Definition example_repr (v : value) : string :=
  match v with
  | VNone => "None"
  | VBool true => "True"
  | VBool false => "False"
  | VInt z => str_int z
  | VStr s => "'" ++ s ++ "'"
  | VList _ => "[...]"
  | VDict _ => "{...}"
  end.

Definition example_registry : list (string * parser) :=
  [("impacket_getnp", parser_impacket_getnp);
   ("rdp_check", parser_rdp_check)].

(** A store with one job and two output rows, the first of them written
    when the clock read 0. *)
Definition example_store : JobStore :=
  append_output 7 1 "stderr" "warn"
    (append_output 0 1 "stdout" "hello"
       (snd (create_job 0 "echo" [VStr "echo"; VStr "hello"] None None
               (Some (VDict [("phase", VStr "discovery")])) JobStore_init))).

Definition example_world : world := Orchestrator_init example_store.

(** A job [echo 'Authentication only, exit status 0'], the child that
    prints the line and exits with 0, and the world before the run. *)
Definition rdp_store : JobStore :=
  snd (create_job 100 "rdp"
         [VStr "echo"; VStr "Authentication only, exit status 0"]
         None None None JobStore_init).

Definition rdp_world : world := Orchestrator_init rdp_store.

Definition rdp_process : process :=
  mk_process
    [(stdout,
      String.append "Authentication only, exit status 0"
                    (String newline EmptyString))]
    (drained 0).





(** The job [echo 'Authentication only, exit status 0'] created with the
    meta [{'parsers': []}], and the world before its run. *)
Definition listed_store : JobStore :=
  snd (create_job 100 "rdp"
         [VStr "echo"; VStr "Authentication only, exit status 0"]
         None None (Some (VDict [("parsers", VList [])])) JobStore_init).

Definition listed_world : world := Orchestrator_init listed_store.

(** A store with one job and two output rows, written at two readings of
    the clock. *)
Definition polled_store : JobStore :=
  append_output 1700000007 1 "stderr" "warn"
    (append_output 1700000002 1 "stdout" "hello"
       (snd (create_job 1700000000 "echo" [VStr "echo"; VStr "hello"] None
               None None JobStore_init))).

(** A parser that raises on every input. *)
Definition parser_broken : parser :=
  fun _ => inl (Exception "ValueError" "bad output").

Definition broken_registry : list (string * parser) :=
  [("broken", parser_broken); ("rdp_check", parser_rdp_check)].

(** The discovery result of the specification: one host with ports 445
    and 80 open. *)
Definition example_host : host :=
  mk_host (VStr "10.0.0.5")
    [mk_port 445 "open" (VStr "microsoft-ds"); mk_port 80 "open" (VStr "http")].

Definition discovery_results : dict :=
  [("nmap_xml", VList [host_value example_host])].

(** A validated credential with a password, and one without. *)
Definition full_cred : credential :=
  mk_credential (VStr "10.0.0.5") (VStr "admin") (VStr "Winter2024").

Definition bare_cred : credential :=
  mk_credential (VStr "10.0.0.5") (VStr "admin") VNone.

Definition cme_results (creds : list credential) : dict :=
  [("crackmapexec_json",
    VDict [("valid_credentials", VList (map cred_value creds))])].

(** ** More of the code *)

(** *** [JobStore.list_jobs] *)




(** *** [class ParserRegistry] *)

Definition ParserRegistry : Type := list (string * parser).

(** [ParserRegistry.__init__] *)
Definition ParserRegistry_init : ParserRegistry := [].

(** [register(name)(fn)]: [self._parsers[name] = fn]. *)
Fixpoint register (name : string) (fn : parser) (reg : ParserRegistry)
  : ParserRegistry :=
  match reg with
  | [] => [(name, fn)]
  | (n, f) :: reg' =>
      if String.eqb n name then (n, fn) :: reg'
      else (n, f) :: register name fn reg'
  end.

(** [get(name)] *)
Fixpoint registry_get (reg : ParserRegistry) (name : string)
  : option parser :=
  match reg with
  | [] => None
  | (n, f) :: reg' =>
      if String.eqb n name then Some f else registry_get reg' name
  end.

(** [all()]: a copy of the dict, whose items are gone through in the order
    of first registration. *)
Definition registry_all (reg : ParserRegistry) : list (string * parser) :=
  reg.

(** *** [parser_impacket_secretsdump] *)

(** [line.split(sep)] for a separator of one character. *)
Fixpoint split (sep : ascii) (s : string) : list string :=
  match s with
  | EmptyString => [EmptyString]
  | String c s' =>
      if Ascii.eqb c sep then EmptyString :: split sep s'
      else match split sep s' with
           | field :: fields => String c field :: fields
           | [] => [String c EmptyString]
           end
  end.

(** The class [0-9a-fA-F]. *)
Definition is_hex (c : ascii) : bool :=
  let n := nat_of_ascii c in
  ((48 <=? n) && (n <=? 57) || (97 <=? n) && (n <=? 102)
   || (65 <=? n) && (n <=? 70))%nat.

Fixpoint all_hex (s : string) : bool :=
  match s with
  | EmptyString => true
  | String c s' => is_hex c && all_hex s'
  end.

(** [re.fullmatch(r'[0-9a-fA-F]{32}', s)] finds a match. *)
Definition fullmatch_hex32 (s : string) : bool :=
  (String.length s =? 32)%nat && all_hex s.

(** The list [found_hashes]. *)
Fixpoint secretsdump_hashes (outs : list output_row) : list value :=
  match outs with
  | [] => []
  | o :: outs' =>
      if negb (String.eqb (o_source o) "stdout") then secretsdump_hashes outs'
      else
        let parts := split ":" (o_line o) in
        if (4 <=? List.length parts)%nat
           && fullmatch_hex32
                (if (3 <? List.length parts)%nat
                 then nth 3 parts EmptyString else EmptyString)
        then VDict [("line", VStr (o_line o))] :: secretsdump_hashes outs'
        else secretsdump_hashes outs'
  end.

Definition parser_impacket_secretsdump (outs : list output_row)
  : exn + value :=
  match secretsdump_hashes outs with
  | [] => inr VNone
  | hashes => inr (VDict [("hashes", VList hashes)])
  end.

(** *** [parser_crackmapexec_json] *)

(** [a or b] on values. *)
Definition py_or (a b : value) : value := if truthy a then a else b.

Section CrackMapExec.

(** [json.loads]: the value read, or the exception raised. *)
Variable json_loads : string -> exn + value.

(** [str.strip] *)
Variable strip : string -> string.

(** The loop of the parser, with the lists [creds] and [services] built
    so far. *)
Fixpoint cme_scan (outs : list output_row) (creds services : list value)
  : exn + (list value * list value) :=
  match outs with
  | [] => inr (creds, services)
  | o :: outs' =>
      if negb (String.eqb (o_source o) "stdout")
      then cme_scan outs' creds services
      else
        let line := strip (o_line o) in
        if String.eqb line "" then cme_scan outs' creds services
        else
          match json_loads line with
          | inl _ => cme_scan outs' creds services
          | inr (VDict obj) =>
              let svc := py_or (dict_get_or_none obj "service")
                               (dict_get_or_none obj "module") in
              let services' :=
                if truthy svc then services ++ [VDict obj] else services in
              let auth := py_or (dict_get_or_none obj "authentication")
                                (dict_get_or_none obj "auth") in
              if truthy auth then
                match py_get auth "success" VNone with
                | inl e => inl e
                | inr success =>
                    if truthy success then
                      match py_get auth "username" VNone,
                            py_get auth "password" VNone with
                      | inr username, inr password =>
                          cme_scan outs'
                            (creds
                             ++ [VDict [("ip", dict_get_or_none obj "target");
                                        ("username", username);
                                        ("password", password)]])
                            services'
                      | inl e, _ => inl e
                      | _, inl e => inl e
                      end
                    else cme_scan outs' creds services'
                end
              else cme_scan outs' creds services'
          | inr _ => cme_scan outs' creds services
          end
  end.

Definition parser_crackmapexec_json (outs : list output_row) : exn + value :=
  match cme_scan outs [] [] with
  | inl e => inl e
  | inr (creds, services) =>
      let result := [] in
      let result :=
        if truthy (VList creds)
        then dict_set result "valid_credentials" (VList creds) else result in
      let result :=
        if truthy (VList services)
        then dict_set result "services" (VList services) else result in
      inr (if truthy (VDict result) then VDict result else VNone)
  end.

End CrackMapExec.

(** *** [api_auto_exploit] of the web UI *)

(** The handler of [POST /api/auto_exploit].  [got] is what
    [request.get_json()] does with the request: it raises (Flask answers
    415 to a body that is not declared as JSON and 400 to one that does
    not parse), or it returns the parsed body.  The result is the dict
    handed to [jsonify]. *)
Definition api_auto_exploit (got : exn + value) : M value :=
  body <- lift got ;;
  let data := py_or body (VDict []) in
  enable <- lift (py_get data "enable" VNone) ;;
  set_auto_exploit (truthy enable) ;;
  allowed <- gets allow ;;
  ret (VDict [("ok", VBool true); ("auto_exploit", VBool allowed)]).

(** *** Notions used in the statements about the whole code *)

(** The ids of each table are positive, increase along the table and do
    not exceed the counter of the table. *)
Definition store_ok (st : JobStore) : Prop :=
  0 <= jobs_seq st /\ 0 <= outputs_seq st
  /\ StronglySorted Z.lt (map j_id (jobs st))
  /\ Forall (fun i => 0 < i <= jobs_seq st) (map j_id (jobs st))
  /\ StronglySorted Z.lt (map o_id (outputs st))
  /\ Forall (fun i => 0 < i <= outputs_seq st) (map o_id (outputs st)).

(** The columns of a job that are written once, by [create_job]. *)
Definition job_key (r : job_row)
  : Z * Z * string * list value * string * value :=
  (j_id r, j_created_at r, j_name r, j_command r, j_cwd r, j_env r).

(** From [w] to [w']: the jobs are the same, in the same order and with
    the same written-once columns, followed by new ones; the output rows,
    the sessions and the tasks are the same followed by new ones; the
    gate is as it was; the counters did not go back. *)
Definition advances (w w' : world) : Prop :=
  (exists ks, map job_key (jobs (store w'))
              = map job_key (jobs (store w)) ++ ks)
  /\ (exists os, outputs (store w') = outputs (store w) ++ os)
  /\ (exists ss, sessions w' = sessions w ++ ss)
  /\ (exists ts, tasks w' = tasks w ++ ts)
  /\ allow w' = allow w
  /\ jobs_seq (store w) <= jobs_seq (store w')
  /\ outputs_seq (store w) <= outputs_seq (store w').

(** Whatever its result, [m] advances the world and keeps the ids of the
    store in order. *)
Definition steady {A} (m : M A) : Prop :=
  forall w,
    advances w (snd (m w))
    /\ (store_ok (store w) -> store_ok (store (snd (m w)))).


(** What an output row, an event and a line of a pipe say: the job, the
    source and the text. *)
Definition output_says (o : output_row) : Z * string * string :=
  (o_job_id o, o_source o, o_line o).



(** The rows [parser_impacket_getnp] keeps: rows of stdout that contain
    one of its three marks. *)
Definition getnp_matches (o : output_row) : bool :=
  String.eqb (o_source o) "stdout"
  && (contains "$krb5asrep$" (o_line o) || contains "ASREPRoast" (o_line o)
      || contains "AS-REP" (o_line o)).

(** [s] is the session record the rules add for the item [details] of
    [asreps] found by the job [job_id]. *)
Definition is_hash_session (job_id : Z) (details s : value) : Prop :=
  exists t,
    s = VDict [("type", VStr "hash"); ("source_job", VInt job_id);
               ("details", details); ("first_seen", VInt t)].

(** The rows [parser_impacket_secretsdump] keeps: rows of stdout whose
    fourth field between colons is 32 hexadecimal digits. *)
Definition secretsdump_matches (o : output_row) : bool :=
  String.eqb (o_source o) "stdout"
  && fullmatch_hex32 (nth 3 (split ":" (o_line o)) EmptyString).

Fixpoint no_colon (s : string) : bool :=
  match s with
  | EmptyString => true
  | String c s' => negb (Ascii.eqb c ":") && no_colon s'
  end.

(** One row of stdout with an AS-REP hash, and one with a line of JSON
    that reports a successful authentication. *)
Definition asrep_outputs : list output_row :=
  [mk_output 1 1 5 "stdout" "$krb5asrep$23$svc_sql@CORP.LOCAL:3e1f";
   mk_output 2 1 6 "stderr" "AS-REP on stderr is not looked at"].

(** What [parser_impacket_getnp] returns on [asrep_outputs]. *)
Definition asrep_result : value :=
  VDict [("asreps",
          VList [VDict [("line",
                         VStr "$krb5asrep$23$svc_sql@CORP.LOCAL:3e1f")]])].

Definition cme_line : string :=
  "{'target': '10.0.0.5', 'auth': {'success': true, 'username': 'admin'}}".

(** A stand-in for [json.loads] that reads [cme_line] and refuses every
    other text. *)
Definition example_json_loads (s : string) : exn + value :=
  if String.eqb s cme_line
  then inr (VDict [("target", VStr "10.0.0.5");
                   ("auth", VDict [("success", VBool true);
                                   ("username", VStr "admin")])])
  else inl (Exception "JSONDecodeError" "Expecting value").

Definition cme_outputs : list output_row :=
  [mk_output 1 1 5 "stdout" cme_line;
   mk_output 2 1 6 "stdout" "not json"].

(** From [w] to [w'] no job was created, queued or recorded as a child,
    and the gate is as it was. *)
Definition schedules_nothing (w w' : world) : Prop :=
  jobs (store w') = jobs (store w)
  /\ jobs_seq (store w') = jobs_seq (store w)
  /\ tasks w' = tasks w
  /\ dependencies w' = dependencies w
  /\ allow w' = allow w.

(** Started with the gate disabled, [m] schedules nothing, whatever its
    result. *)
Definition idle_when_off {A} (m : M A) : Prop :=
  forall w, allow w = false -> schedules_nothing w (snd (m w)).

(** The entry [k] of a meta that is a dict. *)
Definition meta_entry (meta : value) (k : string) : option value :=
  match meta with
  | VDict d => dict_get d k
  | _ => None
  end.

(** Whatever its result, [m] keeps the job [k] and every entry of its
    meta other than [parsers]. *)
Definition keeps_meta (k : Z) {A} (m : M A) : Prop :=
  forall w r,
    get_job k (store w) = Some r ->
    exists r',
      get_job k (store (snd (m w))) = Some r'
      /\ forall key, key <> "parsers" ->
           meta_entry (j_meta r') key = meta_entry (j_meta r) key.

(** * Properties *)

(** ** Dictionaries *)

Lemma dict_get_set_same (d : dict) (k : string) (v : value) :
  dict_get (dict_set d k v) k = Some v.
Proof.
  induction d as [|[k' v'] d IH]; simpl.
  - now rewrite String.eqb_refl.
  - destruct (String.eqb k' k) eqn:E; simpl; rewrite E; auto.
Qed.

Lemma dict_get_set_other (d : dict) (k k' : string) (v : value) :
  k <> k' -> dict_get (dict_set d k v) k' = dict_get d k'.
Proof.
  intros Hne. induction d as [|[k0 v0] d IH]; simpl.
  - destruct (String.eqb k k') eqn:E; auto.
    apply String.eqb_eq in E. contradiction.
  - destruct (String.eqb k0 k) eqn:E; simpl.
    + apply String.eqb_eq in E. subst k0.
      destruct (String.eqb k k') eqn:E'; auto.
      apply String.eqb_eq in E'. contradiction.
    + now rewrite IH.
Qed.

Lemma dict_get_remove_same (d : dict) (k : string) :
  dict_get (dict_remove d k) k = None.
Proof.
  induction d as [|[k' v'] d IH]; simpl; auto.
  destruct (String.eqb k' k) eqn:E; simpl; auto. now rewrite E.
Qed.

Lemma dict_get_remove_other (d : dict) (k k' : string) :
  k <> k' -> dict_get (dict_remove d k) k' = dict_get d k'.
Proof.
  intros Hne. induction d as [|[k0 v0] d IH]; simpl; auto.
  destruct (String.eqb k0 k) eqn:E; simpl.
  - apply String.eqb_eq in E. subst k0.
    destruct (String.eqb k k') eqn:E'; auto.
    apply String.eqb_eq in E'. contradiction.
  - now rewrite IH.
Qed.

(** ** The job store *)

Lemma update_row_id now job_id status exit_code meta r :
  j_id (update_row now job_id status exit_code meta r) = j_id r.
Proof.
  unfold update_row. destruct (j_id r =? job_id); auto. destruct meta; auto.
Qed.

Lemma find_map_update now job_id status exit_code meta k l :
  find (fun r => j_id r =? k)
       (map (update_row now job_id status exit_code meta) l)
  = option_map (update_row now job_id status exit_code meta)
               (find (fun r => j_id r =? k) l).
Proof.
  induction l as [|r l IH]; simpl; auto.
  rewrite update_row_id. destruct (j_id r =? k); auto.
Qed.

(** Reading a job back after [update_job_status]. *)
Lemma get_job_update now job_id status exit_code meta k st :
  get_job k (update_job_status now job_id status exit_code meta st)
  = option_map (update_row now job_id status exit_code meta) (get_job k st).
Proof. unfold get_job, update_job_status. simpl. apply find_map_update. Qed.

Lemma get_job_id job_id st r : get_job job_id st = Some r -> j_id r = job_id.
Proof.
  unfold get_job. intros H. apply find_some in H. destruct H as [_ H].
  now apply Z.eqb_eq in H.
Qed.

(** The ids given out by [create_job] start at 1. *)
Lemma create_job_id_positive now name command cwd env meta st :
  0 <= jobs_seq st ->
  0 < fst (create_job now name command cwd env meta st)
  /\ 0 <= jobs_seq (snd (create_job now name command cwd env meta st)).
Proof. simpl. lia. Qed.

Lemma get_job_append_output now job_id source line k st :
  get_job k (append_output now job_id source line st) = get_job k st.
Proof. reflexivity. Qed.

(** ** [ORDER BY id ASC] *)

Lemma insert_by_id_perm r l : Permutation (insert_by_id r l) (r :: l).
Proof.
  induction l as [|x l IH]; simpl; auto.
  destruct (o_id r <=? o_id x); auto.
  rewrite IH. apply perm_swap.
Qed.

Lemma order_by_id_perm l : Permutation (order_by_id l) l.
Proof.
  induction l as [|x l IH]; simpl; auto.
  rewrite insert_by_id_perm. now constructor.
Qed.

Lemma insert_by_id_ascending r l :
  ascending l -> ascending (insert_by_id r l).
Proof.
  unfold ascending. induction l as [|x l IH]; simpl; intros Hs.
  - constructor; constructor.
  - destruct (o_id r <=? o_id x) eqn:E.
    + apply Z.leb_le in E. constructor; auto.
      inversion Hs as [|? ? _ Hall]; subst. constructor; auto.
      eapply Forall_impl; [|exact Hall]. simpl. intros; lia.
    + apply Z.leb_gt in E. inversion Hs as [|? ? Hs' Hall]; subst.
      constructor; auto.
      eapply Permutation_Forall.
      * symmetry. apply insert_by_id_perm.
      * constructor; auto. lia.
Qed.

Lemma order_by_id_ascending l : ascending (order_by_id l).
Proof.
  induction l as [|x l IH]; simpl.
  - constructor.
  - now apply insert_by_id_ascending.
Qed.

(** On a list that is already in ascending order of id, as the table
    is when every row was appended with a fresh id, sorting changes
    nothing. *)
Lemma order_by_id_sorted l : ascending l -> order_by_id l = l.
Proof.
  unfold ascending. induction l as [|x l IH]; simpl; auto.
  intros Hs. inversion Hs as [|? ? Hs' Hall]; subst.
  rewrite IH by assumption. destruct l as [|y l]; simpl; auto.
  inversion Hall; subst.
  destruct (o_id x <=? o_id y) eqn:E; auto. apply Z.leb_gt in E. lia.
Qed.

(** ** [fetch_outputs] *)

Lemma fetch_outputs_none job_id st :
  fetch_outputs job_id None st
  = order_by_id (filter (job_matches job_id) (outputs st)).
Proof. reflexivity. Qed.

Lemma fetch_outputs_nonzero job_id t st :
  t <> 0 ->
  fetch_outputs job_id (Some t) st
  = order_by_id (filter (job_matches_after job_id t) (outputs st)).
Proof.
  intros Ht. unfold fetch_outputs, since_truthy.
  apply Z.eqb_neq in Ht. now rewrite Ht.
Qed.

Lemma fetch_outputs_ascending job_id since st :
  ascending (fetch_outputs job_id since st).
Proof.
  unfold fetch_outputs. destruct since as [t|].
  - destruct (since_truthy (Some t)); apply order_by_id_ascending.
  - apply order_by_id_ascending.
Qed.

(** Every row being stamped after the epoch is an invariant of the
    store: [append_output] is the only writer of the table. *)
Lemma stamped_init : stamped JobStore_init.
Proof. constructor. Qed.

Lemma stamped_append_output now job_id source line st :
  0 < now -> stamped st -> stamped (append_output now job_id source line st).
Proof.
  intros Hnow Hst. unfold stamped, append_output. simpl.
  apply Forall_app. split; [exact Hst|]. constructor; [exact Hnow|constructor].
Qed.

Lemma stamped_create_job now name command cwd env meta st :
  stamped st -> stamped (snd (create_job now name command cwd env meta st)).
Proof. intros Hst. exact Hst. Qed.

Lemma stamped_update_job_status now job_id status exit_code meta st :
  stamped st -> stamped (update_job_status now job_id status exit_code meta st).
Proof. intros Hst. exact Hst. Qed.

(** With [since] 0 the query without the filter runs; on rows stamped
    after the epoch it selects what the filter would. *)
Lemma filter_after_zero job_id st :
  stamped st ->
  filter (job_matches job_id) (outputs st)
  = filter (job_matches_after job_id 0) (outputs st).
Proof.
  unfold stamped. intros Hst. induction Hst as [|o l Ho _ IH]; [reflexivity|].
  simpl. rewrite IH. unfold job_matches, job_matches_after.
  apply Z.ltb_lt in Ho. rewrite Ho, andb_true_r. reflexivity.
Qed.

Lemma fetch_outputs_some job_id t st :
  stamped st ->
  fetch_outputs job_id (Some t) st
  = order_by_id (filter (job_matches_after job_id t) (outputs st)).
Proof.
  intros Hst. destruct (Z.eq_dec t 0) as [-> | Ht].
  - change (fetch_outputs job_id (Some 0) st)
      with (order_by_id (filter (job_matches job_id) (outputs st))).
    now rewrite filter_after_zero.
  - now apply fetch_outputs_nonzero.
Qed.

(** C8.  On a store whose output rows were stamped after the epoch, as
    [append_output] stamps them, [fetch_outputs] returns rows in
    ascending order of id; without [since] they are exactly the rows of
    the job, and with a [since], 0 included, exactly the rows of the job
    created strictly after it (each row once: the result is a permutation
    of the selected rows of the table).  The three writers of the store
    keep its rows stamped so when the clock reads a positive time. *)
Theorem fetch_outputs_ascending_filtered :
  forall (job_id : Z) (since : option Z) (st : JobStore),
    stamped st ->
    ascending (fetch_outputs job_id since st)
    /\ (since = None ->
        Permutation (fetch_outputs job_id since st)
                    (filter (job_matches job_id) (outputs st)))
    /\ (forall t, since = Some t ->
        Permutation (fetch_outputs job_id since st)
                    (filter (job_matches_after job_id t) (outputs st))
        /\ forall o, In o (fetch_outputs job_id since st) <->
                     In o (outputs st) /\ o_job_id o = job_id
                     /\ t < o_created_at o)
    /\ (forall now k source line,
          0 < now -> stamped (append_output now k source line st))
    /\ (forall now name command cwd env meta,
          stamped (snd (create_job now name command cwd env meta st)))
    /\ (forall now k status exit_code meta,
          stamped (update_job_status now k status exit_code meta st)).
Proof.
  intros job_id since st Hst. split; [apply fetch_outputs_ascending|].
  split; [|split; [|split; [|split]]].
  - intros ->. apply order_by_id_perm.
  - intros t ->. rewrite fetch_outputs_some by assumption.
    split; [apply order_by_id_perm|]. intros o. split.
    + intros Hin. apply (Permutation_in _ (order_by_id_perm _)) in Hin.
      apply filter_In in Hin. destruct Hin as [Hin Hb].
      unfold job_matches_after in Hb. apply andb_true_iff in Hb.
      destruct Hb as [Hj Hc]. apply Z.eqb_eq in Hj. apply Z.ltb_lt in Hc.
      auto.
    + intros (Hin & Hj & Hc).
      apply (Permutation_in _ (Permutation_sym (order_by_id_perm _))).
      apply filter_In. split; auto. unfold job_matches_after.
      apply andb_true_iff. split; [now apply Z.eqb_eq | now apply Z.ltb_lt].
  - intros now k source line Hnow. now apply stamped_append_output.
  - intros now name command cwd env meta. now apply stamped_create_job.
  - intros now k status exit_code meta. now apply stamped_update_job_status.
Qed.

Lemma polled_store_stamped : stamped polled_store.
Proof. repeat constructor. Qed.

Lemma fetch_outputs_ascending_filtered_witness :
  Permutation (fetch_outputs 1 (Some 0) polled_store)
              (filter (job_matches_after 1 0) (outputs polled_store))
  /\ Permutation (fetch_outputs 1 (Some 1700000002) polled_store)
                 (filter (job_matches_after 1 1700000002)
                         (outputs polled_store)).
Proof.
  split.
  - apply (proj1 (proj2 (proj2 (fetch_outputs_ascending_filtered
                                  1 (Some 0) polled_store
                                  polled_store_stamped))) 0).
    reflexivity.
  - apply (proj1 (proj2 (proj2 (fetch_outputs_ascending_filtered
                                  1 (Some 1700000002) polled_store
                                  polled_store_stamped))) 1700000002).
    reflexivity.
Defined.

(** C10.  A [since] of 0 is treated like no [since]: the result is the
    same, and it holds all the rows of the job whatever their creation
    time, in particular one not created after 0. *)
Theorem fetch_outputs_falsy_since :
  forall (job_id : Z) (st : JobStore),
    fetch_outputs job_id (Some 0) st = fetch_outputs job_id None st
    /\ (forall o, In o (fetch_outputs job_id (Some 0) st) <->
                  In o (outputs st) /\ o_job_id o = job_id)
    /\ In (mk_output 1 1 0 "stdout" "hello")
          (fetch_outputs 1 (Some 0) example_store).
Proof.
  intros job_id st. split; [reflexivity|]. split.
  - intros o. change (fetch_outputs job_id (Some 0) st)
      with (order_by_id (filter (job_matches job_id) (outputs st))).
    split.
    + intros Hin. apply (Permutation_in _ (order_by_id_perm _)) in Hin.
      apply filter_In in Hin. destruct Hin as [Hin Hb].
      apply Z.eqb_eq in Hb. auto.
    + intros [Hin Hj].
      apply (Permutation_in _ (Permutation_sym (order_by_id_perm _))).
      apply filter_In. split; auto. now apply Z.eqb_eq.
  - vm_compute. auto.
Qed.

(** ** [update_job_status] *)

(** The row read back after [update_job_status] on a job of the store. *)
Lemma get_job_update_same now job_id status exit_code meta st r :
  get_job job_id st = Some r ->
  get_job job_id (update_job_status now job_id status exit_code meta st)
  = Some (mk_job (j_id r) (j_created_at r) now (j_name r) (j_command r)
                 (j_cwd r) (j_env r) status exit_code
                 (match meta with Some m => m | None => j_meta r end)).
Proof.
  intros Hget. rewrite get_job_update, Hget. simpl.
  apply get_job_id in Hget. unfold update_row.
  apply Z.eqb_eq in Hget. rewrite Hget. now destruct meta.
Qed.

Lemma get_job_update_other now job_id status exit_code meta k st :
  k <> job_id ->
  get_job k (update_job_status now job_id status exit_code meta st)
  = get_job k st.
Proof.
  intros Hne. rewrite get_job_update. destruct (get_job k st) as [r|] eqn:E;
    simpl; auto.
  apply get_job_id in E. unfold update_row.
  replace (j_id r =? job_id) with false; auto.
  symmetry. apply Z.eqb_neq. congruence.
Qed.

(** C3, as amended.  When a meta mapping is passed the stored meta
    becomes that mapping, whatever was stored before, and when none is
    passed the stored meta is kept; [updated_at] is set to the current
    time, the status and the exit code to the arguments, and the other
    columns are kept. *)
Theorem update_job_status_replaces_meta :
  forall (now job_id : Z) (status : string) (exit_code : option Z)
         (meta : option value) (st : JobStore) (r : job_row),
    get_job job_id st = Some r ->
    exists r',
      get_job job_id (update_job_status now job_id status exit_code meta st)
      = Some r'
      /\ j_meta r' = match meta with Some m => m | None => j_meta r end
      /\ j_updated_at r' = now
      /\ j_status r' = status
      /\ j_exit_code r' = exit_code
      /\ j_id r' = j_id r /\ j_created_at r' = j_created_at r
      /\ j_name r' = j_name r /\ j_command r' = j_command r
      /\ j_cwd r' = j_cwd r /\ j_env r' = j_env r.
Proof.
  intros now job_id status exit_code meta st r Hget.
  eexists. split.
  - apply get_job_update_same. exact Hget.
  - simpl. repeat split.
Qed.

Lemma update_job_status_replaces_meta_witness :
  exists r',
    get_job 1 (update_job_status 9 1 "finished" (Some 0)
                 (Some (VDict [("parsers", VDict [])])) example_store)
    = Some r'
    /\ j_meta r' = VDict [("parsers", VDict [])].
Proof.
  destruct (update_job_status_replaces_meta 9 1 "finished" (Some 0)
              (Some (VDict [("parsers", VDict [])])) example_store
              (mk_job 1 0 0 "echo" [VStr "echo"; VStr "hello"] "" (VDict [])
                      "pending" None (VDict [("phase", VStr "discovery")]))
              eq_refl)
    as (r' & Hget & Hmeta & _).
  exists r'. split; assumption.
Defined.

(** C3 as stated fails: the job was stored with the key [phase], the new
    mapping does not mention [phase], and after the call the key is gone,
    so the stored meta is not the shallow merge of the two. *)
Lemma update_job_status_merge_counterexample :
  let old := [("phase", VStr "discovery")] in
  let new := [("parsers", VDict [])] in
  option_map j_meta (get_job 1 example_store) = Some (VDict old)
  /\ dict_get new "phase" = None
  /\ dict_get (shallow_merge old new) "phase" = Some (VStr "discovery")
  /\ exists stored,
       option_map j_meta
         (get_job 1 (update_job_status 9 1 "finished" (Some 0)
                       (Some (VDict new)) example_store))
       = Some (VDict stored)
       /\ dict_get stored "phase" = None
       /\ stored <> shallow_merge old new.
Proof.
  simpl. repeat split.
  exists [("parsers", VDict [])]. repeat split. discriminate.
Qed.

(** The exit code written by [update_job_status] is its argument: with the
    argument left out, the stored exit code becomes absent. *)
Lemma update_job_status_exit_code now job_id status exit_code meta st r :
  get_job job_id st = Some r ->
  option_map j_exit_code
    (get_job job_id (update_job_status now job_id status exit_code meta st))
  = Some exit_code.
Proof.
  intros Hget.
  now rewrite (get_job_update_same now job_id status exit_code meta st r Hget).
Qed.

(** ** Running a job *)

Section PipelineProperties.

Variable clock : nat -> Z.
Variable repr : value -> string.

Lemma bind_returns {A B} (m : M A) (k : A -> M B) w a w' :
  m w = (Returns a, w') -> bind m k w = k a w'.
Proof. unfold bind. now intros ->. Qed.

Lemma bind_returns_inv {A B} (m : M A) (k : A -> M B) w b w2 :
  bind m k w = (Returns b, w2) ->
  exists a w1, m w = (Returns a, w1) /\ k a w1 = (Returns b, w2).
Proof.
  unfold bind. destruct (m w) as [[a|e| |be] w1]; try discriminate.
  intros H. now exists a, w1.
Qed.

Lemma bind_raises {A B} (m : M A) (k : A -> M B) w e w' :
  m w = (Raises e, w') -> bind m k w = (Raises e, w').
Proof. unfold bind. now intros ->. Qed.

(** The loop of the readers: every line read becomes one row of the job,
    tagged with the pipe it came from; nothing else in the store or in the
    orchestrator changes. *)
Lemma read_lines_run job_id lines :
  forall w, exists w',
    for_each lines (read_line clock job_id) w = (Returns tt, w')
    /\ jobs (store w') = jobs (store w)
    /\ jobs_seq (store w') = jobs_seq (store w)
    /\ sessions w' = sessions w /\ allow w' = allow w
    /\ dependencies w' = dependencies w /\ tasks w' = tasks w
    /\ os_calls w'
       = os_calls w ++ map (fun sl => os_readline (fst sl)) lines
    /\ exists rows,
         outputs (store w') = outputs (store w) ++ rows
         /\ Forall2 (fun sl o =>
                       o_job_id o = job_id
                       /\ o_source o = stream_name (fst sl)
                       /\ o_line o = rstrip_newline (snd sl)) lines rows.
Proof.
  induction lines as [|sl lines IH]; intros w.
  - exists w. simpl. rewrite app_nil_r. repeat split; auto.
    exists []. rewrite app_nil_r. split; auto.
  - simpl for_each.
    set (w1 := snd (read_line clock job_id sl w)).
    assert (Hstep : read_line clock job_id sl w = (Returns tt, w1))
      by reflexivity.
    rewrite (bind_returns _ _ _ _ _ Hstep).
    destruct (IH w1) as (w' & Hrun & Hj & Hs & Hse & Ha & Hd & Ht & Ho
                         & rows & Hout & Hrows).
    exists w'. split; [exact Hrun|].
    rewrite Hj, Hs, Hse, Ha, Hd, Ht, Ho. repeat split.
    + subst w1. simpl. now rewrite <- app_assoc.
    + exists (mk_output (outputs_seq (store w) + 1) job_id
                        (clock (time_calls w)) (stream_name (fst sl))
                        (rstrip_newline (snd sl)) :: rows).
      split.
      * rewrite Hout. subst w1. simpl. now rewrite <- app_assoc.
      * constructor; auto.
Qed.

Lemma get_job_jobs_eq k st st' :
  jobs st = jobs st' -> get_job k st = get_job k st'.
Proof. unfold get_job. now intros ->. Qed.

Lemma stream_name_cases s :
  stream_name s = "stdout" \/ stream_name s = "stderr".
Proof. destruct s; auto. Qed.

(** The run that is ended by the timeout. *)
Lemma run_job_pending_run :
  forall (job_id t : Z) (p : process) (w : world) (r : job_row),
    get_job job_id (store w) = Some r ->
    p_end p = pending ->
    exists w',
      run_job clock repr job_id (Some t) (spawned p) w = (Returns (-1), w')
      /\ os_calls w'
         = os_calls w
           ++ os_exec (j_command r)
              :: map (fun sl => os_readline (fst sl)) (p_lines p)
           ++ [os_kill to_process; os_wait]
      /\ (exists r', get_job job_id (store w') = Some r'
                     /\ j_status r' = "timeout" /\ j_exit_code r' = None
                     /\ j_meta r' = j_meta r)
      /\ exists rows sys,
           outputs (store w') = outputs (store w) ++ rows ++ [sys]
           /\ Forall (fun o => o_source o = "stdout"
                               \/ o_source o = "stderr") rows
           /\ o_job_id sys = job_id
           /\ o_source sys = "system"
           /\ o_line sys
              = ("ERROR: timeout after " ++ str_int t
                   ++ "s, killed process")%string
           /\ contains "timeout" (o_line sys) = true.
Proof.
  intros job_id t p w r Hget Hend.
  unfold run_job.
  rewrite (bind_returns _ _ w (Some r) w)
    by (unfold store_get_job, gets; now rewrite Hget).
  set (w1 := snd (store_update_job_status clock job_id "running" None None w)).
  rewrite (bind_returns _ _ w tt w1) by reflexivity.
  set (w2 := snd (os_do (os_exec (j_command r)) w1)).
  rewrite (bind_returns _ _ w1 tt w2) by reflexivity.
  destruct (read_lines_run job_id (p_lines p) w2)
    as (w3 & Hrun & Hj & Hs & Hse & Ha & Hd & Ht & Ho & rows & Hout & Hrows).
  rewrite (bind_returns _ _ w2 tt w3 Hrun).
  rewrite Hend.
  eexists. split; [reflexivity|]. simpl. split; [|split].
  - rewrite Ho. subst w2 w1. simpl. now rewrite <- !app_assoc.
  - rewrite get_job_update.
    rewrite (get_job_jobs_eq job_id _ (store w1)) by (simpl; exact Hj).
    subst w1. simpl store.
    rewrite (get_job_update_same _ _ _ _ _ _ _ Hget). simpl.
    apply get_job_id in Hget. unfold update_row. simpl.
    apply Z.eqb_eq in Hget. rewrite Hget. eexists. split; [reflexivity|].
    simpl. auto.
  - exists rows. eexists. split.
    + rewrite Hout. subst w2 w1. simpl. rewrite <- app_assoc. reflexivity.
    + simpl. repeat split; auto.
      clear - Hrows. induction Hrows as [|sl o ls os (_ & Hsrc & _) _ IH];
        constructor; auto.
      rewrite Hsrc. apply stream_name_cases.
Qed.




(** The run whose command is not found. *)
Lemma run_job_not_found_run :
  forall (job_id : Z) (timeout : option Z) (w : world) (r : job_row)
         (c : value) (cs : list value),
    get_job job_id (store w) = Some r ->
    j_command r = c :: cs ->
    exists w',
      run_job clock repr job_id timeout spawn_not_found w
      = (Returns (-1), w')
      /\ (exists r', get_job job_id (store w') = Some r'
                     /\ j_status r' = "failed"
                     /\ j_exit_code r' = Some (-1)
                     /\ j_meta r' = j_meta r)
      /\ (exists sys,
            outputs (store w') = outputs (store w) ++ [sys]
            /\ o_job_id sys = job_id
            /\ o_source sys = "system"
            /\ o_line sys
               = ("ERROR: command not found: " ++ py_str repr c)%string
            /\ contains "command not found" (o_line sys) = true)
      /\ os_calls w' = os_calls w.
Proof.
  intros job_id timeout w r c cs Hget Hcmd.
  unfold run_job.
  rewrite (bind_returns _ _ w (Some r) w)
    by (unfold store_get_job, gets; now rewrite Hget).
  set (w1 := snd (store_update_job_status clock job_id "running" None None w)).
  rewrite (bind_returns _ _ w tt w1) by reflexivity.
  rewrite Hcmd.
  eexists. split; [reflexivity|]. simpl. split; [|split].
  - erewrite get_job_update_same
      by (rewrite get_job_append_output; apply get_job_update_same;
          exact Hget).
    eexists. split; [reflexivity|]. simpl. auto.
  - eexists. split; [reflexivity|]. simpl. repeat split.
  - reflexivity.
Qed.

(** C6, as amended.  When the command cannot be located
    ([create_subprocess_exec] raises [FileNotFoundError]), [run_job]
    returns -1, leaves the job with status [failed] and exit code -1,
    appends exactly one row, of source [system], which contains
    "command not found", and makes no request about a child process: none
    is created and no pipe is read. *)
Theorem run_job_command_not_found :
  forall (job_id : Z) (timeout : option Z) (w : world) (r : job_row)
         (c : value) (cs : list value),
    get_job job_id (store w) = Some r ->
    j_command r = c :: cs ->
    exists w',
      run_job clock repr job_id timeout spawn_not_found w
      = (Returns (-1), w')
      /\ (exists r', get_job job_id (store w') = Some r'
                     /\ j_status r' = "failed"
                     /\ j_exit_code r' = Some (-1)
                     /\ j_meta r' = j_meta r)
      /\ (exists sys,
            outputs (store w') = outputs (store w) ++ [sys]
            /\ o_job_id sys = job_id
            /\ o_source sys = "system"
            /\ o_line sys
               = ("ERROR: command not found: " ++ py_str repr c)%string
            /\ contains "command not found" (o_line sys) = true)
      /\ os_calls w' = os_calls w.
Proof.
  intros job_id timeout w r c cs Hget Hcmd.
  now apply (run_job_not_found_run job_id timeout w r c cs).
Qed.

(** The run of a child that closes its pipes and never exits does not
    return, with or without a timeout. *)
Lemma run_job_lingering_run job_id timeout p w r :
  get_job job_id (store w) = Some r ->
  p_end p = lingering ->
  forall code w1,
    run_job clock repr job_id timeout (spawned p) w <> (Returns code, w1).
Proof.
  intros Hget Hend code w1. unfold run_job.
  rewrite (bind_returns _ _ w (Some r) w)
    by (unfold store_get_job, gets; now rewrite Hget).
  set (wa := snd (store_update_job_status clock job_id "running" None None w)).
  rewrite (bind_returns _ _ w tt wa) by reflexivity.
  set (wb := snd (os_do (os_exec (j_command r)) wa)).
  rewrite (bind_returns _ _ wa tt wb) by reflexivity.
  destruct (read_lines_run job_id (p_lines p) wb) as (wc & Hread & _).
  rewrite (bind_returns _ _ wb tt wc Hread).
  rewrite Hend. discriminate.
Qed.

(** The run whose pipes are drained: the rows of the lines read are
    appended, the exit status is collected and stored, and the status is
    [finished] exactly when it is 0. *)
Lemma run_job_drained job_id timeout p exit_code w r :
  get_job job_id (store w) = Some r ->
  p_end p = drained exit_code ->
  exists w' now,
    run_job clock repr job_id timeout (spawned p) w = (Returns exit_code, w')
    /\ get_job job_id (store w')
       = Some (mk_job (j_id r) (j_created_at r) now
                      (j_name r) (j_command r) (j_cwd r) (j_env r)
                      (if exit_code =? 0 then "finished" else "failed")
                      (Some exit_code) (j_meta r))
    /\ sessions w' = sessions w /\ allow w' = allow w
    /\ dependencies w' = dependencies w /\ tasks w' = tasks w
    /\ exists rows,
         outputs (store w') = outputs (store w) ++ rows
         /\ Forall2 (fun sl o =>
                       o_job_id o = job_id
                       /\ o_source o = stream_name (fst sl)
                       /\ o_line o = rstrip_newline (snd sl))
                    (p_lines p) rows.
Proof.
  intros Hget Hend.
  unfold run_job.
  rewrite (bind_returns _ _ w (Some r) w)
    by (unfold store_get_job, gets; now rewrite Hget).
  set (w1 := snd (store_update_job_status clock job_id "running" None None w)).
  rewrite (bind_returns _ _ w tt w1) by reflexivity.
  set (w2 := snd (os_do (os_exec (j_command r)) w1)).
  rewrite (bind_returns _ _ w1 tt w2) by reflexivity.
  destruct (read_lines_run job_id (p_lines p) w2)
    as (w3 & Hrun & Hj & Hs & Hse & Ha & Hd & Ht & Ho & rows & Hout & Hrows).
  rewrite (bind_returns _ _ w2 tt w3 Hrun).
  rewrite Hend.
  assert (Hrow : get_job job_id (store w3)
                 = Some (mk_job (j_id r) (j_created_at r)
                           (clock (time_calls w)) (j_name r) (j_command r)
                           (j_cwd r) (j_env r) "running" None (j_meta r))).
  { rewrite (get_job_jobs_eq job_id _ (store w1)) by (simpl; exact Hj).
    subst w1. simpl store.
    now rewrite (get_job_update_same _ _ _ _ _ _ _ Hget). }
  assert (Hfinal :
    exists w' now,
      (os_do os_wait ;;
       store_update_job_status clock job_id
         (if exit_code =? 0 then "finished" else "failed")
         (Some exit_code) None ;;
       ret exit_code) w3 = (Returns exit_code, w')
      /\ get_job job_id (store w')
         = Some (mk_job (j_id r) (j_created_at r) now
                        (j_name r) (j_command r) (j_cwd r) (j_env r)
                        (if exit_code =? 0 then "finished" else "failed")
                        (Some exit_code) (j_meta r))
      /\ sessions w' = sessions w /\ allow w' = allow w
      /\ dependencies w' = dependencies w /\ tasks w' = tasks w
      /\ outputs (store w') = outputs (store w) ++ rows).
  { eexists. eexists. split; [reflexivity|]. split.
    - simpl store. erewrite get_job_update_same by exact Hrow.
      reflexivity.
    - simpl. rewrite Hse, Ha, Hd, Ht, Hout. subst w2 w1. simpl.
      repeat split. }
  destruct Hfinal as (w' & now & Hr & Hg & H1 & H2 & H3 & H4 & H5).
  exists w', now. split; [destruct timeout; exact Hr|].
  repeat split; auto. exists rows. split; auto.
Qed.

(** ** Computations that only add rows *)

Ltac grows_same :=
  split; [|split];
  [ exists []; simpl; now rewrite app_nil_r
  | exists []; simpl; now rewrite app_nil_r
  | reflexivity ].

Lemma grows_refl w : grows w w.
Proof. grows_same. Qed.

Lemma grows_trans w1 w2 w3 : grows w1 w2 -> grows w2 w3 -> grows w1 w3.
Proof.
  intros ([js1 Hj1] & [os1 Ho1] & Ha1) ([js2 Hj2] & [os2 Ho2] & Ha2).
  split; [|split].
  - exists (js1 ++ js2). now rewrite Hj2, Hj1, app_assoc.
  - exists (os1 ++ os2). now rewrite Ho2, Ho1, app_assoc.
  - congruence.
Qed.

Lemma grows_get_job w w' k r :
  grows w w' -> get_job k (store w) = Some r -> get_job k (store w') = Some r.
Proof.
  intros [[js Hj] _]. unfold get_job. rewrite Hj.
  generalize (jobs (store w)) as l.
  induction l as [|x l IH]; simpl; intros Hf.
  - discriminate.
  - destruct (j_id x =? k); auto.
Qed.

Lemma grows_outputs w w' o :
  grows w w' -> In o (outputs (store w)) -> In o (outputs (store w')).
Proof.
  intros (_ & [os Ho] & _) Hin. rewrite Ho. apply in_or_app. now left.
Qed.

Lemma growing_ret {A} (a : A) : growing (ret a).
Proof. intros w. apply grows_refl. Qed.

Lemma growing_raise {A} (e : exn) : growing (@raise A e).
Proof. intros w. apply grows_refl. Qed.

Lemma growing_lift {A} (r : exn + A) : growing (lift r).
Proof. destruct r; [apply growing_raise | apply growing_ret]. Qed.

Lemma growing_gets {A} (f : world -> A) : growing (gets f).
Proof. intros w. apply grows_refl. Qed.

Lemma growing_bind {A B} (m : M A) (k : A -> M B) :
  growing m -> (forall a, growing (k a)) -> growing (bind m k).
Proof.
  intros Hm Hk w. unfold bind. specialize (Hm w).
  destruct (m w) as [[a|e| |be] w']; simpl in *; auto.
  eapply grows_trans; [exact Hm | apply Hk].
Qed.

Lemma growing_for_each {A} (l : list A) (body : A -> M unit) :
  (forall x, growing (body x)) -> growing (for_each l body).
Proof.
  intros Hb. induction l as [|x l IH]; simpl.
  - apply growing_ret.
  - apply growing_bind; auto.
Qed.

Lemma growing_if {A} (b : bool) (m1 m2 : M A) :
  growing m1 -> growing m2 -> growing (if b then m1 else m2).
Proof. now destruct b. Qed.

Lemma growing_time_time : growing (time_time clock).
Proof. intros w. grows_same. Qed.

Lemma growing_store_append_output job_id source line :
  growing (store_append_output clock job_id source line).
Proof.
  intros w. split; [|split]; simpl.
  - exists []. now rewrite app_nil_r.
  - eexists. reflexivity.
  - reflexivity.
Qed.

Lemma growing_store_create_job name command cwd env meta :
  growing (store_create_job clock name command cwd env meta).
Proof.
  intros w. split; [|split]; simpl.
  - eexists. reflexivity.
  - exists []. now rewrite app_nil_r.
  - reflexivity.
Qed.

Lemma growing_add_session session : growing (add_session clock session).
Proof. intros w. grows_same. Qed.

Lemma growing_schedule_job name command cwd env meta parent_job :
  growing (schedule_job clock name command cwd env meta parent_job).
Proof.
  unfold schedule_job. apply growing_bind.
  - apply growing_store_create_job.
  - intros job_id. apply growing_bind.
    + destruct parent_job as [p|]; [|apply growing_ret].
      apply growing_if; [|apply growing_ret]. intros w. grows_same.
    + intros _. apply growing_bind; [|intros _; apply growing_ret].
      intros w. grows_same.
Qed.

Create HintDb growing.

#[local] Hint Resolve growing_ret growing_raise growing_lift growing_gets
  growing_for_each growing_if growing_time_time growing_store_append_output
  growing_store_create_job growing_add_session growing_schedule_job
  : growing.

Ltac growing_steps :=
  repeat (first
    [ solve [auto with growing]
    | apply growing_bind; [|intros ?]
    | apply growing_for_each; intros ?
    | apply growing_if ]).

Lemma growing_launch_exploits cred parent_job :
  growing (_launch_exploits_for_cred clock repr cred parent_job).
Proof. unfold _launch_exploits_for_cred. growing_steps. Qed.

#[local] Hint Resolve growing_launch_exploits : growing.

Lemma growing_schedule_enumeration ip job_id :
  growing (schedule_enumeration clock ip job_id).
Proof. unfold schedule_enumeration. growing_steps. Qed.

#[local] Hint Resolve growing_schedule_enumeration : growing.

Lemma growing_nmap_host job_id host : growing (nmap_host clock job_id host).
Proof. unfold nmap_host. growing_steps. Qed.

Lemma growing_cme_cred job_id cred :
  growing (cme_cred clock repr job_id cred).
Proof. unfold cme_cred. growing_steps. Qed.

#[local] Hint Resolve growing_nmap_host growing_cme_cred : growing.

(** [_apply_rules] changes no row of the two tables: whatever the parsed
    results are and whether it returns or raises, it only adds rows. *)
Lemma growing_apply_rules job_id parsed_results :
  growing (_apply_rules clock repr job_id parsed_results).
Proof.
  unfold _apply_rules. growing_steps.
Qed.

(** ** Attaching the results of the parsers *)

Lemma attach_parser_result_ok meta name pr :
  meta_ok meta ->
  exists meta',
    attach_parser_result meta name pr = inr meta'
    /\ meta_ok meta'
    /\ parsers_entry meta' name = Some pr
    /\ forall k, k <> name -> parsers_entry meta' k = parsers_entry meta k.
Proof.
  destruct meta as [| | | | |d]; simpl; try contradiction.
  destruct (dict_get d "parsers") as [v|] eqn:E.
  - destruct v as [| | | | |ps]; try contradiction. intros _.
    eexists. split; [reflexivity|]. simpl.
    rewrite dict_get_set_same. repeat split.
    + apply dict_get_set_same.
    + intros k Hk. try rewrite E. apply dict_get_set_other. congruence.
  - intros _. eexists. split; [reflexivity|]. simpl.
    rewrite dict_get_set_same. repeat split.
    + simpl. now rewrite String.eqb_refl.
    + intros k Hk. try rewrite E. simpl.
      destruct (String.eqb name k) eqn:E'; auto.
      apply String.eqb_eq in E'. congruence.
Qed.

(** One registered parser applied to the outputs of a job whose stored
    meta can take results. *)
Lemma run_parser_run job_id outs pres name parse w r :
  get_job job_id (store w) = Some r ->
  meta_ok (j_meta r) ->
  exists w' pres' r',
    run_parser clock job_id outs pres (name, parse) w = (Returns pres', w')
    /\ get_job job_id (store w') = Some r'
    /\ j_status r' = j_status r
    /\ meta_ok (j_meta r')
    /\ (forall k, k <> name ->
          parsers_entry (j_meta r') k = parsers_entry (j_meta r) k)
    /\ (forall pr, parse outs = inr pr -> truthy pr = true ->
          parsers_entry (j_meta r') name = Some pr
          /\ j_exit_code r' = None)
    /\ (j_exit_code r' = j_exit_code r \/ j_exit_code r' = None)
    /\ (forall e, parse outs = inl e ->
          outputs (store w')
          = outputs (store w)
            ++ [mk_output (outputs_seq (store w) + 1) job_id
                  (clock (time_calls w)) "system"
                  ("PARSER " ++ name ++ " ERROR: " ++ exn_str e)])
    /\ (forall o, In o (outputs (store w)) -> In o (outputs (store w'))).
Proof.
  intros Hget Hok. unfold run_parser.
  destruct (parse outs) as [e|pr] eqn:Hp.
  - exists (snd (store_append_output clock job_id "system"
                   ("PARSER " ++ name ++ " ERROR: " ++ exn_str e) w)),
           pres, r.
    split; [reflexivity|]. simpl.
    split; [exact Hget|]. split; [reflexivity|]. split; [exact Hok|].
    split; [reflexivity|]. split; [intros pr0 Hpr; discriminate|].
    split; [now left|]. split.
    + intros e' He'. now inversion He'.
    + intros o Hin. apply in_or_app. now left.
  - destruct (truthy pr) eqn:Htr.
    + destruct (attach_parser_result_ok (j_meta r) name pr Hok)
        as (meta' & Hatt & Hok' & Hsame & Hother).
      rewrite (bind_returns _ _ w pr w) by reflexivity.
      rewrite Htr.
      rewrite (bind_returns _ _ w (Some r) w)
        by (unfold store_get_job, gets; now rewrite Hget).
      rewrite (bind_returns _ _ w meta' w) by (now rewrite Hatt).
      eexists. eexists. eexists. split; [reflexivity|]. split.
      * simpl store. apply get_job_update_same. exact Hget.
      * simpl. split; [reflexivity|]. split; [exact Hok'|].
        split; [exact Hother|]. split.
        -- intros pr' Hpr'. inversion Hpr'. subst. auto.
        -- split; [now right|]. split; [intros e He; discriminate|].
           auto.
    + exists w, pres, r.
      rewrite (bind_returns _ _ w pr w) by reflexivity.
      rewrite Htr. split; [reflexivity|].
      split; [exact Hget|]. split; [reflexivity|]. split; [exact Hok|].
      split; [reflexivity|]. split.
      * intros pr' Hpr'. inversion Hpr'. subst. congruence.
      * split; [now left|]. split; [intros e He; discriminate|]. auto.
Qed.

(** The loop over the registry.  It always returns; the status of the job
    is kept; an entry of [meta['parsers']] under a name that is not
    registered is kept; with names registered once, every parser that
    returns a true value finds it stored under its name; every parser that
    raises leaves its row of source [system]; and the stored exit code is
    erased as soon as one result is attached. *)
Lemma run_parsers_run job_id outs registry :
  forall pres w r,
    get_job job_id (store w) = Some r ->
    meta_ok (j_meta r) ->
    exists w' pres' r',
      run_parsers clock job_id outs pres registry w = (Returns pres', w')
      /\ get_job job_id (store w') = Some r'
      /\ j_status r' = j_status r
      /\ meta_ok (j_meta r')
      /\ (forall k, ~ In k (map fst registry) ->
            parsers_entry (j_meta r') k = parsers_entry (j_meta r) k)
      /\ (NoDup (map fst registry) ->
          forall name parse pr,
            In (name, parse) registry -> parse outs = inr pr ->
            truthy pr = true ->
            parsers_entry (j_meta r') name = Some pr)
      /\ (forall name parse e,
            In (name, parse) registry -> parse outs = inl e ->
            exists o, In o (outputs (store w'))
                      /\ o_job_id o = job_id /\ o_source o = "system"
                      /\ o_line o
                         = ("PARSER " ++ name ++ " ERROR: "
                              ++ exn_str e)%string)
      /\ (forall o, In o (outputs (store w)) -> In o (outputs (store w')))
      /\ (j_exit_code r' = j_exit_code r \/ j_exit_code r' = None)
      /\ (forall name parse pr,
            In (name, parse) registry -> parse outs = inr pr ->
            truthy pr = true -> j_exit_code r' = None).
Proof.
  induction registry as [|[name parse] registry IH]; intros pres w r Hget Hok.
  - exists w, pres, r. simpl. split; [reflexivity|].
    repeat split; auto; try contradiction.
  - simpl run_parsers.
    destruct (run_parser_run job_id outs pres name parse w r Hget Hok)
      as (w1 & pres1 & r1 & Hrun1 & Hget1 & Hst1 & Hok1 & Hoth1 & Hset1
          & Hex1 & Herr1 & Hout1).
    rewrite (bind_returns _ _ _ _ _ Hrun1).
    destruct (IH pres1 w1 r1 Hget1 Hok1)
      as (w' & pres' & r' & Hrun & Hget' & Hst & Hok' & Hoth & Hset
          & Herr & Hout & Hex & Hnone).
    exists w', pres', r'. split; [exact Hrun|]. split; [exact Hget'|].
    split; [congruence|]. split; [exact Hok'|]. split; [|split; [|split]].
    + intros k Hk. simpl in Hk. rewrite Hoth by tauto. apply Hoth1.
      intros ->. tauto.
    + intros Hnd n p pr [Heq|Hin] Hp Htr.
      * inversion Heq. subst n p. inversion Hnd as [|? ? Hnotin Hnd']. subst.
        rewrite Hoth by assumption. now apply Hset1.
      * inversion Hnd as [|? ? Hnotin Hnd']. subst. eapply Hset; eauto.
    + intros n p e [Heq|Hin] Hp.
      * inversion Heq. subst n p. eexists. split.
        -- apply Hout. rewrite (Herr1 e Hp). apply in_or_app. right.
           left. reflexivity.
        -- simpl. auto.
      * eapply Herr; eauto.
    + split; [auto|]. split.
      * destruct Hex as [->| ->]; auto.
      * intros n p pr [Heq|Hin] Hp Htr.
        -- inversion Heq. subst n p.
           destruct (Hset1 pr Hp Htr) as [_ Hnone1].
           destruct Hex as [Hex| ->]; auto. congruence.
        -- eapply Hnone; eauto.
Qed.

(** Every run that returns leaves the job in a terminal status, with
    status [finished] exactly when the stored exit code is 0, and with the
    meta it had. *)
Lemma run_job_returns job_id timeout os w code w1 :
  run_job clock repr job_id timeout os w = (Returns code, w1) ->
  exists r r1,
    get_job job_id (store w) = Some r
    /\ get_job job_id (store w1) = Some r1
    /\ j_meta r1 = j_meta r
    /\ (j_status r1 = "finished" \/ j_status r1 = "failed"
        \/ j_status r1 = "timeout")
    /\ (j_status r1 = "finished" <-> j_exit_code r1 = Some 0)
    /\ (forall o, In o (outputs (store w)) -> In o (outputs (store w1)))
    /\ (timeout = None -> j_exit_code r1 = Some code).
Proof.
  intros Hrun.
  destruct (get_job job_id (store w)) as [r|] eqn:Hget.
  2:{ unfold run_job in Hrun.
      rewrite (bind_returns _ _ w None w) in Hrun
        by (unfold store_get_job, gets; now rewrite Hget).
      discriminate. }
  exists r.
  destruct os as [|e|p|b].
  - destruct (j_command r) as [|c cs] eqn:Hcmd.
    + unfold run_job in Hrun.
      rewrite (bind_returns _ _ w (Some r) w) in Hrun
        by (unfold store_get_job, gets; now rewrite Hget).
      rewrite Hcmd in Hrun. discriminate.
    + destruct (run_job_not_found_run job_id timeout w r c cs Hget Hcmd)
        as (w' & Hrun' & (r' & Hget' & Hst & Hex & Hmeta)
            & (sys & Hout & _) & _).
      rewrite Hrun' in Hrun. inversion Hrun. subst.
      exists r'. repeat split; auto.
      * rewrite Hst. discriminate.
      * rewrite Hex. discriminate.
      * intros o Hin. rewrite Hout. apply in_or_app. now left.
  - unfold run_job in Hrun.
    rewrite (bind_returns _ _ w (Some r) w) in Hrun
      by (unfold store_get_job, gets; now rewrite Hget).
    discriminate.
  - destruct (p_end p) as [c| |] eqn:Hend.
    + destruct (run_job_drained job_id timeout p c w r Hget Hend)
        as (w' & now & Hrun' & Hget' & _ & _ & _ & _ & rows & Hout & _).
      rewrite Hrun' in Hrun. inversion Hrun. subst.
      eexists. split; [reflexivity|]. split; [exact Hget'|]. simpl.
      split; [reflexivity|]. split; [|split].
      * destruct (code =? 0); auto.
      * destruct (code =? 0) eqn:E.
        -- apply Z.eqb_eq in E. subst. tauto.
        -- apply Z.eqb_neq in E. split; [discriminate|].
           intros H. inversion H. contradiction.
      * split; [|reflexivity].
        intros o Hin. rewrite Hout. apply in_or_app. now left.
    + destruct timeout as [t|].
      * destruct (run_job_pending_run job_id t p w r Hget Hend)
          as (w' & Hrun' & _ & (r' & Hget' & Hst & Hex & Hmeta)
              & rows & sys & Hout & _).
        rewrite Hrun' in Hrun. inversion Hrun. subst.
        exists r'. repeat split; auto.
        -- rewrite Hst. discriminate.
        -- rewrite Hex. discriminate.
        -- intros o Hin. rewrite Hout. apply in_or_app. now left.
        -- discriminate.
      * unfold run_job in Hrun.
        rewrite (bind_returns _ _ w (Some r) w) in Hrun
          by (unfold store_get_job, gets; now rewrite Hget).
        set (wa := snd (store_update_job_status clock job_id "running"
                          None None w)) in *.
        rewrite (bind_returns _ _ w tt wa) in Hrun by reflexivity.
        set (wb := snd (os_do (os_exec (j_command r)) wa)) in *.
        rewrite (bind_returns _ _ wa tt wb) in Hrun by reflexivity.
        destruct (read_lines_run job_id (p_lines p) wb)
          as (wc & Hread & _).
        rewrite (bind_returns _ _ wb tt wc Hread) in Hrun.
        rewrite Hend in Hrun. discriminate.
    + exfalso.
      exact (run_job_lingering_run job_id timeout p w r Hget Hend code w1
               Hrun).
  - unfold run_job in Hrun.
    rewrite (bind_returns _ _ w (Some r) w) in Hrun
      by (unfold store_get_job, gets; now rewrite Hget).
    discriminate.
Qed.

(** ** The pipeline of one job *)

Lemma run_and_process_after_run registry job_id os w code w1 :
  run_job clock repr job_id None os w = (Returns code, w1) ->
  _run_and_process clock repr registry job_id os w
  = bind (run_parsers clock job_id (fetch_outputs job_id None (store w1))
            [] registry)
         (_apply_rules clock repr job_id) w1.
Proof.
  intros Hrun. unfold _run_and_process.
  rewrite (bind_returns _ _ w true w1).
  - reflexivity.
  - unfold try_except. rewrite (bind_returns _ _ w code w1 Hrun).
    reflexivity.
Qed.

(** After a run that returned: the loop over the registry returns, and
    the row of the job it leaves is the row found at the end of the
    pipeline, whatever [_apply_rules] does. *)
Lemma run_and_process_row registry job_id os w code w1 r :
  get_job job_id (store w) = Some r ->
  meta_ok (j_meta r) ->
  run_job clock repr job_id None os w = (Returns code, w1) ->
  exists r1 w2 pres r2,
    get_job job_id (store w1) = Some r1
    /\ j_exit_code r1 = Some code
    /\ (j_status r1 = "finished" \/ j_status r1 = "failed"
        \/ j_status r1 = "timeout")
    /\ (j_status r1 = "finished" <-> j_exit_code r1 = Some 0)
    /\ meta_ok (j_meta r1)
    /\ run_parsers clock job_id (fetch_outputs job_id None (store w1))
         [] registry w1 = (Returns pres, w2)
    /\ get_job job_id (store w2) = Some r2
    /\ get_job job_id
         (store (snd (_run_and_process clock repr registry job_id os w)))
       = Some r2
    /\ (forall o, In o (outputs (store w2)) ->
          In o (outputs
                  (store (snd (_run_and_process clock repr registry job_id
                                 os w))))).
Proof.
  intros Hget Hok Hrun.
  destruct (run_job_returns job_id None os w code w1 Hrun)
    as (r0 & r1 & Hget0 & Hget1 & Hmeta & Hterm & Hiff & _ & Hcode).
  rewrite Hget in Hget0. inversion Hget0. subst r0.
  assert (Hok1 : meta_ok (j_meta r1)) by now rewrite Hmeta.
  destruct (run_parsers_run job_id (fetch_outputs job_id None (store w1))
              registry [] w1 r1 Hget1 Hok1)
    as (w2 & pres & r2 & Hloop & Hget2 & _).
  exists r1, w2, pres, r2.
  rewrite (run_and_process_after_run registry job_id os w code w1 Hrun).
  rewrite (bind_returns _ _ _ _ _ Hloop).
  pose proof (growing_apply_rules job_id pres w2) as Hg.
  repeat split; auto; try tauto.
  - eapply grows_get_job; eauto.
  - intros o. now apply grows_outputs.
Qed.

(** On a stored meta that cannot take results, attaching one raises. *)
Lemma attach_parser_result_not_ok meta name pr :
  ~ meta_ok meta -> exists e, attach_parser_result meta name pr = inl e.
Proof.
  intros Hno. destruct meta as [| | | | |d]; simpl;
    try (eexists; reflexivity).
  simpl in Hno. destruct (dict_get d "parsers") as [v|].
  - destruct v; try (eexists; reflexivity). now destruct Hno.
  - now destruct Hno.
Qed.

(** One registered parser applied to the outputs of a job whose stored
    meta cannot take results: a result that is a true value makes the
    turn raise, with nothing changed. *)
Lemma run_parser_not_ok job_id outs pres name parse w r :
  get_job job_id (store w) = Some r ->
  ~ meta_ok (j_meta r) ->
  match parse outs with
  | inl e =>
      run_parser clock job_id outs pres (name, parse) w
      = (Returns pres,
         snd (store_append_output clock job_id "system"
                ("PARSER " ++ name ++ " ERROR: " ++ exn_str e) w))
  | inr pr =>
      if truthy pr
      then exists e,
             run_parser clock job_id outs pres (name, parse) w = (Raises e, w)
      else run_parser clock job_id outs pres (name, parse) w
           = (Returns pres, w)
  end.
Proof.
  intros Hget Hno. unfold run_parser.
  destruct (parse outs) as [e|pr] eqn:Hp; [reflexivity|].
  rewrite (bind_returns _ _ w pr w) by reflexivity.
  destruct (truthy pr) eqn:Htr; [|reflexivity].
  destruct (attach_parser_result_not_ok (j_meta r) name pr Hno) as [e He].
  exists e.
  rewrite (bind_returns _ _ w (Some r) w)
    by (unfold store_get_job, gets; now rewrite Hget).
  rewrite (bind_raises _ _ w e w) by (now rewrite He).
  reflexivity.
Qed.

(** The loop over the registry on a job whose stored meta cannot take
    results: it changes no job, no session and no task, and it raises at
    the first parser that returns a true value. *)
Lemma run_parsers_not_ok job_id outs registry :
  forall pres w r,
    get_job job_id (store w) = Some r ->
    ~ meta_ok (j_meta r) ->
    let rw := run_parsers clock job_id outs pres registry w in
    jobs (store (snd rw)) = jobs (store w)
    /\ sessions (snd rw) = sessions w /\ tasks (snd rw) = tasks w
    /\ dependencies (snd rw) = dependencies w
    /\ ((exists name parse pr,
           In (name, parse) registry /\ parse outs = inr pr
           /\ truthy pr = true) ->
        exists e, fst rw = Raises e).
Proof.
  induction registry as [|[name parse] registry IH]; intros pres w r Hget Hno.
  - simpl. repeat split; auto. intros (n & p & pr & [] & _).
  - pose proof (run_parser_not_ok job_id outs pres name parse w r Hget Hno)
      as Hstep.
    change (run_parsers clock job_id outs pres ((name, parse) :: registry))
      with (bind (run_parser clock job_id outs pres (name, parse))
                 (fun pres' => run_parsers clock job_id outs pres' registry)).
    cbv zeta.
    destruct (parse outs) as [e|pr] eqn:Hp.
    + rewrite (bind_returns _ _ _ _ _ Hstep).
      set (w1 := snd (store_append_output clock job_id "system"
                        ("PARSER " ++ name ++ " ERROR: " ++ exn_str e) w)).
      assert (Hget1 : get_job job_id (store w1) = Some r)
        by (subst w1; simpl; now rewrite get_job_append_output).
      destruct (IH pres w1 r Hget1 Hno) as (Hj & Hs & Ht & Hd & Hraise).
      cbv zeta in Hj, Hs, Ht, Hd, Hraise.
      rewrite Hj, Hs, Ht, Hd. repeat split; auto.
      intros (n & q & pr & [Heq|Hin] & Hq & Htr).
      * inversion Heq. subst n q. congruence.
      * apply Hraise. now exists n, q, pr.
    + destruct (truthy pr) eqn:Htr.
      * destruct Hstep as [e He].
        rewrite (bind_raises _ _ _ _ _ He).
        simpl. repeat split; auto. intros _. now exists e.
      * rewrite (bind_returns _ _ _ _ _ Hstep).
        destruct (IH pres w r Hget Hno) as (Hj & Hs & Ht & Hd & Hraise).
        cbv zeta in Hj, Hs, Ht, Hd, Hraise. repeat split; auto.
        intros (n & q & pr' & [Heq|Hin] & Hq & Htr').
        -- inversion Heq. subst n q. congruence.
        -- apply Hraise. now exists n, q, pr'.
Qed.

(** C7, as amended.  Take a job whose run returned and a registry in
    which each name is registered once, and a registered analyzer that
    raises on the outputs of the job an exception of a class derived
    from [Exception].  If the stored meta of the job can take results
    (its entry [parsers] is missing or an object), the loop over the
    registry still runs to its end; a row of source [system] naming the
    analyzer is among the outputs of the job at the end of the pipeline;
    every registered analyzer that returns a true value finds it stored
    in the meta of the job under its name; and the job has at the end
    the terminal status the run gave it.  If the stored meta cannot take
    results, then as soon as some registered analyzer returns a true
    value the pipeline raises: no job row changes, so that no result is
    merged, and no rule is applied. *)
Theorem analyzer_failure_isolated :
  forall (registry : list (string * parser)) (job_id : Z)
         (os : spawn_outcome) (w w1 : world) (code : Z) (r : job_row)
         (name : string) (parse : parser) (e : exn),
    get_job job_id (store w) = Some r ->
    run_job clock repr job_id None os w = (Returns code, w1) ->
    NoDup (map fst registry) ->
    In (name, parse) registry ->
    parse (fetch_outputs job_id None (store w1)) = inl e ->
    let outs := fetch_outputs job_id None (store w1) in
    let w' := snd (_run_and_process clock repr registry job_id os w) in
    (meta_ok (j_meta r) ->
     (exists pres w2,
        run_parsers clock job_id outs [] registry w1 = (Returns pres, w2))
     /\ (exists o, In o (outputs (store w'))
                   /\ o_job_id o = job_id /\ o_source o = "system"
                   /\ o_line o
                      = ("PARSER " ++ name ++ " ERROR: " ++ exn_str e)%string)
     /\ (forall other parse' pr,
           In (other, parse') registry -> parse' outs = inr pr ->
           truthy pr = true ->
           exists r', get_job job_id (store w') = Some r'
                      /\ parsers_entry (j_meta r') other = Some pr)
     /\ (exists r1 r',
           get_job job_id (store w1) = Some r1
           /\ get_job job_id (store w') = Some r'
           /\ j_status r' = j_status r1
           /\ (j_status r1 = "finished" \/ j_status r1 = "failed"
               \/ j_status r1 = "timeout")))
    /\ (~ meta_ok (j_meta r) ->
        forall other parse' pr,
          In (other, parse') registry -> parse' outs = inr pr ->
          truthy pr = true ->
          (exists e',
             fst (_run_and_process clock repr registry job_id os w)
             = Raises e')
          /\ jobs (store w') = jobs (store w1)
          /\ sessions w' = sessions w1 /\ tasks w' = tasks w1
          /\ dependencies w' = dependencies w1).
Proof.
  intros registry job_id os w w1 code r name parse e Hget Hrun Hnd Hin
         Hraise outs w'.
  split.
  - intros Hok.
    destruct (run_and_process_row registry job_id os w code w1 r Hget Hok
                Hrun)
      as (r1 & w2 & pres & r2 & Hget1 & _ & Hterm & _ & Hok1 & Hloop & Hget2
          & Hget' & Hout').
    destruct (run_parsers_run job_id outs registry [] w1 r1 Hget1 Hok1)
      as (w2' & pres' & r2' & Hloop' & Hget2' & Hst & _ & _ & Hset & Herr
          & _).
    fold outs in Hloop. rewrite Hloop in Hloop'. inversion Hloop'.
    subst w2' pres'. rewrite Hget2 in Hget2'. inversion Hget2'. subst r2'.
    split; [now exists pres, w2|]. split; [|split].
    + destruct (Herr name parse e Hin Hraise) as (o & Hino & Ho).
      exists o. split; auto.
    + intros other parse' pr Hin' Hres Htr. exists r2.
      split; [exact Hget'|]. eapply Hset; eauto.
    + exists r1, r2. auto.
  - intros Hno other parse' pr Hin' Hres Htr.
    destruct (run_job_returns job_id None os w code w1 Hrun)
      as (r0 & r1 & Hget0 & Hget1 & Hmeta & _).
    rewrite Hget in Hget0. inversion Hget0. subst r0.
    assert (Hno1 : ~ meta_ok (j_meta r1)) by now rewrite Hmeta.
    destruct (run_parsers_not_ok job_id outs registry [] w1 r1 Hget1 Hno1)
      as (Hj & Hs & Ht & Hd & Hstop).
    destruct Hstop as [e' He']; [now exists other, parse', pr|].
    subst w'.
    rewrite (run_and_process_after_run registry job_id os w code w1 Hrun).
    fold outs. unfold bind.
    destruct (run_parsers clock job_id outs [] registry w1)
      as [[a|e0| |be] w2]; simpl in He'; try discriminate.
    simpl in *. split; [now exists e0|auto].
Qed.

(** C9.  [update_job_status] writes its [exit_code] argument in the row:
    called without it, whether or not a meta is passed, it leaves the
    stored exit code absent.  In the pipeline, a run without timeout that
    returned [code] had stored [code]; as soon as one registered analyzer
    returns a true value the stored exit code is absent at the end, while
    the status is the one the run stored. *)
Theorem update_job_status_erases_exit_code :
  (forall (now job_id : Z) (status : string) (meta : option value)
          (st : JobStore) (r : job_row),
     get_job job_id st = Some r ->
     option_map j_exit_code
       (get_job job_id (update_job_status now job_id status None meta st))
     = Some None)
  /\ (forall (registry : list (string * parser)) (job_id : Z)
            (os : spawn_outcome) (w w1 : world) (code : Z) (r : job_row)
            (name : string) (parse : parser) (pr : value),
       get_job job_id (store w) = Some r ->
       meta_ok (j_meta r) ->
       run_job clock repr job_id None os w = (Returns code, w1) ->
       In (name, parse) registry ->
       parse (fetch_outputs job_id None (store w1)) = inr pr ->
       truthy pr = true ->
       let w' := snd (_run_and_process clock repr registry job_id os w) in
       exists r1 r',
         get_job job_id (store w1) = Some r1
         /\ j_exit_code r1 = Some code
         /\ get_job job_id (store w') = Some r'
         /\ j_exit_code r' = None
         /\ j_status r' = j_status r1).
Proof.
  split.
  - intros now job_id status meta st r Hget.
    now apply update_job_status_exit_code with (r := r).
  - intros registry job_id os w w1 code r name parse pr Hget Hok Hrun Hin
           Hres Htr w'.
    destruct (run_and_process_row registry job_id os w code w1 r Hget Hok
                Hrun)
      as (r1 & w2 & pres & r2 & Hget1 & Hcode & _ & _ & Hok1 & Hloop & Hget2
          & Hget' & _).
    destruct (run_parsers_run job_id (fetch_outputs job_id None (store w1))
                registry [] w1 r1 Hget1 Hok1)
      as (w2' & pres' & r2' & Hloop' & Hget2' & Hst & _ & _ & _ & _ & _ & _
          & Hnone).
    rewrite Hloop in Hloop'. inversion Hloop'. subst w2' pres'.
    rewrite Hget2 in Hget2'. inversion Hget2'. subst r2'.
    exists r1, r2. repeat split; auto.
    eapply Hnone; eauto.
Qed.

(** ** Scheduling follow-up jobs *)

Lemma dependencies_get_append deps parent child :
  dependencies_get (dependencies_append deps parent child) parent
  = dependencies_get deps parent ++ [child].
Proof.
  induction deps as [|[p cs] deps IH]; simpl.
  - now rewrite Z.eqb_refl.
  - destruct (p =? parent) eqn:E; simpl; rewrite E; auto.
Qed.

Lemma fresh_ids_app base rows1 rows2 :
  fresh_ids base rows1 ->
  fresh_ids (base + Z.of_nat (List.length rows1)) rows2 ->
  fresh_ids base (rows1 ++ rows2).
Proof.
  revert base. induction rows1 as [|r rows1 IH]; simpl; intros base H1 H2.
  - now rewrite Z.add_0_r in H2.
  - destruct H1 as [Hid H1]. split; auto. apply IH; auto.
    replace (base + 1 + Z.of_nat (List.length rows1))
      with (base + Z.pos (Pos.of_succ_nat (List.length rows1))) by lia.
    exact H2.
Qed.

Lemma scheduled_after_nothing parent w w' :
  jobs (store w') = jobs (store w) ->
  jobs_seq (store w') = jobs_seq (store w) ->
  tasks w' = tasks w -> dependencies w' = dependencies w ->
  allow w' = allow w ->
  scheduled_after parent [] w w'.
Proof.
  intros Hj Hs Ht Hd Ha. exists []. rewrite Hj, Hs, Ht, Hd, Ha. simpl.
  rewrite !app_nil_r, Z.add_0_r. repeat split; auto.
Qed.

Lemma scheduled_after_trans parent specs1 specs2 w1 w2 w3 :
  scheduled_after parent specs1 w1 w2 ->
  scheduled_after parent specs2 w2 w3 ->
  scheduled_after parent (specs1 ++ specs2) w1 w3.
Proof.
  intros (rows1 & Hj1 & Hr1 & Hf1 & Hs1 & Ht1 & Hd1 & Ha1)
         (rows2 & Hj2 & Hr2 & Hf2 & Hs2 & Ht2 & Hd2 & Ha2).
  exists (rows1 ++ rows2). repeat split.
  - now rewrite Hj2, Hj1, app_assoc.
  - now apply Forall2_app.
  - apply fresh_ids_app; auto. now rewrite <- Hs1.
  - rewrite Hs2, Hs1, length_app. lia.
  - now rewrite Ht2, Ht1, map_app, app_assoc.
  - now rewrite Hd2, Hd1, map_app, app_assoc.
  - congruence.
Qed.

(** One call of [schedule_job] with a meta that is a true value and a
    parent other than 0. *)
Lemma schedule_job_run name command meta parent w :
  truthy meta = true -> parent <> 0 ->
  exists w',
    schedule_job clock name command None None (Some meta) (Some parent) w
    = (Returns (jobs_seq (store w) + 1), w')
    /\ scheduled_after parent [(name, command, meta)] w w'
    /\ sessions w' = sessions w
    /\ outputs (store w') = outputs (store w)
    /\ outputs_seq (store w') = outputs_seq (store w).
Proof.
  intros Hmeta Hparent. unfold schedule_job, parent_truthy.
  apply Z.eqb_neq in Hparent. rewrite Hparent.
  eexists. split; [reflexivity|]. simpl. split; [|auto].
  eexists. split; [reflexivity|]. rewrite Hmeta. simpl. repeat split.
  - repeat constructor.
  - now rewrite dependencies_get_append.
Qed.

(** ** The rule on discovered hosts *)

Lemma schedule_enumeration_run ip job_id w :
  job_id <> 0 ->
  exists w',
    schedule_enumeration clock ip job_id w = (Returns tt, w')
    /\ scheduled_after job_id (batch_specs job_id ip) w w'
    /\ sessions w' = sessions w
    /\ outputs (store w') = outputs (store w)
    /\ outputs_seq (store w') = outputs_seq (store w).
Proof.
  intros Hid. unfold schedule_enumeration.
  set (meta := VDict [("target", ip); ("triggered_by", VInt job_id)]).
  assert (Hmeta : truthy meta = true) by reflexivity.
  destruct (schedule_job_run "enum4linux"
              [VStr "enum4linux-ng"; VStr "-a"; ip] meta job_id w Hmeta Hid)
    as (w1 & Hr1 & Hs1 & Hse1 & Ho1 & Hq1).
  rewrite (bind_returns _ _ _ _ _ Hr1).
  destruct (schedule_job_run "ldapdomaindump" [VStr "ldapdomaindump"; ip]
              meta job_id w1 Hmeta Hid)
    as (w2 & Hr2 & Hs2 & Hse2 & Ho2 & Hq2).
  rewrite (bind_returns _ _ _ _ _ Hr2).
  destruct (schedule_job_run "nmap_smb_scripts"
              [VStr "nmap"; VStr "-p"; VStr "445"; VStr "--script";
               VStr "smb-os-discovery,smb-enum-shares,smb-enum-users"; ip]
              meta job_id w2 Hmeta Hid)
    as (w3 & Hr3 & Hs3 & Hse3 & Ho3 & Hq3).
  rewrite (bind_returns _ _ _ _ _ Hr3).
  destruct (schedule_job_run "getnpusers"
              [VStr "python3"; VStr "-m"; VStr "impacket.examples.GetNPUsers";
               VStr "-no-pass"; ip] meta job_id w3 Hmeta Hid)
    as (w4 & Hr4 & Hs4 & Hse4 & Ho4 & Hq4).
  rewrite (bind_returns _ _ _ _ _ Hr4).
  destruct (schedule_job_run "cme_scan"
              [VStr "crackmapexec"; VStr "smb"; ip; VStr "--shares";
               VStr "--pass-pol"; VStr "--local-auth"; VStr "--json"]
              meta job_id w4 Hmeta Hid)
    as (w5 & Hr5 & Hs5 & Hse5 & Ho5 & Hq5).
  rewrite (bind_returns _ _ _ _ _ Hr5).
  exists w5. split; [reflexivity|]. split; [|split; [|split]]; try congruence.
  pose proof (scheduled_after_trans _ _ _ _ _ _ Hs1
               (scheduled_after_trans _ _ _ _ _ _ Hs2
                 (scheduled_after_trans _ _ _ _ _ _ Hs3
                   (scheduled_after_trans _ _ _ _ _ _ Hs4 Hs5)))) as H.
  exact H.
Qed.

Lemma open_ports_values ports :
  open_ports (map port_value ports)
  = inr (map (fun p => VInt (pt_port p))
             (filter (fun p => String.eqb (pt_state p) "open") ports)).
Proof.
  induction ports as [|p ports IH]; simpl; auto.
  destruct (String.eqb (pt_state p) "open"); simpl; now rewrite IH.
Qed.

Lemma meets_ad_ports_interesting h :
  meets_ad_ports
    (map (fun p => VInt (pt_port p))
         (filter (fun p => String.eqb (pt_state p) "open") (h_ports h)))
  = interesting h.
Proof.
  unfold meets_ad_ports, interesting.
  induction (h_ports h) as [|p ports IH]; [reflexivity|].
  cbn [filter existsb].
  destruct (String.eqb (pt_state p) "open"); cbn [map existsb andb];
    rewrite IH; reflexivity.
Qed.

(** The requests the rule makes for a list of hosts. *)
Lemma nmap_host_run job_id h w :
  job_id <> 0 ->
  exists w',
    nmap_host clock job_id (host_value h) w = (Returns tt, w')
    /\ scheduled_after job_id
         (if interesting h then batch_specs job_id (h_ip h) else []) w w'
    /\ sessions w' = sessions w
    /\ outputs (store w') = outputs (store w)
    /\ outputs_seq (store w') = outputs_seq (store w).
Proof.
  intros Hid. unfold nmap_host, host_value.
  rewrite (bind_returns _ _ w (h_ip h) w) by reflexivity.
  rewrite (bind_returns _ _ w (VList (map port_value (h_ports h))) w)
    by reflexivity.
  rewrite (bind_returns _ _ w (map port_value (h_ports h)) w) by reflexivity.
  rewrite (bind_returns _ _ w
             (map (fun p => VInt (pt_port p))
                  (filter (fun p => String.eqb (pt_state p) "open")
                          (h_ports h))) w)
    by (now rewrite open_ports_values).
  rewrite meets_ad_ports_interesting.
  destruct (interesting h).
  - now apply schedule_enumeration_run.
  - exists w. split; [reflexivity|]. split; auto.
    now apply scheduled_after_nothing.
Qed.

Lemma nmap_hosts_run job_id hosts :
  job_id <> 0 ->
  forall w, exists w',
    for_each (map host_value hosts) (nmap_host clock job_id) w
    = (Returns tt, w')
    /\ scheduled_after job_id
         (flat_map (fun h => if interesting h
                             then batch_specs job_id (h_ip h) else [])
                   hosts) w w'
    /\ sessions w' = sessions w
    /\ outputs (store w') = outputs (store w)
    /\ outputs_seq (store w') = outputs_seq (store w).
Proof.
  intros Hid. induction hosts as [|h hosts IH]; intros w; simpl.
  - exists w. split; [reflexivity|]. split; auto.
    now apply scheduled_after_nothing.
  - destruct (nmap_host_run job_id h w Hid)
      as (w1 & Hr1 & Hs1 & Hse1 & Ho1 & Hq1).
    rewrite (bind_returns _ _ _ _ _ Hr1).
    destruct (IH w1) as (w' & Hr & Hs & Hse & Ho & Hq).
    exists w'. split; [exact Hr|]. split; [|split; [|split]]; try congruence.
    eapply scheduled_after_trans; eauto.
Qed.

(** C4.  445 is one of the ports of the fixed set, and the batch has
    five jobs.  When the result of [nmap_xml] is a list of hosts as the
    parser builds them, [_apply_rules] for a job with an id other than 0
    first schedules, host after host, the batch of five enumeration jobs
    for each host that has an open port in the set, and nothing for the
    other hosts: in the world [w1] it reaches, the new rows of table jobs
    are exactly these, each with [triggered_by] set to the job, and their
    ids are appended to the children of the job and to the tasks to run,
    no session and no output row being added.  From [w1] it goes on as it
    does on the results without [nmap_xml]; when the two other results
    the rules read are absent it returns there. *)
Theorem discovery_schedules_enumeration :
  In 445 ad_ports
  /\ (forall ip job_id, List.length (batch_specs job_id ip) = 5%nat)
  /\ forall (job_id : Z) (parsed_results : dict) (hosts : list host)
            (w : world),
      job_id <> 0 ->
      dict_get parsed_results "nmap_xml"
      = Some (VList (map host_value hosts)) ->
      exists w1,
        scheduled_after job_id
          (flat_map (fun h => if interesting h
                              then batch_specs job_id (h_ip h) else [])
                    hosts) w w1
        /\ sessions w1 = sessions w
        /\ outputs (store w1) = outputs (store w)
        /\ _apply_rules clock repr job_id parsed_results w
           = _apply_rules clock repr job_id
               (dict_remove parsed_results "nmap_xml") w1
        /\ (dict_get parsed_results "impacket_getnp" = None ->
            dict_get parsed_results "crackmapexec_json" = None ->
            _apply_rules clock repr job_id parsed_results w
            = (Returns tt, w1)).
Proof.
  split; [simpl; tauto|]. split; [reflexivity|].
  intros job_id parsed_results hosts w Hid Hnmap.
  destruct (nmap_hosts_run job_id hosts Hid w)
    as (w1 & Hrun & Hsched & Hse & Hout & _).
  exists w1. split; [exact Hsched|]. split; [exact Hse|].
  split; [exact Hout|].
  assert (Hblock :
    (if truthy (VList (map host_value hosts))
     then bind (lift (py_iter (VList (map host_value hosts))))
            (fun hs => for_each hs (nmap_host clock job_id))
     else ret tt) w = (Returns tt, w1)).
  { destruct hosts as [|h hosts].
    - simpl in Hrun. inversion Hrun. reflexivity.
    - cbn [truthy map].
      rewrite (bind_returns _ _ w (map host_value (h :: hosts)) w)
        by reflexivity.
      exact Hrun. }
  split.
  - unfold _apply_rules, dict_get_or_none.
    rewrite dict_get_remove_same.
    rewrite !dict_get_remove_other by discriminate.
    rewrite Hnmap. rewrite (bind_returns _ _ w tt w1 Hblock).
    reflexivity.
  - intros Hgetnp Hcme. unfold _apply_rules, dict_get_or_none.
    rewrite Hnmap, Hgetnp, Hcme.
    rewrite (bind_returns _ _ w tt w1 Hblock). reflexivity.
Qed.

(** ** The rule on validated credentials *)

Lemma launch_exploits_run job_id c w :
  job_id <> 0 ->
  exists w',
    _launch_exploits_for_cred clock repr (cred_value c) job_id w
    = (Returns tt, w')
    /\ scheduled_after job_id
         (if complete c then [exploit_spec (py_str repr) job_id c] else [])
         w w'
    /\ sessions w' = sessions w
    /\ outputs (store w') = outputs (store w)
    /\ outputs_seq (store w') = outputs_seq (store w).
Proof.
  intros Hid. unfold _launch_exploits_for_cred, cred_value.
  rewrite (bind_returns _ _ w (c_ip c) w) by reflexivity.
  rewrite (bind_returns _ _ w (c_username c) w) by reflexivity.
  rewrite (bind_returns _ _ w (c_password c) w) by reflexivity.
  fold (complete c). destruct (complete c); cbn [negb].
  - destruct (schedule_job_run "psexec"
                [VStr "python3"; VStr "-m"; VStr "impacket.examples.psexec";
                 VStr (py_str repr (c_ip c)); c_username c; c_password c]
                (VDict [("target", c_ip c); ("triggered_by", VInt job_id);
                        ("cred", VDict [("u", c_username c)])])
                job_id w eq_refl Hid)
      as (w' & Hr & Hs & Hse & Ho & Hq).
    rewrite (bind_returns _ _ _ _ _ Hr).
    exists w'. split; [reflexivity|]. auto.
  - exists w. split; [reflexivity|]. split; auto.
    now apply scheduled_after_nothing.
Qed.

Lemma cme_cred_run job_id c w :
  job_id <> 0 ->
  exists w' s o,
    cme_cred clock repr job_id (cred_value c) w = (Returns tt, w')
    /\ sessions w' = sessions w ++ [s]
    /\ is_cred_session job_id c s
    /\ outputs (store w') = outputs (store w) ++ [o]
    /\ (o_job_id o = job_id /\ o_source o = "system"
        /\ o_line o = ("Valid credential found: "
                         ++ py_str repr (cred_value c))%string)
    /\ scheduled_after job_id
         (if allow w
          then if complete c then [exploit_spec (py_str repr) job_id c]
               else []
          else []) w w'.
Proof.
  intros Hid. unfold cme_cred.
  set (w1 := snd (add_session clock
                    [("type", VStr "cred"); ("source_job", VInt job_id);
                     ("details", cred_value c)] w)).
  rewrite (bind_returns _ _ w tt w1) by reflexivity.
  set (w2 := snd (store_append_output clock job_id "system"
                    ("Valid credential found: "
                       ++ py_str repr (cred_value c)) w1)).
  rewrite (bind_returns _ _ w1 tt w2) by reflexivity.
  rewrite (bind_returns _ _ w2 (allow w) w2) by reflexivity.
  assert (Hnone : scheduled_after job_id [] w w2)
    by (now apply scheduled_after_nothing).
  destruct (allow w) eqn:Hallow.
  - destruct (launch_exploits_run job_id c w2 Hid)
      as (w' & Hr & Hs & Hse & Ho & Hq).
    exists w'. eexists. eexists. split; [exact Hr|].
    rewrite Hse, Ho. subst w2 w1. simpl sessions. simpl outputs.
    split; [reflexivity|]. split; [eexists; reflexivity|].
    split; [reflexivity|]. split; [simpl; auto|].
    apply (scheduled_after_trans _ [] _ _ _ _ Hnone Hs).
  - exists w2. eexists. eexists. split; [reflexivity|].
    subst w2 w1. simpl sessions. simpl outputs.
    split; [reflexivity|]. split; [eexists; reflexivity|].
    split; [reflexivity|]. split; [simpl; auto|]. exact Hnone.
Qed.

Lemma cme_creds_run job_id creds :
  job_id <> 0 ->
  forall w, exists w' new_sessions lines,
    for_each (map cred_value creds) (cme_cred clock repr job_id) w
    = (Returns tt, w')
    /\ sessions w' = sessions w ++ new_sessions
    /\ Forall2 (is_cred_session job_id) creds new_sessions
    /\ outputs (store w') = outputs (store w) ++ lines
    /\ Forall2 (fun c o =>
                  o_job_id o = job_id /\ o_source o = "system"
                  /\ o_line o = ("Valid credential found: "
                                   ++ py_str repr (cred_value c))%string)
               creds lines
    /\ scheduled_after job_id
         (if allow w
          then map (exploit_spec (py_str repr) job_id) (filter complete creds)
          else []) w w'.
Proof.
  intros Hid. induction creds as [|c creds IH]; intros w.
  - exists w, [], []. simpl. rewrite !app_nil_r.
    repeat split; auto.
    destruct (allow w); now apply scheduled_after_nothing.
  - simpl for_each.
    destruct (cme_cred_run job_id c w Hid)
      as (w1 & s & o & Hr1 & Hse1 & Hs1 & Ho1 & Hl1 & Hsch1).
    rewrite (bind_returns _ _ _ _ _ Hr1).
    destruct (IH w1)
      as (w' & ss & os & Hr & Hse & Hss & Ho & Hos & Hsch).
    exists w', (s :: ss), (o :: os). split; [exact Hr|].
    split; [rewrite Hse, Hse1, <- app_assoc; reflexivity|].
    split; [now constructor|].
    split; [rewrite Ho, Ho1, <- app_assoc; reflexivity|].
    split; [now constructor|].
    assert (Hallow : allow w1 = allow w).
    { destruct Hsch1 as (rows & _ & _ & _ & _ & _ & _ & Ha). exact Ha. }
    rewrite Hallow in Hsch. simpl filter.
    destruct (allow w).
    + destruct (complete c); simpl map.
      * apply (scheduled_after_trans _ [_] _ _ _ _ Hsch1 Hsch).
      * apply (scheduled_after_trans _ [] _ _ _ _ Hsch1 Hsch).
    + apply (scheduled_after_trans _ [] [] _ _ _ Hsch1 Hsch).
Qed.

(** C1, as amended.  The gate is disabled in a new orchestrator, and
    [_apply_rules] never changes it.  Let the
    result of [crackmapexec_json] hold validated credentials as the parser
    builds them, for a job with an id other than 0, and let the rules on
    the other results return, in the world [w1] (they do, in [w] itself,
    when the two other results the rules read are absent).  Then
    [_apply_rules] returns after having appended, for each credential in
    order, one session record of type [cred] and one row of source
    [system], whatever the gate; with the gate disabled nothing is
    scheduled; with the gate enabled exactly one [psexec] job is scheduled
    for each credential whose ip, username and password are all true
    values, built from that credential and recorded as a child of the
    job, and none for a credential that lacks one of them. *)
Theorem exploit_gate_guards_scheduling :
  (forall st, allow (Orchestrator_init st) = false)
  /\ (forall (job_id : Z) (parsed_results : dict) (w : world),
        allow (snd (_apply_rules clock repr job_id parsed_results w))
        = allow w)
  /\ (forall (job_id : Z) (parsed_results : dict) (w : world),
        dict_get parsed_results "nmap_xml" = None ->
        dict_get parsed_results "impacket_getnp" = None ->
        _apply_rules clock repr job_id
          (dict_remove parsed_results "crackmapexec_json") w
        = (Returns tt, w))
  /\ forall (job_id : Z) (parsed_results cme : dict)
            (creds : list credential) (w w1 : world),
      job_id <> 0 ->
      dict_get parsed_results "crackmapexec_json" = Some (VDict cme) ->
      dict_get cme "valid_credentials" = Some (VList (map cred_value creds)) ->
      _apply_rules clock repr job_id
        (dict_remove parsed_results "crackmapexec_json") w
      = (Returns tt, w1) ->
      exists w' new_sessions lines,
        _apply_rules clock repr job_id parsed_results w = (Returns tt, w')
        /\ sessions w' = sessions w1 ++ new_sessions
        /\ Forall2 (is_cred_session job_id) creds new_sessions
        /\ outputs (store w') = outputs (store w1) ++ lines
        /\ Forall2 (fun c o =>
                      o_job_id o = job_id /\ o_source o = "system"
                      /\ o_line o = ("Valid credential found: "
                                       ++ py_str repr (cred_value c))%string)
                   creds lines
        /\ allow w1 = allow w
        /\ (allow w = false -> scheduled_after job_id [] w1 w')
        /\ (allow w = true ->
            scheduled_after job_id
              (map (exploit_spec (py_str repr) job_id)
                   (filter complete creds)) w1 w').
Proof.
  split; [reflexivity|]. split; [|split].
  - intros job_id parsed_results w.
    now destruct (growing_apply_rules job_id parsed_results w)
      as (_ & _ & Ha).
  - intros job_id parsed_results w Hnmap Hgetnp.
    unfold _apply_rules, dict_get_or_none.
    rewrite dict_get_remove_same.
    rewrite !dict_get_remove_other by discriminate.
    now rewrite Hnmap, Hgetnp.
  - intros job_id parsed_results cme creds w w1 Hid Hcme Hcreds Hrest.
    assert (Hallow : allow w1 = allow w).
    { pose proof (growing_apply_rules job_id
                    (dict_remove parsed_results "crackmapexec_json") w)
        as (_ & _ & Ha).
      now rewrite Hrest in Ha. }
    unfold _apply_rules, dict_get_or_none in Hrest.
    rewrite dict_get_remove_same in Hrest.
    rewrite !dict_get_remove_other in Hrest by discriminate.
    apply bind_returns_inv in Hrest as ([] & wa & H1 & Hrest).
    apply bind_returns_inv in Hrest as ([] & wb & H2 & Hrest).
    cbn in Hrest. inversion Hrest. subst wb.
    unfold _apply_rules, dict_get_or_none. rewrite Hcme.
    rewrite (bind_returns _ _ w tt wa H1).
    rewrite (bind_returns _ _ wa tt w1 H2).
    assert (Htr : truthy (VDict cme) = true).
    { destruct cme; [discriminate|reflexivity]. }
    rewrite Htr.
    rewrite (bind_returns _ _ w1 (VList (map cred_value creds)) w1)
      by (simpl; now rewrite Hcreds).
    rewrite (bind_returns _ _ w1 (map cred_value creds) w1) by reflexivity.
    destruct (cme_creds_run job_id creds Hid w1)
      as (w' & ss & os & Hr & Hse & Hss & Ho & Hos & Hsch).
    rewrite Hallow in Hsch.
    exists w', ss, os. repeat split; auto.
    + intros Ha. now rewrite Ha in Hsch.
    + intros Ha. now rewrite Ha in Hsch.
Qed.

End PipelineProperties.

(** ** The statements at concrete inputs *)



Lemma run_job_command_not_found_witness :
  exists w',
    run_job example_clock example_repr 1 None spawn_not_found example_world
    = (Returns (-1), w')
    /\ exists r', get_job 1 (store w') = Some r'
                  /\ j_status r' = "failed" /\ j_exit_code r' = Some (-1).
Proof.
  destruct (run_job_command_not_found example_clock example_repr 1 None
              example_world
              (mk_job 1 0 0 "echo" [VStr "echo"; VStr "hello"] "" (VDict [])
                      "pending" None (VDict [("phase", VStr "discovery")]))
              (VStr "echo") [VStr "hello"] eq_refl eq_refl)
    as (w' & Hrun & (r' & Hget & Hst & Hex & _) & _).
  exists w'. split; [exact Hrun|]. exists r'. auto.
Defined.

(** C6 as stated fails for a command that is located but cannot be
    spawned: [create_subprocess_exec] raises [PermissionError], which
    [run_job] does not catch; it raises, the job keeps the status
    [running] with no exit code, nothing is appended to its outputs. *)
Lemma run_job_cannot_spawn_counterexample :
  let e := Exception "PermissionError" "[Errno 13] Permission denied" in
  let rw := run_job example_clock example_repr 1 None (spawn_raises e)
              example_world in
  fst rw = Raises e
  /\ option_map (fun r => (j_status r, j_exit_code r))
       (get_job 1 (store (snd rw))) = Some ("running", None)
  /\ outputs (store (snd rw)) = outputs (store example_world).
Proof. vm_compute. repeat split. Qed.

(** C2 fails on the code.  The job [echo 'Authentication only, exit
    status 0'] exits with 0: [run_job] stores status [finished] and exit
    code 0.  The pipeline then attaches the result of [rdp_check], and at
    its end the job has status [finished] and no exit code: the call
    that attaches the meta passes the status on and leaves the exit code
    out. *)
Theorem finished_job_loses_exit_code :
  let after_run := snd (run_job example_clock example_repr 1 None
                          (spawned rdp_process) rdp_world) in
  let at_end := snd (_run_and_process example_clock example_repr
                       example_registry 1 (spawned rdp_process) rdp_world) in
  option_map (fun r => (j_status r, j_exit_code r))
    (get_job 1 (store after_run)) = Some ("finished", Some 0)
  /\ option_map (fun r => (j_status r, j_exit_code r))
       (get_job 1 (store at_end)) = Some ("finished", None)
  /\ option_map (fun r => parsers_entry (j_meta r) "rdp_check")
       (get_job 1 (store at_end))
     = Some (Some (VDict [("rdp_auth_success", VBool true)])).
Proof. vm_compute. repeat split. Qed.

Lemma analyzer_failure_isolated_witness :
  let w1 := snd (run_job example_clock example_repr 1 None
                   (spawned rdp_process) rdp_world) in
  let w' := snd (_run_and_process example_clock example_repr broken_registry
                   1 (spawned rdp_process) rdp_world) in
  (exists o, In o (outputs (store w'))
             /\ o_job_id o = 1 /\ o_source o = "system"
             /\ o_line o = "PARSER broken ERROR: bad output")
  /\ (exists r', get_job 1 (store w') = Some r'
                 /\ parsers_entry (j_meta r') "rdp_check"
                    = Some (VDict [("rdp_auth_success", VBool true)]))
  /\ (exists r1 r', get_job 1 (store w1) = Some r1
                    /\ get_job 1 (store w') = Some r'
                    /\ j_status r' = j_status r1).
Proof.
  intros w1 w'.
  assert (Hnd : NoDup (map fst broken_registry)).
  { simpl. constructor.
    - simpl. intros [H|[]]. discriminate.
    - constructor; [simpl; tauto | constructor]. }
  destruct (proj1 (analyzer_failure_isolated example_clock example_repr
                     broken_registry 1 (spawned rdp_process) rdp_world w1 0
                     (mk_job 1 100 100 "rdp"
                        [VStr "echo";
                         VStr "Authentication only, exit status 0"]
                        "" (VDict []) "pending" None (VDict []))
                     "broken" parser_broken
                     (Exception "ValueError" "bad output")
                     eq_refl eq_refl Hnd (or_introl eq_refl) eq_refl) I)
    as (_ & Hline & Hmeta & (r1 & r' & Hg1 & Hg' & Hst & _)).
  split; [exact Hline|]. split.
  - apply (Hmeta "rdp_check" parser_rdp_check
             (VDict [("rdp_auth_success", VBool true)])).
    + right. left. reflexivity.
    + reflexivity.
    + reflexivity.
  - exists r1, r'. auto.
Defined.

(** C7 as stated fails for a job whose stored meta holds a list under
    [parsers].  The job was created with the meta [{'parsers': []}] and
    its run returned 0.  The analyzer [broken] raises and its row is
    appended; the analyzer [rdp_check] then returns a result that is not
    empty, and attaching it raises [TypeError] outside the handler of
    the loop: the pipeline raises, the result is not merged, and the
    stored meta is as it was. *)
Lemma analyzer_failure_listed_counterexample :
  let w1 := snd (run_job example_clock example_repr 1 None
                   (spawned rdp_process) listed_world) in
  let outs := fetch_outputs 1 None (store w1) in
  let rw := _run_and_process example_clock example_repr broken_registry 1
              (spawned rdp_process) listed_world in
  option_map j_meta (get_job 1 (store listed_world))
  = Some (VDict [("parsers", VList [])])
  /\ parser_broken outs = inl (Exception "ValueError" "bad output")
  /\ parser_rdp_check outs = inr (VDict [("rdp_auth_success", VBool true)])
  /\ fst rw = Raises (TypeError "list indices must be integers")
  /\ option_map j_meta (get_job 1 (store (snd rw)))
     = Some (VDict [("parsers", VList [])])
  /\ option_map (fun r => parsers_entry (j_meta r) "rdp_check")
       (get_job 1 (store (snd rw))) = Some None.
Proof. vm_compute. repeat split. Qed.

Lemma update_job_status_erases_exit_code_witness :
  option_map j_exit_code
    (get_job 1 (update_job_status 9 1 "finished" None None
                  (store (snd (run_job example_clock example_repr 1 None
                                 (spawned rdp_process) rdp_world)))))
  = Some None
  /\ exists r1 r',
       get_job 1 (store (snd (run_job example_clock example_repr 1 None
                                (spawned rdp_process) rdp_world)))
       = Some r1
       /\ j_exit_code r1 = Some 0
       /\ get_job 1 (store (snd (_run_and_process example_clock example_repr
                                   example_registry 1 (spawned rdp_process)
                                   rdp_world)))
          = Some r'
       /\ j_exit_code r' = None
       /\ j_status r' = j_status r1.
Proof.
  destruct (update_job_status_erases_exit_code example_clock example_repr)
    as [Hstore Hpipe].
  split.
  - apply (Hstore 9 1 "finished" None _
             (mk_job 1 100 1700000003 "rdp"
                [VStr "echo"; VStr "Authentication only, exit status 0"]
                "" (VDict []) "finished" (Some 0) (VDict []))).
    reflexivity.
  - apply (Hpipe example_registry 1 (spawned rdp_process) rdp_world
             (snd (run_job example_clock example_repr 1 None
                     (spawned rdp_process) rdp_world)) 0
             (mk_job 1 100 100 "rdp"
                [VStr "echo"; VStr "Authentication only, exit status 0"]
                "" (VDict []) "pending" None (VDict []))
             "rdp_check" parser_rdp_check
             (VDict [("rdp_auth_success", VBool true)])).
    + reflexivity.
    + exact I.
    + reflexivity.
    + right. left. reflexivity.
    + reflexivity.
    + reflexivity.
Defined.

Lemma discovery_schedules_enumeration_witness :
  exists w',
    _apply_rules example_clock example_repr 1 discovery_results example_world
    = (Returns tt, w')
    /\ scheduled_after 1 (batch_specs 1 (VStr "10.0.0.5") ++ [])
         example_world w'.
Proof.
  destruct (proj2 (proj2 (discovery_schedules_enumeration
                            example_clock example_repr))
              1 discovery_results [example_host] example_world)
    as (w1 & Hsched & _ & _ & _ & Hret).
  - lia.
  - reflexivity.
  - exists w1. split; [apply Hret; reflexivity | exact Hsched].
Defined.

Lemma exploit_gate_guards_scheduling_witness :
  exists w',
    _apply_rules example_clock example_repr 1
      (cme_results [bare_cred; full_cred]) (set_allow true example_world)
    = (Returns tt, w')
    /\ scheduled_after 1 [exploit_spec (py_str example_repr) 1 full_cred]
         (set_allow true example_world) w'.
Proof.
  destruct (exploit_gate_guards_scheduling example_clock example_repr)
    as (_ & _ & Hrest & Hrule).
  destruct (Hrule 1 (cme_results [bare_cred; full_cred])
              [("valid_credentials",
                VList (map cred_value [bare_cred; full_cred]))]
              [bare_cred; full_cred] (set_allow true example_world)
              (set_allow true example_world))
    as (w' & ss & ls & Hrun & _ & _ & _ & _ & _ & _ & Hon).
  - lia.
  - reflexivity.
  - reflexivity.
  - apply Hrest; reflexivity.
  - exists w'. split; [exact Hrun|]. apply Hon. reflexivity.
Defined.

(** C1 as stated fails with the gate enabled for a credential without a
    password: its session record is appended, and no job is scheduled. *)
Lemma exploit_gate_bare_cred_counterexample :
  let w := set_allow true example_world in
  let rw := _apply_rules example_clock example_repr 1
              (cme_results [bare_cred]) w in
  allow w = true
  /\ fst rw = Returns tt
  /\ List.length (sessions (snd rw)) = S (List.length (sessions w))
  /\ jobs (store (snd rw)) = jobs (store w)
  /\ tasks (snd rw) = tasks w
  /\ dependencies (snd rw) = dependencies w.
Proof. vm_compute. repeat split. Qed.

(** * More properties *)

(** ** The ids of the store *)

Lemma StronglySorted_snoc (l : list Z) (x : Z) :
  StronglySorted Z.lt l -> Forall (fun i => i < x) l ->
  StronglySorted Z.lt (l ++ [x]).
Proof.
  induction l as [|a l IH]; simpl; intros Hs Hall.
  - repeat constructor.
  - inversion Hs; subst. inversion Hall; subst. constructor; auto.
    apply Forall_app. split; auto.
Qed.

Lemma map_update_row_ids now job_id status exit_code meta l :
  map j_id (map (update_row now job_id status exit_code meta) l)
  = map j_id l.
Proof.
  induction l as [|r l IH]; simpl; auto. now rewrite update_row_id, IH.
Qed.

Lemma store_ok_init : store_ok JobStore_init.
Proof. unfold store_ok. simpl. repeat split; try lia; constructor. Qed.

Lemma store_ok_create_job now name command cwd env meta st :
  store_ok st -> store_ok (snd (create_job now name command cwd env meta st)).
Proof.
  intros (Hj & Ho & Hjs & Hjb & Hos & Hob). unfold store_ok. simpl.
  rewrite map_app. simpl. repeat split; auto; try lia.
  - apply StronglySorted_snoc; auto.
    eapply Forall_impl; [|exact Hjb]. simpl. intros; lia.
  - apply Forall_app. split.
    + eapply Forall_impl; [|exact Hjb]. simpl. intros; lia.
    + repeat constructor; lia.
Qed.

Lemma store_ok_update_job_status now job_id status exit_code meta st :
  store_ok st ->
  store_ok (update_job_status now job_id status exit_code meta st).
Proof.
  intros (Hj & Ho & Hjs & Hjb & Hos & Hob). unfold store_ok. simpl.
  rewrite map_update_row_ids. repeat split; auto.
Qed.

Lemma store_ok_append_output now job_id source line st :
  store_ok st -> store_ok (append_output now job_id source line st).
Proof.
  intros (Hj & Ho & Hjs & Hjb & Hos & Hob). unfold store_ok. simpl.
  rewrite map_app. simpl. repeat split; auto; try lia.
  - apply StronglySorted_snoc; auto.
    eapply Forall_impl; [|exact Hob]. simpl. intros; lia.
  - apply Forall_app. split.
    + eapply Forall_impl; [|exact Hob]. simpl. intros; lia.
    + repeat constructor; lia.
Qed.

(** X1.  Ids are never given twice.  In a new store, and after every
    [create_job], [update_job_status] and [append_output] on a store where
    it held, the ids of each table are positive, increase along the table
    and do not exceed the counter of the table; in particular no two rows
    of a table have the same id. *)
Theorem store_ids_stay_in_order :
  store_ok JobStore_init
  /\ (forall now name command cwd env meta st,
        store_ok st ->
        store_ok (snd (create_job now name command cwd env meta st)))
  /\ (forall now job_id status exit_code meta st,
        store_ok st ->
        store_ok (update_job_status now job_id status exit_code meta st))
  /\ (forall now job_id source line st,
        store_ok st -> store_ok (append_output now job_id source line st))
  /\ (forall st, store_ok st ->
        NoDup (map j_id (jobs st)) /\ NoDup (map o_id (outputs st))).
Proof.
  split; [apply store_ok_init|].
  split; [intros; now apply store_ok_create_job|].
  split; [intros; now apply store_ok_update_job_status|].
  split; [intros; now apply store_ok_append_output|].
  intros st (_ & _ & Hjs & _ & Hos & _).
  assert (Hnd : forall l, StronglySorted Z.lt l -> NoDup l).
  { induction l as [|a l IH]; intros Hs; constructor;
      inversion Hs as [|? ? Hs' Hall]; subst; auto.
    intros Hin. rewrite Forall_forall in Hall. specialize (Hall a Hin). lia. }
  split; apply Hnd; assumption.
Qed.

Lemma store_ids_stay_in_order_witness :
  store_ok example_store.
Proof.
  unfold example_store.
  destruct store_ids_stay_in_order as (Hinit & Hcreate & _ & Happend & _).
  apply Happend, Happend, Hcreate, Hinit.
Defined.

(** ** Writing a row and reading it back *)

Lemma find_job_none_above k l :
  Forall (fun i => i < k) (map j_id l) ->
  find (fun r => j_id r =? k) l = None.
Proof.
  induction l as [|r l IH]; simpl; intros Hall; auto.
  inversion Hall; subst.
  destruct (j_id r =? k) eqn:E; auto. apply Z.eqb_eq in E. lia.
Qed.

Lemma find_app_none {A} (f : A -> bool) l1 l2 :
  find f l1 = None -> find f (l1 ++ l2) = find f l2.
Proof.
  induction l1 as [|x l1 IH]; simpl; auto.
  destruct (f x); [discriminate|auto].
Qed.

Lemma find_app_some {A} (f : A -> bool) l1 l2 x :
  find f l1 = Some x -> find f (l1 ++ l2) = Some x.
Proof.
  induction l1 as [|y l1 IH]; simpl; [discriminate|].
  destruct (f y); auto.
Qed.

(** The job row written by [create_job] and the id it returns. *)
Lemma create_job_get_job now name command cwd env meta st :
  store_ok st ->
  let id := fst (create_job now name command cwd env meta st) in
  let st' := snd (create_job now name command cwd env meta st) in
  get_job id st = None
  /\ get_job id st'
     = Some (mk_job id now now name command
               (match cwd with Some c => c | None => "" end)
               (or_default env (VDict [])) "pending" None
               (or_default meta (VDict [])))
  /\ (forall k, k <> id -> get_job k st' = get_job k st)
  /\ outputs st' = outputs st.
Proof.
  intros (Hj & Ho & Hjs & Hjb & Hos & Hob). simpl.
  assert (Hnone : find (fun r => j_id r =? jobs_seq st + 1) (jobs st) = None).
  { apply find_job_none_above.
    eapply Forall_impl; [|exact Hjb]. simpl. intros; lia. }
  unfold get_job. simpl. split; [exact Hnone|]. split; [|split; [|auto]].
  - rewrite (find_app_none _ _ _ Hnone). simpl. now rewrite Z.eqb_refl.
  - intros k Hk.
    destruct (find (fun r => j_id r =? k) (jobs st)) as [r|] eqn:E.
    + now apply find_app_some.
    + rewrite (find_app_none _ _ _ E). simpl.
      destruct (jobs_seq st + 1 =? k) eqn:E'; auto.
      apply Z.eqb_eq in E'. congruence.
Qed.

(** X2.  In a store with ids in order, [create_job] returns an id no job
    had, and reading that id back gives the row just written: status
    [pending], no exit code, both times set to the current time, the
    name and command as given, [''] for a missing cwd and [{}] for a
    missing or empty env or meta.  Every other job reads back as before
    and no output row is touched. *)
Theorem create_job_reads_back :
  forall (now : Z) (name : string) (command : list value)
         (cwd : option string) (env meta : option value) (st : JobStore),
    store_ok st ->
    let id := fst (create_job now name command cwd env meta st) in
    let st' := snd (create_job now name command cwd env meta st) in
    get_job id st = None
    /\ get_job id st'
       = Some (mk_job id now now name command
                 (match cwd with Some c => c | None => "" end)
                 (or_default env (VDict [])) "pending" None
                 (or_default meta (VDict [])))
    /\ (forall k, k <> id -> get_job k st' = get_job k st)
    /\ outputs st' = outputs st.
Proof. intros. now apply create_job_get_job. Qed.

Lemma create_job_reads_back_witness :
  get_job 1 (snd (create_job 5 "scan" [VStr "nmap"] None None
                    (Some (VDict [])) JobStore_init))
  = Some (mk_job 1 5 5 "scan" [VStr "nmap"] "" (VDict []) "pending" None
                 (VDict [])).
Proof.
  destruct (create_job_reads_back 5 "scan" [VStr "nmap"] None None
              (Some (VDict [])) JobStore_init store_ok_init)
    as (_ & Hget & _).
  exact Hget.
Defined.

Lemma filter_ascending f l :
  StronglySorted Z.lt (map o_id l) -> ascending (filter f l).
Proof.
  unfold ascending. induction l as [|x l IH]; simpl; intros Hs.
  - constructor.
  - inversion Hs as [|? ? Hs' Hall]; subst.
    destruct (f x); auto. constructor; auto.
    rewrite Forall_forall in *. intros y Hy. apply filter_In in Hy.
    destruct Hy as [Hy _]. specialize (Hall (o_id y) (in_map o_id _ _ Hy)).
    lia.
Qed.

(** In a store with ids in order the query returns the rows of the job in
    the order of the table. *)
Lemma fetch_outputs_table_order job_id st :
  store_ok st ->
  fetch_outputs job_id None st = filter (job_matches job_id) (outputs st).
Proof.
  intros (_ & _ & _ & _ & Hos & _). rewrite fetch_outputs_none.
  apply order_by_id_sorted. now apply filter_ascending.
Qed.

(** X3.  In a store with ids in order, [fetch_outputs] without [since]
    returns the rows of the job in the order they were appended, and
    [append_output] adds its row, with the next id, at the end of what
    [fetch_outputs] returns for that job and changes nothing of what it
    returns for another job. *)
Theorem append_output_reads_back :
  forall (now job_id : Z) (source line : string) (st : JobStore),
    store_ok st ->
    fetch_outputs job_id None st = filter (job_matches job_id) (outputs st)
    /\ fetch_outputs job_id None (append_output now job_id source line st)
       = fetch_outputs job_id None st
         ++ [mk_output (outputs_seq st + 1) job_id now source line]
    /\ (forall k, k <> job_id ->
          fetch_outputs k None (append_output now job_id source line st)
          = fetch_outputs k None st).
Proof.
  intros now job_id source line st Hok.
  pose proof (store_ok_append_output now job_id source line st Hok) as Hok'.
  split; [now apply fetch_outputs_table_order|]. split.
  - rewrite !fetch_outputs_table_order by assumption. simpl.
    rewrite filter_app. simpl. unfold job_matches at 2. simpl.
    now rewrite Z.eqb_refl.
  - intros k Hk. rewrite !fetch_outputs_table_order by assumption. simpl.
    rewrite filter_app. simpl. unfold job_matches at 2. simpl.
    replace (job_id =? k) with false; [now rewrite app_nil_r|].
    symmetry. apply Z.eqb_neq. congruence.
Qed.

Lemma append_output_reads_back_witness :
  fetch_outputs 1 None (append_output 9 1 "stdout" "done" example_store)
  = fetch_outputs 1 None example_store
    ++ [mk_output 3 1 9 "stdout" "done"].
Proof.
  destruct (append_output_reads_back 9 1 "stdout" "done" example_store)
    as (_ & Happ & _).
  - unfold example_store.
    apply store_ok_append_output, store_ok_append_output,
      store_ok_create_job, store_ok_init.
  - exact Happ.
Defined.

Lemma map_update_row_absent now job_id status exit_code meta l :
  find (fun r => j_id r =? job_id) l = None ->
  map (update_row now job_id status exit_code meta) l = l.
Proof.
  induction l as [|r l IH]; simpl; auto.
  destruct (j_id r =? job_id) eqn:E; [discriminate|].
  intros Hf. unfold update_row at 1. rewrite E. now rewrite IH.
Qed.

(** X4.  [update_job_status] on an id that SQLite can hold and that no
    job has leaves the store as it was: no row is created and no row
    changes. *)
Theorem update_job_status_absent_job :
  forall (now job_id : Z) (status : string) (exit_code : option Z)
         (meta : option value) (st : JobStore),
    fits_int64 job_id ->
    get_job job_id st = None ->
    update_job_status now job_id status exit_code meta st = st.
Proof.
  intros now job_id status exit_code meta st _ Hget.
  unfold update_job_status.
  rewrite (map_update_row_absent _ _ _ _ _ _ Hget). now destruct st.
Qed.

Lemma update_job_status_absent_job_witness :
  update_job_status 9 42 "failed" None None example_store = example_store.
Proof.
  apply (update_job_status_absent_job 9 42 "failed" None None example_store).
  - unfold fits_int64. lia.
  - reflexivity.
Defined.

(** ** [list_jobs] *)







(** ** [ParserRegistry] *)

Lemma registry_get_register_same name fn reg :
  registry_get (register name fn reg) name = Some fn.
Proof.
  induction reg as [|[n f] reg IH]; simpl.
  - now rewrite String.eqb_refl.
  - destruct (String.eqb n name) eqn:E; simpl; rewrite E; auto.
Qed.

Lemma registry_get_register_other name other fn reg :
  other <> name ->
  registry_get (register name fn reg) other = registry_get reg other.
Proof.
  intros Hne. induction reg as [|[n f] reg IH]; simpl.
  - destruct (String.eqb name other) eqn:E; auto.
    apply String.eqb_eq in E. congruence.
  - destruct (String.eqb n name) eqn:E; simpl.
    + apply String.eqb_eq in E. subst n.
      destruct (String.eqb name other) eqn:E'; auto.
      apply String.eqb_eq in E'. congruence.
    + now rewrite IH.
Qed.

Lemma register_names name fn reg :
  map fst (register name fn reg)
  = match registry_get reg name with
    | Some _ => map fst reg
    | None => map fst reg ++ [name]
    end.
Proof.
  induction reg as [|[n f] reg IH]; simpl; auto.
  destruct (String.eqb n name) eqn:E; simpl; auto.
  rewrite IH. now destruct (registry_get reg name).
Qed.

Lemma registry_get_none_not_in reg name :
  registry_get reg name = None -> ~ In name (map fst reg).
Proof.
  induction reg as [|[n f] reg IH]; simpl; auto.
  destruct (String.eqb n name) eqn:E; [discriminate|].
  apply String.eqb_neq in E. intros Hn [H|H]; auto. now apply IH.
Qed.

(** X6.  In the registry, [get] after [register] returns the function
    just registered and what it returned for another name is kept;
    registering a name again replaces its function and keeps its place in
    the order [all] goes through, a new name goes last; and names stay
    registered once, starting from the empty registry. *)
Theorem register_then_get :
  NoDup (map fst ParserRegistry_init)
  /\ forall (name : string) (fn : parser) (reg : ParserRegistry),
      registry_get (register name fn reg) name = Some fn
      /\ (forall other, other <> name ->
            registry_get (register name fn reg) other
            = registry_get reg other)
      /\ map fst (registry_all (register name fn reg))
         = match registry_get reg name with
           | Some _ => map fst (registry_all reg)
           | None => map fst (registry_all reg) ++ [name]
           end
      /\ (NoDup (map fst reg) -> NoDup (map fst (register name fn reg))).
Proof.
  split; [constructor|]. intros name fn reg.
  split; [apply registry_get_register_same|].
  split; [intros; now apply registry_get_register_other|].
  split; [apply register_names|].
  intros Hnd. rewrite register_names.
  destruct (registry_get reg name) eqn:E; auto.
  apply registry_get_none_not_in in E.
  apply NoDup_app; auto.
  - repeat constructor. simpl. tauto.
  - intros x Hx [<-|[]]. contradiction.
Qed.

Lemma register_then_get_witness :
  NoDup (map fst (register "rdp_check" parser_rdp_check
                    (register "impacket_getnp" parser_impacket_getnp
                       (register "rdp_check" parser_broken
                          ParserRegistry_init)))).
Proof.
  destruct register_then_get as [Hinit Hreg].
  apply Hreg, Hreg, Hreg, Hinit.
Defined.

(** ** What the pipeline never undoes *)

Section MoreProperties.

Variable clock : nat -> Z.
Variable repr : value -> string.

Lemma advances_refl w : advances w w.
Proof.
  repeat split; try (exists []; now rewrite app_nil_r); lia.
Qed.

Lemma advances_trans w1 w2 w3 :
  advances w1 w2 -> advances w2 w3 -> advances w1 w3.
Proof.
  intros ([k1 Hk1] & [o1 Ho1] & [s1 Hs1] & [t1 Ht1] & Ha1 & Hj1 & Hq1)
         ([k2 Hk2] & [o2 Ho2] & [s2 Hs2] & [t2 Ht2] & Ha2 & Hj2 & Hq2).
  repeat split.
  - exists (k1 ++ k2). now rewrite Hk2, Hk1, app_assoc.
  - exists (o1 ++ o2). now rewrite Ho2, Ho1, app_assoc.
  - exists (s1 ++ s2). now rewrite Hs2, Hs1, app_assoc.
  - exists (t1 ++ t2). now rewrite Ht2, Ht1, app_assoc.
  - congruence.
  - lia.
  - lia.
Qed.

Lemma job_key_update_row now job_id status exit_code meta r :
  job_key (update_row now job_id status exit_code meta r) = job_key r.
Proof.
  unfold update_row, job_key.
  destruct (j_id r =? job_id); auto. destruct meta; auto.
Qed.

Lemma map_job_key_update now job_id status exit_code meta l :
  map job_key (map (update_row now job_id status exit_code meta) l)
  = map job_key l.
Proof.
  induction l as [|r l IH]; simpl; auto.
  now rewrite job_key_update_row, IH.
Qed.

Ltac steady_same :=
  intros w; split;
  [ repeat split; simpl;
    try (exists []; now rewrite app_nil_r); try reflexivity; lia
  | intros Hok; exact Hok ].

Lemma steady_ret {A} (a : A) : steady (ret a).
Proof. steady_same. Qed.

Lemma steady_raise {A} (e : exn) : steady (@raise A e).
Proof. steady_same. Qed.

Lemma steady_hang {A} : steady (@hang A).
Proof. steady_same. Qed.

Lemma steady_lift {A} (r : exn + A) : steady (lift r).
Proof. destruct r; [apply steady_raise | apply steady_ret]. Qed.

Lemma steady_gets {A} (f : world -> A) : steady (gets f).
Proof. steady_same. Qed.

Lemma steady_bind {A B} (m : M A) (k : A -> M B) :
  steady m -> (forall a, steady (k a)) -> steady (bind m k).
Proof.
  intros Hm Hk w. unfold bind. destruct (Hm w) as [Ha Hok].
  destruct (m w) as [[a|e| |be] w']; simpl in *; auto.
  destruct (Hk a w') as [Ha' Hok']. split.
  - eapply advances_trans; eauto.
  - auto.
Qed.

Lemma steady_try_except {A} (m : M A) (handler : exn -> M A) :
  steady m -> (forall e, steady (handler e)) -> steady (try_except m handler).
Proof.
  intros Hm Hh w. unfold try_except. destruct (Hm w) as [Ha Hok].
  destruct (m w) as [[a|e| |be] w']; simpl in *; auto.
  destruct (Hh e w') as [Ha' Hok']. split.
  - eapply advances_trans; eauto.
  - auto.
Qed.

Lemma steady_for_each {A} (l : list A) (body : A -> M unit) :
  (forall x, steady (body x)) -> steady (for_each l body).
Proof.
  intros Hb. induction l as [|x l IH]; simpl.
  - apply steady_ret.
  - apply steady_bind; auto.
Qed.

Lemma steady_time_time : steady (time_time clock).
Proof. steady_same. Qed.

Lemma steady_store_append_output job_id source line :
  steady (store_append_output clock job_id source line).
Proof.
  intros w. split.
  - repeat split; simpl; try (exists []; now rewrite app_nil_r);
      try reflexivity; try lia.
    eexists. reflexivity.
  - simpl. apply store_ok_append_output.
Qed.

Lemma steady_store_update_job_status job_id status exit_code meta :
  steady (store_update_job_status clock job_id status exit_code meta).
Proof.
  intros w. split.
  - repeat split; simpl; try (exists []; now rewrite app_nil_r);
      try reflexivity; try lia.
    exists []. now rewrite map_job_key_update, app_nil_r.
  - simpl. apply store_ok_update_job_status.
Qed.

Lemma steady_store_create_job name command cwd env meta :
  steady (store_create_job clock name command cwd env meta).
Proof.
  intros w. split.
  - repeat split; simpl; try (exists []; now rewrite app_nil_r);
      try reflexivity; try lia.
    eexists. rewrite map_app. reflexivity.
  - simpl. apply (store_ok_create_job _ name command cwd env meta).
Qed.

Lemma steady_notify job_id source line :
  steady (_notify clock job_id source line).
Proof. steady_same. Qed.

Lemma steady_os_do c : steady (os_do c).
Proof. steady_same. Qed.

Lemma steady_set_logfiles f : steady (modify (set_logfiles f)).
Proof. steady_same. Qed.

Lemma steady_set_dependencies f : steady (modify (set_dependencies f)).
Proof. steady_same. Qed.

Lemma steady_add_task job_id :
  steady (modify (set_tasks (fun ts => ts ++ [job_id]))).
Proof.
  intros w. split; [|intros Hok; exact Hok].
  repeat split; simpl; try (exists []; now rewrite app_nil_r);
    try reflexivity; try lia.
  eexists. reflexivity.
Qed.

Lemma steady_add_session session : steady (add_session clock session).
Proof.
  intros w. split; [|intros Hok; exact Hok].
  repeat split; simpl; try (exists []; now rewrite app_nil_r);
    try reflexivity; try lia.
  eexists. reflexivity.
Qed.

Create HintDb steady.

#[local] Hint Resolve steady_ret steady_raise steady_hang steady_lift
  steady_gets steady_time_time steady_store_append_output
  steady_store_update_job_status steady_store_create_job steady_notify
  steady_os_do steady_set_logfiles steady_set_dependencies steady_add_task
  steady_add_session : steady.

Ltac steady_steps :=
  repeat (first
    [ solve [auto with steady]
    | apply steady_bind; [|intros ?]
    | apply steady_for_each; intros ?
    | apply steady_try_except; [|intros ?]
    | match goal with
      | |- steady (if ?b then _ else _) => destruct b
      | |- steady (match ?x with _ => _ end) => destruct x
      | |- steady (let (_, _) := ?x in _) => destruct x
      end ]).

Lemma steady_read_line job_id sl : steady (read_line clock job_id sl).
Proof. unfold read_line. steady_steps. Qed.

#[local] Hint Resolve steady_read_line : steady.

Lemma steady_run_job job_id timeout os :
  steady (run_job clock repr job_id timeout os).
Proof. unfold run_job. steady_steps. Qed.

Lemma steady_schedule_job name command cwd env meta parent_job :
  steady (schedule_job clock name command cwd env meta parent_job).
Proof. unfold schedule_job. steady_steps. Qed.

#[local] Hint Resolve steady_run_job steady_schedule_job : steady.

Lemma steady_launch_exploits cred parent_job :
  steady (_launch_exploits_for_cred clock repr cred parent_job).
Proof. unfold _launch_exploits_for_cred. steady_steps. Qed.

Lemma steady_schedule_enumeration ip job_id :
  steady (schedule_enumeration clock ip job_id).
Proof. unfold schedule_enumeration. steady_steps. Qed.

#[local] Hint Resolve steady_launch_exploits steady_schedule_enumeration
  : steady.

Lemma steady_nmap_host job_id host : steady (nmap_host clock job_id host).
Proof. unfold nmap_host. steady_steps. Qed.

Lemma steady_cme_cred job_id cred : steady (cme_cred clock repr job_id cred).
Proof. unfold cme_cred. steady_steps. Qed.

#[local] Hint Resolve steady_nmap_host steady_cme_cred : steady.

Lemma steady_apply_rules job_id parsed_results :
  steady (_apply_rules clock repr job_id parsed_results).
Proof. unfold _apply_rules. steady_steps. Qed.

Lemma steady_run_parser job_id outs parsed_results np :
  steady (run_parser clock job_id outs parsed_results np).
Proof. unfold run_parser. steady_steps. Qed.

#[local] Hint Resolve steady_apply_rules steady_run_parser : steady.

Lemma steady_run_parsers job_id outs registry :
  forall parsed_results,
    steady (run_parsers clock job_id outs parsed_results registry).
Proof.
  induction registry as [|np registry IH]; intros parsed_results; simpl.
  - apply steady_ret.
  - apply steady_bind; auto with steady.
Qed.

#[local] Hint Resolve steady_run_parsers : steady.

Lemma steady_run_and_process registry job_id os :
  steady (_run_and_process clock repr registry job_id os).
Proof. unfold _run_and_process. steady_steps. Qed.

(** X7.  The pipeline of a job only adds.  Whatever the registry, the job
    and the behaviour of the child are, and whether [_run_and_process]
    returns, raises or waits for ever, the world it leaves has: the jobs
    it found, in the same order and with the same id, creation time,
    name, command, cwd and env, followed by the jobs scheduled; the
    output rows, the sessions and the queued tasks it found, unchanged,
    followed by new ones; the gate as it was; and ids in order in the
    store if they were.  The same holds for [run_job] alone, with any
    timeout. *)
Theorem pipeline_only_adds :
  forall (registry : list (string * parser)) (job_id : Z)
         (timeout : option Z) (os : spawn_outcome) (w : world),
    (advances w (snd (_run_and_process clock repr registry job_id os w))
     /\ (store_ok (store w) ->
         store_ok
           (store (snd (_run_and_process clock repr registry job_id os w)))))
    /\ (advances w (snd (run_job clock repr job_id timeout os w))
        /\ (store_ok (store w) ->
            store_ok (store (snd (run_job clock repr job_id timeout os w))))).
Proof.
  intros registry job_id timeout os w. split.
  - apply steady_run_and_process.
  - apply steady_run_job.
Qed.

(** ** Runs that raise *)

Lemma run_and_process_raised registry job_id os w e w1 :
  run_job clock repr job_id None os w = (Raises e, w1) ->
  _run_and_process clock repr registry job_id os w
  = (Returns tt,
     set_store
       (update_job_status (clock (S (time_calls w1))) job_id "failed" None
          None)
       (set_time_calls (S (S (time_calls w1)))
          (set_store
             (append_output (clock (time_calls w1)) job_id "system"
                ("ERROR during run: " ++ exn_str e)) w1))).
Proof.
  intros Hrun. unfold _run_and_process, try_except.
  unfold bind at 1. unfold bind at 1. rewrite Hrun. reflexivity.
Qed.

Lemma run_and_process_escaped registry job_id os w b w1 :
  run_job clock repr job_id None os w = (Escapes b, w1) ->
  _run_and_process clock repr registry job_id os w = (Escapes b, w1).
Proof.
  intros Hrun. unfold _run_and_process, try_except.
  unfold bind at 1. unfold bind at 1. rewrite Hrun. reflexivity.
Qed.

(** X8.  Take a job id that SQLite can hold.  When [run_job] raises an
    exception of a class derived from [Exception], [_run_and_process]
    returns normally: it appends one row of source [system] with the
    text of the exception, sets the status of the job to [failed] with
    no exit code and the meta it had (and changes no job when the job
    does not exist), consults no parser, applies no rule and makes no
    request about a child process: sessions, tasks and dependencies are
    as [run_job] left them.  When [run_job] is left by an exception
    outside [Exception], the cancellation of the task for one, the
    handler does not run: [_run_and_process] is left by the same
    exception, with everything as [run_job] left it. *)
Theorem run_and_process_handles_exception :
  forall (registry : list (string * parser)) (job_id : Z)
         (os : spawn_outcome) (w w1 : world),
    fits_int64 job_id ->
    (forall e : exn,
       run_job clock repr job_id None os w = (Raises e, w1) ->
       exists w',
         _run_and_process clock repr registry job_id os w = (Returns tt, w')
         /\ outputs (store w')
            = outputs (store w1)
              ++ [mk_output (outputs_seq (store w1) + 1) job_id
                    (clock (time_calls w1)) "system"
                    ("ERROR during run: " ++ exn_str e)]
         /\ (forall r1, get_job job_id (store w1) = Some r1 ->
               exists r', get_job job_id (store w') = Some r'
                          /\ j_status r' = "failed" /\ j_exit_code r' = None
                          /\ j_meta r' = j_meta r1)
         /\ (get_job job_id (store w1) = None ->
             jobs (store w') = jobs (store w1))
         /\ sessions w' = sessions w1 /\ tasks w' = tasks w1
         /\ dependencies w' = dependencies w1 /\ os_calls w' = os_calls w1)
    /\ (forall b : base_exn,
          run_job clock repr job_id None os w = (Escapes b, w1) ->
          _run_and_process clock repr registry job_id os w = (Escapes b, w1)).
Proof.
  intros registry job_id os w w1 _. split.
  - intros e Hrun.
    eexists. split; [apply (run_and_process_raised _ _ _ _ _ _ Hrun)|].
    simpl. split; [reflexivity|]. split; [|split; [|auto]].
    + intros r1 Hget.
      erewrite get_job_update_same
        by (rewrite get_job_append_output; exact Hget).
      eexists. split; [reflexivity|]. simpl. auto.
    + intros Hget. apply map_update_row_absent. exact Hget.
  - intros b Hrun. now apply run_and_process_escaped.
Qed.

Lemma run_job_missing job_id timeout os w :
  get_job job_id (store w) = None ->
  run_job clock repr job_id timeout os w
  = (Raises (Exception "ValueError" "no such job"), w).
Proof.
  intros Hget. unfold run_job.
  rewrite (bind_returns _ _ w None w)
    by (unfold store_get_job, gets; now rewrite Hget).
  reflexivity.
Qed.

(** X9.  For an id that SQLite can hold and that no job has, [run_job]
    raises [ValueError] and changes nothing, and [_run_and_process]
    returns after having appended, for that id, the one row [ERROR
    during run: no such job]: the table of outputs then holds a row of a
    job that does not exist, while the table of jobs is unchanged. *)
Theorem run_of_missing_job :
  forall (registry : list (string * parser)) (job_id : Z)
         (timeout : option Z) (os : spawn_outcome) (w : world),
    fits_int64 job_id ->
    get_job job_id (store w) = None ->
    run_job clock repr job_id timeout os w
    = (Raises (Exception "ValueError" "no such job"), w)
    /\ exists w',
         _run_and_process clock repr registry job_id os w = (Returns tt, w')
         /\ outputs (store w')
            = outputs (store w)
              ++ [mk_output (outputs_seq (store w) + 1) job_id
                    (clock (time_calls w)) "system"
                    "ERROR during run: no such job"]
         /\ jobs (store w') = jobs (store w)
         /\ get_job job_id (store w') = None.
Proof.
  intros registry job_id timeout os w _ Hget.
  split; [now apply run_job_missing|].
  eexists. split.
  - apply (run_and_process_raised registry job_id os w
             (Exception "ValueError" "no such job") w).
    now apply run_job_missing.
  - simpl. split; [reflexivity|].
    assert (Hjobs :
      map (update_row (clock (S (time_calls w))) job_id "failed" None None)
          (jobs (store w)) = jobs (store w))
      by (now apply map_update_row_absent).
    split; [exact Hjobs|].
    unfold get_job. simpl. rewrite Hjobs. exact Hget.
Qed.

(** X10.  When the spawn raises an exception other than
    [FileNotFoundError], [run_job] lets it through: the job, marked
    [running] just before, stays [running] with no exit code, no output
    row is written and no child is created.  If the class of the
    exception derives from [Exception], the handler of
    [_run_and_process] catches it: the job ends [failed] with no exit
    code and one row of source [system] carrying the text of the
    exception.  If it does not, the cancellation of the task for one,
    [_run_and_process] lets it through as well: the job stays
    [running], and no row is written. *)
Theorem run_job_spawn_exception :
  forall (registry : list (string * parser)) (job_id : Z)
         (timeout : option Z) (w : world) (r : job_row),
    get_job job_id (store w) = Some r ->
    (forall e : exn,
       (exists w1,
          run_job clock repr job_id timeout (spawn_raises e) w
          = (Raises e, w1)
          /\ (exists r1, get_job job_id (store w1) = Some r1
                         /\ j_status r1 = "running" /\ j_exit_code r1 = None
                         /\ j_meta r1 = j_meta r)
          /\ outputs (store w1) = outputs (store w)
          /\ os_calls w1 = os_calls w)
       /\ exists w' r' o,
            _run_and_process clock repr registry job_id (spawn_raises e) w
            = (Returns tt, w')
            /\ get_job job_id (store w') = Some r'
            /\ j_status r' = "failed" /\ j_exit_code r' = None
            /\ j_meta r' = j_meta r
            /\ outputs (store w') = outputs (store w) ++ [o]
            /\ o_job_id o = job_id /\ o_source o = "system"
            /\ o_line o = ("ERROR during run: " ++ exn_str e)%string)
    /\ (forall b : base_exn,
          exists w1 r1,
            run_job clock repr job_id timeout (spawn_escapes b) w
            = (Escapes b, w1)
            /\ _run_and_process clock repr registry job_id (spawn_escapes b) w
               = (Escapes b, w1)
            /\ get_job job_id (store w1) = Some r1
            /\ j_status r1 = "running" /\ j_exit_code r1 = None
            /\ j_meta r1 = j_meta r
            /\ outputs (store w1) = outputs (store w)
            /\ os_calls w1 = os_calls w).
Proof.
  intros registry job_id timeout w r Hget. split.
  - intros e.
    assert (Hrun : forall timeout,
      run_job clock repr job_id timeout (spawn_raises e) w
      = (Raises e,
         snd (store_update_job_status clock job_id "running" None None w))).
    { intros t. unfold run_job.
      rewrite (bind_returns _ _ w (Some r) w)
        by (unfold store_get_job, gets; now rewrite Hget).
      reflexivity. }
    split.
    + eexists. split; [apply Hrun|]. simpl. split; [|auto].
      rewrite (get_job_update_same _ _ _ _ _ _ _ Hget).
      eexists. split; [reflexivity|]. simpl. auto.
    + eexists. eexists. eexists. split.
      * apply (run_and_process_raised registry job_id _ w e _ (Hrun None)).
      * simpl. split.
        -- erewrite get_job_update_same
             by (rewrite get_job_append_output;
                 apply get_job_update_same; exact Hget).
           reflexivity.
        -- simpl. repeat split.
  - intros b.
    assert (Hrun : forall timeout,
      run_job clock repr job_id timeout (spawn_escapes b) w
      = (Escapes b,
         snd (store_update_job_status clock job_id "running" None None w))).
    { intros t. unfold run_job.
      rewrite (bind_returns _ _ w (Some r) w)
        by (unfold store_get_job, gets; now rewrite Hget).
      reflexivity. }
    eexists. eexists. split; [apply Hrun|]. split.
    + apply run_and_process_escaped. apply Hrun.
    + simpl. split.
      * apply (get_job_update_same _ _ _ _ _ _ _ Hget).
      * simpl. repeat split.
Qed.

(** ** What a run stores, mirrors and delivers *)



(** ** When a child is killed *)

Lemma readlines_no_kill t (lines : list (stream * string)) :
  ~ In (os_kill t) (map (fun sl => os_readline (fst sl)) lines).
Proof.
  induction lines as [|sl lines IH]; simpl; [tauto|].
  intros [H|H]; [discriminate|auto].
Qed.

(** X12.  [run_job] makes requests about a child only when the spawn
    succeeded, and the only signal it ever sends is the SIGKILL to the
    child itself, sent only when a timeout was given and the wait ended
    by it.  Without a timeout no child is ever killed. *)
Theorem run_job_kills_only_on_timeout :
  forall (job_id : Z) (timeout : option Z) (os : spawn_outcome) (w : world),
    exists calls,
      os_calls (snd (run_job clock repr job_id timeout os w))
      = os_calls w ++ calls
      /\ ((forall p, os <> spawned p) -> calls = [])
      /\ (forall target, In (os_kill target) calls ->
            target = to_process
            /\ exists p t, os = spawned p /\ p_end p = pending
                           /\ timeout = Some t)
      /\ (timeout = None -> forall target, ~ In (os_kill target) calls).
Proof.
  intros job_id timeout os w.
  assert (Hnone : forall w',
            os_calls w' = os_calls w -> (forall p, os <> spawned p) ->
            exists calls,
              os_calls w' = os_calls w ++ calls
              /\ ((forall p, os <> spawned p) -> calls = [])
              /\ (forall target, In (os_kill target) calls ->
                    target = to_process
                    /\ exists p t, os = spawned p /\ p_end p = pending
                                   /\ timeout = Some t)
              /\ (timeout = None ->
                  forall target, ~ In (os_kill target) calls)).
  { intros w' Hw' _. exists []. rewrite app_nil_r.
    split; [exact Hw'|]. split; [reflexivity|].
    split; [intros target []|intros _ target []]. }
  destruct (get_job job_id (store w)) as [r|] eqn:Hget.
  2:{ rewrite (run_job_missing job_id timeout os w Hget). simpl.
      exists []. rewrite app_nil_r. split; [reflexivity|].
      split; [reflexivity|].
      split; [intros target []|intros _ target []]. }
  unfold run_job.
  rewrite (bind_returns _ _ w (Some r) w)
    by (unfold store_get_job, gets; now rewrite Hget).
  set (w1 := snd (store_update_job_status clock job_id "running" None None w)).
  rewrite (bind_returns _ _ w tt w1) by reflexivity.
  destruct os as [|e|p|b].
  4:{ apply Hnone; [reflexivity|discriminate]. }
  - apply Hnone; [|discriminate]. destruct (j_command r); reflexivity.
  - apply Hnone; [reflexivity|discriminate].
  - set (w2 := snd (os_do (os_exec (j_command r)) w1)).
    rewrite (bind_returns _ _ w1 tt w2) by reflexivity.
    destruct (read_lines_run clock job_id (p_lines p) w2)
      as (w3 & Hread & _ & _ & _ & _ & _ & _ & Hcalls & _).
    rewrite (bind_returns _ _ w2 tt w3 Hread).
    assert (Hw3 : os_calls w3
                  = os_calls w
                    ++ os_exec (j_command r)
                       :: map (fun sl => os_readline (fst sl)) (p_lines p)).
    { rewrite Hcalls. subst w2 w1. simpl. now rewrite <- app_assoc. }
    assert (Hmid : forall target tail,
              In (os_kill target)
                 ((os_exec (j_command r)
                   :: map (fun sl => os_readline (fst sl)) (p_lines p))
                  ++ tail) ->
              In (os_kill target) tail).
    { intros target tail Hin. apply in_app_or in Hin.
      destruct Hin as [[H|H]|H]; auto; [discriminate|].
      now apply readlines_no_kill in H. }
    destruct (p_end p) as [c| |] eqn:Hend; [|destruct timeout as [t|]|].
    4:{ exists (os_exec (j_command r)
                :: map (fun sl => os_readline (fst sl)) (p_lines p)).
        simpl os_calls. split; [exact Hw3|].
        split; [intros H; now destruct (H p)|]. split.
        - intros target Hin. rewrite <- (app_nil_r (_ :: _)) in Hin.
          apply Hmid in Hin. destruct Hin.
        - intros _ target Hin. rewrite <- (app_nil_r (_ :: _)) in Hin.
          apply Hmid in Hin. destruct Hin. }
    + exists ((os_exec (j_command r)
               :: map (fun sl => os_readline (fst sl)) (p_lines p))
              ++ [os_wait]).
      simpl os_calls. rewrite Hw3, <- app_assoc. split; [reflexivity|].
      split; [intros H; now destruct (H p)|]. split.
      * intros target Hin. apply Hmid in Hin.
        destruct Hin as [H|[]]. discriminate.
      * intros _ target Hin. apply Hmid in Hin.
        destruct Hin as [H|[]]. discriminate.
    + exists ((os_exec (j_command r)
               :: map (fun sl => os_readline (fst sl)) (p_lines p))
              ++ [os_kill to_process; os_wait]).
      simpl os_calls. rewrite Hw3, <- !app_assoc. split; [reflexivity|].
      split; [intros H; now destruct (H p)|]. split.
      * intros target Hin. apply Hmid in Hin.
        destruct Hin as [H|[H|[]]]; [|discriminate].
        inversion H. split; [reflexivity|]. now exists p, t.
      * discriminate.
    + exists (os_exec (j_command r)
              :: map (fun sl => os_readline (fst sl)) (p_lines p)).
      simpl os_calls. split; [exact Hw3|].
      split; [intros H; now destruct (H p)|]. split.
      * intros target Hin. rewrite <- (app_nil_r (_ :: _)) in Hin.
        apply Hmid in Hin. destruct Hin.
      * intros _ target Hin. rewrite <- (app_nil_r (_ :: _)) in Hin.
        apply Hmid in Hin. destruct Hin.
Qed.

(** ** The status a run leaves *)

(** X13.  On its own [run_job] keeps status and exit code in step.  When
    it returns, the job exists and ends in one of three ways: [finished]
    with exit code 0 stored and returned; [failed] with the exit code of
    the child, or -1 when the command was not found, stored and returned,
    and not 0; or [timeout] with no exit code stored and -1 returned,
    which needs a timeout.  The meta of the job is as it was. *)
Theorem run_job_status_and_exit_code :
  forall (job_id : Z) (timeout : option Z) (os : spawn_outcome)
         (w w1 : world) (code : Z),
    run_job clock repr job_id timeout os w = (Returns code, w1) ->
    exists r r1,
      get_job job_id (store w) = Some r
      /\ get_job job_id (store w1) = Some r1
      /\ j_meta r1 = j_meta r
      /\ ((j_status r1 = "finished" /\ code = 0 /\ j_exit_code r1 = Some 0)
          \/ (j_status r1 = "failed" /\ code <> 0
              /\ j_exit_code r1 = Some code)
          \/ (j_status r1 = "timeout" /\ code = -1
              /\ j_exit_code r1 = None /\ timeout <> None)).
Proof.
  intros job_id timeout os w w1 code Hrun.
  destruct (get_job job_id (store w)) as [r|] eqn:Hget.
  2:{ rewrite (run_job_missing job_id timeout os w Hget) in Hrun.
      discriminate. }
  exists r.
  destruct os as [|e|p|b].
  - destruct (j_command r) as [|c cs] eqn:Hcmd.
    + unfold run_job in Hrun.
      rewrite (bind_returns _ _ w (Some r) w) in Hrun
        by (unfold store_get_job, gets; now rewrite Hget).
      rewrite Hcmd in Hrun. discriminate.
    + destruct (run_job_not_found_run clock repr job_id timeout w r c cs
                  Hget Hcmd)
        as (w' & Hrun' & (r' & Hget' & Hst & Hex & Hmeta) & _).
      rewrite Hrun' in Hrun. inversion Hrun. subst.
      exists r'. repeat split; auto. right. left. repeat split; auto.
      discriminate.
  - unfold run_job in Hrun.
    rewrite (bind_returns _ _ w (Some r) w) in Hrun
      by (unfold store_get_job, gets; now rewrite Hget).
    discriminate.
  - destruct (p_end p) as [c| |] eqn:Hend.
    + destruct (run_job_drained clock repr job_id timeout p c w r Hget Hend)
        as (w' & now & Hrun' & Hget' & _).
      rewrite Hrun' in Hrun. inversion Hrun. subst.
      eexists. split; [reflexivity|]. split; [exact Hget'|]. simpl.
      split; [reflexivity|].
      destruct (code =? 0) eqn:E.
      * apply Z.eqb_eq in E. subst. left. auto.
      * apply Z.eqb_neq in E. right. left. auto.
    + destruct timeout as [t|].
      * destruct (run_job_pending_run clock repr job_id t p w r Hget Hend)
          as (w' & Hrun' & _ & (r' & Hget' & Hst & Hex & Hmeta) & _).
        rewrite Hrun' in Hrun. inversion Hrun. subst.
        exists r'. repeat split; auto. right. right. repeat split; auto.
        discriminate.
      * unfold run_job in Hrun.
        rewrite (bind_returns _ _ w (Some r) w) in Hrun
          by (unfold store_get_job, gets; now rewrite Hget).
        set (wa := snd (store_update_job_status clock job_id "running"
                          None None w)) in *.
        rewrite (bind_returns _ _ w tt wa) in Hrun by reflexivity.
        set (wb := snd (os_do (os_exec (j_command r)) wa)) in *.
        rewrite (bind_returns _ _ wa tt wb) in Hrun by reflexivity.
        destruct (read_lines_run clock job_id (p_lines p) wb)
          as (wc & Hread & _).
        rewrite (bind_returns _ _ wb tt wc Hread) in Hrun.
        rewrite Hend in Hrun. discriminate.
    + exfalso.
      exact (run_job_lingering_run clock repr job_id timeout p w r Hget Hend
               code w1 Hrun).
  - unfold run_job in Hrun.
    rewrite (bind_returns _ _ w (Some r) w) in Hrun
      by (unfold store_get_job, gets; now rewrite Hget).
    discriminate.
Qed.

(** ** Sessions and scheduled jobs *)

(** X14.  [add_session] only appends: the sessions recorded before are
    kept, in order, and the new record comes last.  The record stored
    has every entry of the one given; a [first_seen] given by the caller
    is kept, and a record without one gets the current time.  The store
    is not touched. *)
Theorem add_session_appends :
  forall (session : dict) (w : world),
    exists stored,
      add_session clock session w
      = (Returns tt, set_sessions (fun ss => ss ++ [VDict stored])
                       (set_time_calls (S (time_calls w)) w))
      /\ (forall k v, dict_get session k = Some v ->
            dict_get stored k = Some v)
      /\ (dict_get session "first_seen" = None ->
          dict_get stored "first_seen" = Some (VInt (clock (time_calls w))))
      /\ (forall k, k <> "first_seen" ->
            dict_get stored k = dict_get session k).
Proof.
  intros session w. unfold add_session.
  destruct (dict_get session "first_seen") as [seen|] eqn:E.
  - exists session. split; [reflexivity|]. repeat split; auto.
    discriminate.
  - exists (dict_set session "first_seen" (VInt (clock (time_calls w)))).
    split; [reflexivity|]. split; [|split].
    + intros k v Hk. rewrite dict_get_set_other; auto. congruence.
    + intros _. apply dict_get_set_same.
    + intros k Hk. apply dict_get_set_other. congruence.
Qed.

Lemma dependencies_get_append_other deps parent child q :
  q <> parent ->
  dependencies_get (dependencies_append deps parent child) q
  = dependencies_get deps q.
Proof.
  intros Hq. induction deps as [|[p cs] deps IH]; simpl.
  - destruct (parent =? q) eqn:E; auto. apply Z.eqb_eq in E. congruence.
  - destruct (p =? parent) eqn:E; simpl.
    + apply Z.eqb_eq in E. subst p.
      destruct (parent =? q) eqn:E'; auto. apply Z.eqb_eq in E'. congruence.
    + now rewrite IH.
Qed.

(** X15.  In a store with ids in order, [schedule_job] returns the id of
    a new job that reads back as [pending] with the name and command
    given, and queues exactly that id.  The id is added to the children
    of the parent when a parent other than 0 is given; with no parent, or
    with parent 0, no dependency is recorded; the children of every other
    job are as they were. *)
Theorem schedule_job_records :
  forall (name : string) (command : list value) (cwd : option string)
         (env meta : option value) (parent_job : option Z) (w : world),
    store_ok (store w) ->
    exists w' r,
      schedule_job clock name command cwd env meta parent_job w
      = (Returns (jobs_seq (store w) + 1), w')
      /\ get_job (jobs_seq (store w) + 1) (store w) = None
      /\ get_job (jobs_seq (store w) + 1) (store w') = Some r
      /\ j_name r = name /\ j_command r = command
      /\ j_status r = "pending" /\ j_exit_code r = None
      /\ tasks w' = tasks w ++ [jobs_seq (store w) + 1]
      /\ (forall p, parent_job = Some p -> p <> 0 ->
            dependencies_get (dependencies w') p
            = dependencies_get (dependencies w) p
                ++ [jobs_seq (store w) + 1]
            /\ forall q, q <> p ->
                 dependencies_get (dependencies w') q
                 = dependencies_get (dependencies w) q)
      /\ (parent_job = None \/ parent_job = Some 0 ->
          dependencies w' = dependencies w)
      /\ store_ok (store w').
Proof.
  intros name command cwd env meta parent_job w Hok.
  destruct (create_job_get_job (clock (time_calls w)) name command cwd env
              meta (store w) Hok) as (Hfresh & Hget & _ & _).
  simpl in Hfresh, Hget.
  pose proof (store_ok_create_job (clock (time_calls w)) name command cwd
                env meta (store w) Hok) as Hok'.
  unfold schedule_job.
  destruct parent_job as [p|]; [destruct (p =? 0) eqn:Ep|].
  - apply Z.eqb_eq in Ep. subst p.
    eexists. eexists. split; [reflexivity|]. split; [exact Hfresh|].
    split; [exact Hget|]. simpl.
    do 5 (split; [reflexivity|]). split; [|split; [|exact Hok']].
    + intros p' Hp Hne. inversion Hp. congruence.
    + reflexivity.
  - eexists. eexists. unfold parent_truthy. rewrite Ep.
    split; [reflexivity|]. split; [exact Hfresh|].
    split; [exact Hget|]. simpl.
    do 5 (split; [reflexivity|]). split; [|split; [|exact Hok']].
    + intros p' Hp Hne. inversion Hp. subst p'. split.
      * apply dependencies_get_append.
      * intros q Hq. now apply dependencies_get_append_other.
    + intros [H|H]; inversion H. subst. apply Z.eqb_neq in Ep. congruence.
  - eexists. eexists. split; [reflexivity|]. split; [exact Hfresh|].
    split; [exact Hget|]. simpl.
    do 5 (split; [reflexivity|]). split; [|split; [|exact Hok']].
    + intros p' Hp. discriminate.
    + reflexivity.
Qed.

(** ** The parsers and the rules that read them *)

Lemma getnp_asreps_filter outs :
  getnp_asreps outs
  = map (fun o => VDict [("line", VStr (o_line o))])
        (filter getnp_matches outs).
Proof.
  induction outs as [|o outs IH]; simpl; auto.
  unfold getnp_matches at 1.
  destruct (String.eqb (o_source o) "stdout"); simpl; auto.
  destruct (contains "$krb5asrep$" (o_line o)
            || contains "ASREPRoast" (o_line o)
            || contains "AS-REP" (o_line o)); simpl; now rewrite IH.
Qed.

(** X16.  [parser_impacket_getnp] never raises.  It returns [None] when
    no row of stdout contains one of the marks [$krb5asrep$],
    [ASREPRoast], [AS-REP], and otherwise a dict whose [asreps] are the
    rows of stdout that contain one, each once and in the order of the
    output; rows of stderr and of the system are not looked at. *)
Theorem parser_impacket_getnp_result :
  forall (outs : list output_row),
    parser_impacket_getnp outs
    = inr (match filter getnp_matches outs with
           | [] => VNone
           | kept =>
               VDict [("asreps",
                       VList (map (fun o => VDict [("line", VStr (o_line o))])
                                  kept))]
           end)
    /\ forall o, In o (filter getnp_matches outs) ->
                 In o outs /\ o_source o = "stdout".
Proof.
  intros outs. split.
  - unfold parser_impacket_getnp. rewrite getnp_asreps_filter.
    now destruct (filter getnp_matches outs).
  - intros o Hin. apply filter_In in Hin. destruct Hin as [Hin Hm].
    split; auto. unfold getnp_matches in Hm.
    apply andb_true_iff in Hm. destruct Hm as [Hs _].
    now apply String.eqb_eq in Hs.
Qed.

Lemma hash_sessions_run job_id items :
  forall w, exists w' ss,
    for_each items
      (fun h => add_session clock
                  [("type", VStr "hash"); ("source_job", VInt job_id);
                   ("details", h)]) w
    = (Returns tt, w')
    /\ sessions w' = sessions w ++ ss
    /\ Forall2 (is_hash_session job_id) items ss
    /\ store w' = store w /\ tasks w' = tasks w
    /\ dependencies w' = dependencies w.
Proof.
  induction items as [|h items IH]; intros w.
  - exists w, []. simpl. rewrite app_nil_r. repeat split; auto.
  - simpl for_each.
    set (w1 := snd (add_session clock
                      [("type", VStr "hash"); ("source_job", VInt job_id);
                       ("details", h)] w)).
    rewrite (bind_returns _ _ w tt w1) by reflexivity.
    destruct (IH w1) as (w' & ss & Hr & Hse & Hss & Hst & Ht & Hd).
    exists w'. eexists. split; [exact Hr|]. rewrite Hse, Hst, Ht, Hd.
    subst w1. simpl. rewrite <- app_assoc. simpl.
    split; [reflexivity|]. split; [|auto].
    constructor; auto. eexists. reflexivity.
Qed.

(** X17.  The rule on recovered hashes, on what [parser_impacket_getnp]
    returns.  When the parser returns a true value for the outputs of a
    job (and the two other results the rules read are absent),
    [_apply_rules] returns after having appended one session record of
    type [hash] for each row the parser kept, in order, with that row as
    details, and then one row of source [system] that gives their
    number; it schedules no job and records no dependency. *)
Theorem getnp_rule_records_hashes :
  forall (outs : list output_row) (job_id : Z) (parsed_results : dict)
         (pr : value) (w : world),
    parser_impacket_getnp outs = inr pr ->
    truthy pr = true ->
    dict_get parsed_results "nmap_xml" = None ->
    dict_get parsed_results "impacket_getnp" = Some pr ->
    dict_get parsed_results "crackmapexec_json" = None ->
    let kept := filter getnp_matches outs in
    exists w' ss o,
      _apply_rules clock repr job_id parsed_results w = (Returns tt, w')
      /\ sessions w' = sessions w ++ ss
      /\ Forall2 (is_hash_session job_id)
           (map (fun o => VDict [("line", VStr (o_line o))]) kept) ss
      /\ outputs (store w') = outputs (store w) ++ [o]
      /\ output_says o
         = (job_id, "system",
            ("FOUND " ++ str_int (Z.of_nat (List.length kept))
               ++ " AS-REP hashes; stored in sessions")%string)
      /\ jobs (store w') = jobs (store w)
      /\ tasks w' = tasks w /\ dependencies w' = dependencies w.
Proof.
  intros outs job_id parsed_results pr w Hparse Htr Hnmap Hgetnp Hcme kept.
  unfold parser_impacket_getnp in Hparse.
  rewrite getnp_asreps_filter in Hparse. fold kept in Hparse.
  destruct kept as [|k kept'] eqn:Hkept.
  - inversion Hparse. subst pr. discriminate.
  - simpl in Hparse. inversion Hparse. subst pr. clear Hparse Htr.
    set (items := VDict [("line", VStr (o_line k))]
                  :: map (fun o => VDict [("line", VStr (o_line o))]) kept').
    unfold _apply_rules, dict_get_or_none. rewrite Hnmap, Hgetnp, Hcme.
    cbn [truthy].
    rewrite (bind_returns _ _ w tt w) by reflexivity.
    destruct (hash_sessions_run job_id items w)
      as (w1 & ss & Hr & Hse & Hss & Hst & Ht & Hd).
    eexists. exists ss. eexists. split.
    + erewrite bind_returns; [reflexivity|].
      rewrite (bind_returns _ _ w (VList items) w) by reflexivity.
      cbn [truthy items].
      rewrite (bind_returns _ _ w items w) by reflexivity.
      rewrite (bind_returns _ _ w tt w1 Hr). reflexivity.
    + simpl. rewrite Hst, Ht, Hd. simpl.
      split; [exact Hse|]. split; [exact Hss|].
      split; [reflexivity|]. split; [|auto].
      unfold output_says. simpl. subst items. simpl.
      now rewrite length_map.
Qed.

(** X18.  [parser_rdp_check] never raises and looks at the rows of every
    source, stderr and system rows included: it returns
    [{'rdp_auth_success': True}] exactly when some row contains
    [Authentication only, exit status 0], and [None] otherwise. *)
Theorem parser_rdp_check_result :
  forall (outs : list output_row),
    parser_rdp_check outs
    = inr (if existsb (fun o => contains "Authentication only, exit status 0"
                                         (o_line o)) outs
           then VDict [("rdp_auth_success", VBool true)] else VNone)
    /\ ((exists o, In o outs
                   /\ contains "Authentication only, exit status 0"
                               (o_line o) = true)
        <-> parser_rdp_check outs
            = inr (VDict [("rdp_auth_success", VBool true)])).
Proof.
  intros outs.
  assert (Heq : parser_rdp_check outs
                = inr (if existsb
                            (fun o => contains
                                        "Authentication only, exit status 0"
                                        (o_line o)) outs
                       then VDict [("rdp_auth_success", VBool true)]
                       else VNone)).
  { induction outs as [|o outs IH]; [reflexivity|].
    cbn [parser_rdp_check existsb].
    destruct (contains "Authentication only, exit status 0" (o_line o));
      auto. }
  split; [exact Heq|]. rewrite Heq. split.
  - intros Hex. apply existsb_exists in Hex. now rewrite Hex.
  - intros H.
    destruct (existsb _ outs) eqn:E; [|discriminate].
    now apply existsb_exists in E.
Qed.

Lemma fullmatch_hex32_empty : fullmatch_hex32 EmptyString = false.
Proof. reflexivity. Qed.

Lemma secretsdump_condition parts :
  (4 <=? List.length parts)%nat
  && fullmatch_hex32
       (if (3 <? List.length parts)%nat
        then nth 3 parts EmptyString else EmptyString)
  = fullmatch_hex32 (nth 3 parts EmptyString).
Proof.
  destruct (3 <? List.length parts)%nat eqn:E.
  - apply Nat.ltb_lt in E.
    replace (4 <=? List.length parts)%nat with true; auto.
    symmetry. apply Nat.leb_le. lia.
  - apply Nat.ltb_ge in E. rewrite nth_overflow by lia.
    rewrite fullmatch_hex32_empty. apply andb_false_r.
Qed.

Lemma secretsdump_hashes_filter outs :
  secretsdump_hashes outs
  = map (fun o => VDict [("line", VStr (o_line o))])
        (filter secretsdump_matches outs).
Proof.
  induction outs as [|o outs IH]; [reflexivity|].
  cbn [secretsdump_hashes filter]. unfold secretsdump_matches at 1.
  rewrite secretsdump_condition.
  destruct (String.eqb (o_source o) "stdout"); cbn [negb andb]; auto.
  destruct (fullmatch_hex32 (nth 3 (split ":" (o_line o)) EmptyString));
    cbn [map]; now rewrite IH.
Qed.

Lemma split_field u s :
  no_colon u = true ->
  split ":" (u ++ String ":" s) = u :: split ":" s.
Proof.
  induction u as [|c u IH]; simpl; intros Hu; auto.
  apply andb_true_iff in Hu. destruct Hu as [Hc Hu].
  apply negb_true_iff in Hc. rewrite Hc. now rewrite (IH Hu).
Qed.

Lemma split_last u : no_colon u = true -> split ":" u = [u].
Proof.
  induction u as [|c u IH]; simpl; intros Hu; auto.
  apply andb_true_iff in Hu. destruct Hu as [Hc Hu].
  apply negb_true_iff in Hc. rewrite Hc. now rewrite (IH Hu).
Qed.

Lemma all_hex_no_colon s : all_hex s = true -> no_colon s = true.
Proof.
  induction s as [|c s IH]; simpl; auto. intros H.
  apply andb_true_iff in H. destruct H as [Hc Hs]. rewrite (IH Hs).
  rewrite andb_true_r. apply negb_true_iff.
  destruct (Ascii.eqb c ":") eqn:E; auto.
  apply Ascii.eqb_eq in E. subst c. discriminate.
Qed.

(** X19.  [parser_impacket_secretsdump] never raises.  It returns [None]
    when it keeps no row, and otherwise a dict whose [hashes] are the rows
    it keeps, whole, each once and in the order of the output.  It keeps
    the rows of stdout whose fourth field between colons is exactly 32
    hexadecimal digits: a row [user:rid:lm:nt] or [user:rid:lm:nt:...]
    whose first three fields hold no colon and whose [nt] is 32
    hexadecimal digits is kept. *)
Theorem parser_impacket_secretsdump_result :
  (forall outs,
     parser_impacket_secretsdump outs
     = inr (match filter secretsdump_matches outs with
            | [] => VNone
            | kept =>
                VDict [("hashes",
                        VList (map (fun o =>
                                      VDict [("line", VStr (o_line o))])
                                   kept))]
            end))
  /\ forall (o : output_row) (user rid lm nt rest : string),
      o_source o = "stdout" ->
      no_colon user = true -> no_colon rid = true -> no_colon lm = true ->
      fullmatch_hex32 nt = true ->
      o_line o
      = (user ++ String ":" (rid ++ String ":" (lm ++ String ":" nt)))%string
      \/ o_line o
         = (user ++ String ":" (rid ++ String ":" (lm ++ String ":"
              (nt ++ String ":" rest))))%string ->
      secretsdump_matches o = true.
Proof.
  split.
  - intros outs. unfold parser_impacket_secretsdump.
    rewrite secretsdump_hashes_filter.
    now destruct (filter secretsdump_matches outs).
  - intros o user rid lm nt rest Hsrc Hu Hr Hl Hnt Hline.
    unfold secretsdump_matches. rewrite Hsrc.
    change (String.eqb "stdout" "stdout") with true. cbn [andb].
    assert (Hc : no_colon nt = true).
    { apply all_hex_no_colon. unfold fullmatch_hex32 in Hnt.
      apply andb_true_iff in Hnt. tauto. }
    destruct Hline as [-> | ->].
    + rewrite !split_field by assumption. rewrite split_last by assumption.
      exact Hnt.
    + rewrite !split_field by assumption. exact Hnt.
Qed.

Lemma cme_scan_shape json_loads strip outs :
  forall creds services cs creds' services',
    creds = map cred_value cs ->
    cme_scan json_loads strip outs creds services = inr (creds', services') ->
    exists cs', creds' = map cred_value cs'.
Proof.
  induction outs as [|o outs IH];
    intros creds services cs creds' services' Hc H; simpl in H.
  - inversion H. subst. eauto.
  - destruct (negb (String.eqb (o_source o) "stdout")); [eapply IH; eauto|].
    destruct (String.eqb (strip (o_line o)) ""); [eapply IH; eauto|].
    destruct (json_loads (strip (o_line o))) as [e|v]; [eapply IH; eauto|].
    destruct v as [| | | | |obj]; try (eapply IH; eauto; fail).
    destruct (truthy (py_or (dict_get_or_none obj "authentication")
                            (dict_get_or_none obj "auth")));
      [|eapply IH; eauto].
    destruct (py_get _ "success" VNone) as [e|success]; [discriminate|].
    destruct (truthy success); [|eapply IH; eauto].
    destruct (py_get _ "username" VNone) as [e|username]; [discriminate|].
    destruct (py_get _ "password" VNone) as [e|password]; [discriminate|].
    eapply (IH _ _ (cs ++ [mk_credential (dict_get_or_none obj "target")
                             username password])); [|exact H].
    rewrite map_app. subst creds. reflexivity.
Qed.

(** X20.  What [parser_crackmapexec_json] returns, the rule on validated
    credentials can read.  Whatever [json.loads] and [strip] do, a result
    of the parser is [None] or a dict that is not empty, in which
    [valid_credentials], when present, is a list that is not empty of
    dicts with the entries [ip], [username] and [password]; and
    [_apply_rules] on that result alone, for a job with an id other than
    0, returns normally with one session record of type [cred] for each
    of these credentials, in order. *)
Theorem parser_crackmapexec_json_feeds_rule :
  forall (json_loads : string -> exn + value) (strip : string -> string)
         (outs : list output_row) (pr : value),
    parser_crackmapexec_json json_loads strip outs = inr pr ->
    exists creds,
      ((pr = VNone /\ creds = [])
       \/ exists d,
            pr = VDict d /\ d <> []
            /\ dict_get d "valid_credentials"
               = match creds with
                 | [] => None
                 | _ => Some (VList (map cred_value creds))
                 end)
      /\ forall (job_id : Z) (w : world),
           job_id <> 0 ->
           exists w' ss,
             _apply_rules clock repr job_id [("crackmapexec_json", pr)] w
             = (Returns tt, w')
             /\ sessions w' = sessions w ++ ss
             /\ Forall2 (is_cred_session job_id) creds ss.
Proof.
  intros json_loads strip outs pr Hparse.
  unfold parser_crackmapexec_json in Hparse.
  destruct (cme_scan json_loads strip outs [] []) as [e|[creds services]]
    eqn:Hscan; [discriminate|].
  destruct (cme_scan_shape json_loads strip outs [] [] [] creds services
              eq_refl Hscan) as [cs Hcs].
  subst creds. exists cs.
  assert (Hrule : forall d job_id w,
            job_id <> 0 -> d <> [] ->
            dict_get d "valid_credentials"
            = match cs with
              | [] => None
              | _ => Some (VList (map cred_value cs))
              end ->
            exists w' ss,
              _apply_rules clock repr job_id
                [("crackmapexec_json", VDict d)] w = (Returns tt, w')
              /\ sessions w' = sessions w ++ ss
              /\ Forall2 (is_cred_session job_id) cs ss).
  { intros d job_id w Hid Hd Hget.
    unfold _apply_rules, dict_get_or_none.
    replace (dict_get [("crackmapexec_json", VDict d)] "nmap_xml")
      with (@None value) by reflexivity.
    replace (dict_get [("crackmapexec_json", VDict d)] "impacket_getnp")
      with (@None value) by reflexivity.
    replace (dict_get [("crackmapexec_json", VDict d)] "crackmapexec_json")
      with (Some (VDict d)) by reflexivity.
    assert (Htr : truthy (VDict d) = true).
    { destruct d; [now destruct Hd | reflexivity]. }
    rewrite Htr. cbn [truthy].
    rewrite (bind_returns _ _ w tt w) by reflexivity.
    rewrite (bind_returns _ _ w tt w) by reflexivity.
    rewrite (bind_returns _ _ w (VList (map cred_value cs)) w).
    2:{ simpl. rewrite Hget. now destruct cs. }
    rewrite (bind_returns _ _ w (map cred_value cs) w) by reflexivity.
    destruct (cme_creds_run clock repr job_id cs Hid w)
      as (w' & ss & os & Hr & Hse & Hss & _).
    now exists w', ss. }
  destruct cs as [|c cs]; destruct services as [|s services];
    simpl in Hparse; inversion Hparse; subst pr; clear Hparse.
  - split; [now left|]. intros job_id w Hid. exists w, [].
    rewrite app_nil_r. repeat split. constructor.
  - split.
    + right. eexists. split; [reflexivity|]. split; [discriminate|].
      reflexivity.
    + intros job_id w Hid. apply Hrule; auto. discriminate.
  - split.
    + right. eexists. split; [reflexivity|]. split; [discriminate|].
      reflexivity.
    + intros job_id w Hid. apply Hrule; auto. discriminate.
  - split.
    + right. eexists. split; [reflexivity|]. split; [discriminate|].
      reflexivity.
    + intros job_id w Hid. apply Hrule; auto. discriminate.
Qed.

(** X21.  The handler of [POST /api/auto_exploit].  When
    [request.get_json()] raises, the exception leaves the handler and the
    gate stays as it was.  When it returns an object, the gate is set to
    the truth value of its entry [enable] and reported in the answer:
    every true value enables the gate, a string that is not empty
    included, and a missing entry, [null], [false], 0 or [''] disables
    it.  When it returns a false value ([null], [false], 0, [''], an
    empty array or object) the gate is disabled.  Nothing but the gate
    changes.  A parsed body that is a true value and not an object makes
    the handler raise and leaves the gate as it was. *)
Theorem api_auto_exploit_sets_gate :
  (forall (e : exn) (w : world),
     api_auto_exploit (inl e) w = (Raises e, w))
  /\ (forall (d : dict) (w : world),
        api_auto_exploit (inr (VDict d)) w
        = (Returns (VDict [("ok", VBool true);
                           ("auto_exploit",
                            VBool (truthy (dict_get_or_none d "enable")))]),
           set_allow (truthy (dict_get_or_none d "enable")) w))
  /\ (forall (body : value) (w : world),
        truthy body = false ->
        api_auto_exploit (inr body) w
        = (Returns (VDict [("ok", VBool true);
                           ("auto_exploit", VBool false)]),
           set_allow false w))
  /\ (forall (body : value) (w : world),
        truthy body = true -> (forall d, body <> VDict d) ->
        exists e, api_auto_exploit (inr body) w = (Raises e, w)).
Proof.
  split; [|split; [|split]].
  - reflexivity.
  - intros d w. unfold api_auto_exploit.
    rewrite (bind_returns _ _ w (VDict d) w) by reflexivity.
    unfold py_or, dict_get_or_none.
    destruct d as [|kv d]; simpl.
    + reflexivity.
    + destruct kv as [k v]. destruct (String.eqb k "enable"); reflexivity.
  - intros body w Hf. unfold api_auto_exploit.
    rewrite (bind_returns _ _ w body w) by reflexivity.
    unfold py_or. rewrite Hf. reflexivity.
  - intros body w Htr Hnd. unfold api_auto_exploit.
    rewrite (bind_returns _ _ w body w) by reflexivity.
    unfold py_or. rewrite Htr.
    destruct body; try (eexists; reflexivity).
    now destruct (Hnd d).
Qed.

(** ** The gate disabled *)

Lemma schedules_nothing_trans w1 w2 w3 :
  schedules_nothing w1 w2 -> schedules_nothing w2 w3 ->
  schedules_nothing w1 w3.
Proof.
  intros (A1 & B1 & C1 & D1 & E1) (A2 & B2 & C2 & D2 & E2).
  repeat split; congruence.
Qed.

Ltac idle_same := intros w _; repeat split.

Lemma idle_ret {A} (a : A) : idle_when_off (ret a).
Proof. idle_same. Qed.

Lemma idle_raise {A} (e : exn) : idle_when_off (@raise A e).
Proof. idle_same. Qed.

Lemma idle_lift {A} (r : exn + A) : idle_when_off (lift r).
Proof. destruct r; [apply idle_raise | apply idle_ret]. Qed.

Lemma idle_bind {A B} (m : M A) (k : A -> M B) :
  idle_when_off m -> (forall a, idle_when_off (k a)) ->
  idle_when_off (bind m k).
Proof.
  intros Hm Hk w Hoff. unfold bind. specialize (Hm w Hoff).
  destruct (m w) as [[a|e| |be] w']; simpl in *; auto.
  eapply schedules_nothing_trans; [exact Hm|]. apply Hk.
  destruct Hm as (_ & _ & _ & _ & Ha). congruence.
Qed.

Lemma idle_for_each {A} (l : list A) (body : A -> M unit) :
  (forall x, idle_when_off (body x)) -> idle_when_off (for_each l body).
Proof.
  intros Hb. induction l as [|x l IH]; simpl.
  - apply idle_ret.
  - apply idle_bind; auto.
Qed.

Lemma idle_add_session session : idle_when_off (add_session clock session).
Proof. idle_same. Qed.

Lemma idle_store_append_output job_id source line :
  idle_when_off (store_append_output clock job_id source line).
Proof. idle_same. Qed.

Lemma idle_cme_cred job_id cred :
  idle_when_off (cme_cred clock repr job_id cred).
Proof.
  unfold cme_cred. apply idle_bind; [apply idle_add_session|]. intros _.
  apply idle_bind; [apply idle_store_append_output|]. intros _.
  intros w Hoff. unfold bind, gets. rewrite Hoff. repeat split.
Qed.

(** X22.  With the gate disabled and no host to enumerate, the rules
    schedule nothing.  Whatever the results of the parsers hold, of any
    shape, and whether [_apply_rules] returns or raises: when the gate is
    disabled and the result of [nmap_xml] is missing or empty, no job is
    created, queued or recorded as a child, and the gate stays disabled. *)
Theorem gate_off_schedules_nothing :
  forall (job_id : Z) (parsed_results : dict) (w : world),
    allow w = false ->
    truthy (dict_get_or_none parsed_results "nmap_xml") = false ->
    let w' := snd (_apply_rules clock repr job_id parsed_results w) in
    jobs (store w') = jobs (store w)
    /\ tasks w' = tasks w
    /\ dependencies w' = dependencies w
    /\ allow w' = false.
Proof.
  intros job_id parsed_results w Hoff Hnmap w'.
  assert (Hidle :
    idle_when_off (_apply_rules clock repr job_id parsed_results)).
  { unfold _apply_rules. rewrite Hnmap.
    apply idle_bind; [apply idle_ret|]. intros _.
    apply idle_bind.
    - destruct (truthy (dict_get_or_none parsed_results "impacket_getnp"));
        [|apply idle_ret].
      apply idle_bind; [apply idle_lift|]. intros asreps.
      destruct (truthy asreps); [|apply idle_ret].
      apply idle_bind; [apply idle_lift|]. intros items.
      apply idle_bind; [|intros _; apply idle_store_append_output].
      apply idle_for_each. intros h. apply idle_add_session.
    - intros _.
      destruct (truthy (dict_get_or_none parsed_results "crackmapexec_json"));
        [|apply idle_ret].
      apply idle_bind; [apply idle_lift|]. intros creds.
      apply idle_bind; [apply idle_lift|]. intros items.
      apply idle_for_each. intros cred. apply idle_cme_cred. }
  destruct (Hidle w Hoff) as (Hj & _ & Ht & Hd & Ha).
  subst w'. repeat split; auto. congruence.
Qed.

(** ** The meta of a job through the pipeline *)

Section KeepsMeta.

Variable k : Z.

Ltac keeps_same := intros w r Hget; exists r; split; [exact Hget | auto].

Lemma keeps_ret {A} (a : A) : keeps_meta k (ret a).
Proof. keeps_same. Qed.

Lemma keeps_raise {A} (e : exn) : keeps_meta k (@raise A e).
Proof. keeps_same. Qed.

Lemma keeps_hang {A} : keeps_meta k (@hang A).
Proof. keeps_same. Qed.

Lemma keeps_lift {A} (r : exn + A) : keeps_meta k (lift r).
Proof. destruct r; [apply keeps_raise | apply keeps_ret]. Qed.

Lemma keeps_gets {A} (f : world -> A) : keeps_meta k (gets f).
Proof. keeps_same. Qed.

Lemma keeps_bind {A B} (m : M A) (f : A -> M B) :
  keeps_meta k m -> (forall a, keeps_meta k (f a)) -> keeps_meta k (bind m f).
Proof.
  intros Hm Hf w r Hget. unfold bind.
  destruct (Hm w r Hget) as (r1 & Hget1 & Hkeys1).
  destruct (m w) as [[a|e| |be] w1]; simpl in *; eauto.
  destruct (Hf a w1 r1 Hget1) as (r2 & Hget2 & Hkeys2).
  exists r2. split; auto. intros key Hkey.
  rewrite Hkeys2 by assumption. now apply Hkeys1.
Qed.

Lemma keeps_try_except {A} (m : M A) (handler : exn -> M A) :
  keeps_meta k m -> (forall e, keeps_meta k (handler e)) ->
  keeps_meta k (try_except m handler).
Proof.
  intros Hm Hh w r Hget. unfold try_except.
  destruct (Hm w r Hget) as (r1 & Hget1 & Hkeys1).
  destruct (m w) as [[a|e| |be] w1]; simpl in *; eauto.
  destruct (Hh e w1 r1 Hget1) as (r2 & Hget2 & Hkeys2).
  exists r2. split; auto. intros key Hkey.
  rewrite Hkeys2 by assumption. now apply Hkeys1.
Qed.

Lemma keeps_for_each {A} (l : list A) (body : A -> M unit) :
  (forall x, keeps_meta k (body x)) -> keeps_meta k (for_each l body).
Proof.
  intros Hb. induction l as [|x l IH]; simpl.
  - apply keeps_ret.
  - apply keeps_bind; auto.
Qed.

Lemma keeps_time_time : keeps_meta k (time_time clock).
Proof. keeps_same. Qed.

Lemma keeps_store_append_output job_id source line :
  keeps_meta k (store_append_output clock job_id source line).
Proof. keeps_same. Qed.

Lemma keeps_store_update_status job_id status exit_code :
  keeps_meta k (store_update_job_status clock job_id status exit_code None).
Proof.
  intros w r Hget. simpl. rewrite get_job_update, Hget. simpl.
  eexists. split; [reflexivity|]. intros key _. unfold update_row.
  now destruct (j_id r =? job_id).
Qed.

Lemma keeps_store_create_job name command cwd env meta :
  keeps_meta k (store_create_job clock name command cwd env meta).
Proof.
  intros w r Hget. exists r. split; [|auto]. simpl.
  unfold get_job in *. simpl. now apply find_app_some.
Qed.

Lemma keeps_notify job_id source line :
  keeps_meta k (_notify clock job_id source line).
Proof. keeps_same. Qed.

Lemma keeps_os_do c : keeps_meta k (os_do c).
Proof. keeps_same. Qed.

Lemma keeps_set_logfiles f : keeps_meta k (modify (set_logfiles f)).
Proof. keeps_same. Qed.

Lemma keeps_set_dependencies f : keeps_meta k (modify (set_dependencies f)).
Proof. keeps_same. Qed.

Lemma keeps_set_tasks f : keeps_meta k (modify (set_tasks f)).
Proof. keeps_same. Qed.

Lemma keeps_add_session session : keeps_meta k (add_session clock session).
Proof. keeps_same. Qed.

Create HintDb keeps.

#[local] Hint Resolve keeps_ret keeps_raise keeps_hang keeps_lift keeps_gets
  keeps_time_time keeps_store_append_output keeps_store_update_status
  keeps_store_create_job keeps_notify keeps_os_do keeps_set_logfiles
  keeps_set_dependencies keeps_set_tasks keeps_add_session : keeps.

Ltac keeps_steps :=
  repeat (first
    [ solve [auto with keeps]
    | apply keeps_bind; [|intros ?]
    | apply keeps_for_each; intros ?
    | apply keeps_try_except; [|intros ?]
    | match goal with
      | |- keeps_meta _ (if ?b then _ else _) => destruct b
      | |- keeps_meta _ (match ?x with _ => _ end) => destruct x
      | |- keeps_meta _ (let (_, _) := ?x in _) => destruct x
      end ]).

Lemma keeps_run_job job_id timeout os :
  keeps_meta k (run_job clock repr job_id timeout os).
Proof. unfold run_job, read_line. keeps_steps. Qed.

Lemma keeps_apply_rules job_id parsed_results :
  keeps_meta k (_apply_rules clock repr job_id parsed_results).
Proof.
  unfold _apply_rules, nmap_host, schedule_enumeration, cme_cred,
    _launch_exploits_for_cred, schedule_job.
  keeps_steps.
Qed.

Lemma attach_keeps_keys meta name pr meta' :
  attach_parser_result meta name pr = inr meta' ->
  forall key, key <> "parsers" -> meta_entry meta' key = meta_entry meta key.
Proof.
  intros Hatt key Hkey. destruct meta as [| | | | |d]; try discriminate.
  simpl in Hatt.
  destruct (dict_get d "parsers") as [[| | | | |ps]|];
    inversion Hatt; subst; simpl; apply dict_get_set_other; congruence.
Qed.

Lemma keeps_run_parser job_id outs parsed_results np :
  keeps_meta k (run_parser clock job_id outs parsed_results np).
Proof.
  destruct np as [name parse]. unfold run_parser.
  apply keeps_bind; [destruct (parse outs); keeps_steps|]. intros pr.
  destruct (truthy pr); [|apply keeps_ret].
  intros w r Hget. unfold bind at 1. unfold store_get_job, gets.
  destruct (get_job job_id (store w)) as [job|] eqn:Hjob; [|eauto].
  destruct (attach_parser_result (j_meta job) name pr) as [e|meta'] eqn:Hatt;
    [eauto|].
  simpl. rewrite get_job_update, Hget. simpl.
  eexists. split; [reflexivity|]. intros key Hkey. unfold update_row.
  destruct (j_id r =? job_id) eqn:E; auto. simpl.
  apply Z.eqb_eq in E.
  assert (Hsame : job = r).
  { pose proof (get_job_id _ _ _ Hget) as Hk.
    assert (k = job_id) by congruence. subst k. congruence. }
  subst job. now apply (attach_keeps_keys _ _ _ _ Hatt).
Qed.

Lemma keeps_run_parsers job_id outs registry :
  forall parsed_results,
    keeps_meta k (run_parsers clock job_id outs parsed_results registry).
Proof.
  induction registry as [|np registry IH]; intros parsed_results; simpl.
  - apply keeps_ret.
  - apply keeps_bind; [apply keeps_run_parser|]. intros a. apply IH.
Qed.

Lemma keeps_run_and_process registry job_id os :
  keeps_meta k (_run_and_process clock repr registry job_id os).
Proof.
  unfold _run_and_process.
  apply keeps_bind.
  - apply keeps_try_except.
    + apply keeps_bind; [apply keeps_run_job | intros; apply keeps_ret].
    + intros e. keeps_steps.
  - intros ran. destruct ran; [|apply keeps_ret].
    apply keeps_bind; [apply keeps_gets|]. intros outs.
    apply keeps_bind; [apply keeps_run_parsers|]. intros pres.
    apply keeps_apply_rules.
Qed.

End KeepsMeta.

(** X23.  What the operator put in the meta of a job survives every
    pipeline.  Whatever job is run, with whatever registry and outcome
    (the run or a parser may raise, the rules may raise, the wait may
    never end), every job of the store is still there at the end, and
    every entry of its meta other than [parsers] is as it was: the
    orchestrator, which rewrites the whole meta when it attaches a
    result, carries the other entries over. *)
Theorem pipeline_keeps_meta_entries :
  forall (registry : list (string * parser)) (job_id k : Z)
         (os : spawn_outcome) (w : world) (r : job_row),
    get_job k (store w) = Some r ->
    exists r',
      get_job k
        (store (snd (_run_and_process clock repr registry job_id os w)))
      = Some r'
      /\ forall key, key <> "parsers" ->
           meta_entry (j_meta r') key = meta_entry (j_meta r) key.
Proof.
  intros registry job_id k os w r Hget.
  now apply (keeps_run_and_process k registry job_id os w r).
Qed.

End MoreProperties.


Lemma run_and_process_handles_exception_witness :
  exists w',
    _run_and_process example_clock example_repr example_registry 42
      spawn_not_found example_world = (Returns tt, w')
    /\ sessions w' = sessions example_world.
Proof.
  assert (Hfits : fits_int64 42) by (unfold fits_int64; lia).
  destruct (proj1 (run_and_process_handles_exception example_clock
                     example_repr example_registry 42 spawn_not_found
                     example_world example_world Hfits)
              (Exception "ValueError" "no such job") eq_refl)
    as (w' & Hrun & _ & _ & _ & Hse & _).
  exists w'. split; [exact Hrun | exact Hse].
Defined.

Lemma run_of_missing_job_witness :
  run_job example_clock example_repr 42 None spawn_not_found example_world
  = (Raises (Exception "ValueError" "no such job"), example_world).
Proof.
  assert (Hfits : fits_int64 42) by (unfold fits_int64; lia).
  destruct (run_of_missing_job example_clock example_repr example_registry
              42 None spawn_not_found example_world Hfits eq_refl)
    as [Hrun _].
  exact Hrun.
Defined.

Lemma run_job_spawn_exception_witness :
  (exists w1,
     run_job example_clock example_repr 1 None
       (spawn_raises (Exception "PermissionError" "[Errno 13]"))
       example_world
     = (Raises (Exception "PermissionError" "[Errno 13]"), w1)
     /\ outputs (store w1) = outputs (store example_world))
  /\ exists w1 r1,
       _run_and_process example_clock example_repr example_registry 1
         (spawn_escapes CancelledError) example_world
       = (Escapes CancelledError, w1)
       /\ get_job 1 (store w1) = Some r1 /\ j_status r1 = "running".
Proof.
  destruct (run_job_spawn_exception example_clock example_repr
              example_registry 1 None example_world
              (mk_job 1 0 0 "echo" [VStr "echo"; VStr "hello"] "" (VDict [])
                      "pending" None (VDict [("phase", VStr "discovery")]))
              eq_refl)
    as (Hraise & Hescape).
  split.
  - destruct (Hraise (Exception "PermissionError" "[Errno 13]"))
      as ((w1 & Hrun & _ & Hout & _) & _).
    exists w1. split; [exact Hrun | exact Hout].
  - destruct (Hescape CancelledError)
      as (w1 & r1 & _ & Hrun & Hget & Hst & _).
    exists w1, r1. auto.
Defined.

Lemma run_job_status_and_exit_code_witness :
  exists r1,
    get_job 1 (store (snd (run_job example_clock example_repr 1 None
                             (spawned rdp_process) rdp_world))) = Some r1
    /\ j_meta r1 = VDict [].
Proof.
  destruct (run_job_status_and_exit_code example_clock example_repr 1 None
              (spawned rdp_process) rdp_world
              (snd (run_job example_clock example_repr 1 None
                      (spawned rdp_process) rdp_world)) 0 eq_refl)
    as (r & r1 & Hget & Hget1 & Hmeta & _).
  exists r1. split; [exact Hget1|].
  rewrite Hmeta. vm_compute in Hget. inversion Hget. reflexivity.
Defined.

Lemma example_store_ok : store_ok (store example_world).
Proof.
  change (store example_world) with example_store. unfold example_store.
  apply store_ok_append_output, store_ok_append_output,
    store_ok_create_job, store_ok_init.
Qed.

Lemma schedule_job_records_witness :
  exists w' r,
    schedule_job example_clock "enum4linux"
      [VStr "enum4linux-ng"; VStr "-a"; VStr "10.0.0.5"] None None None
      (Some 1) example_world = (Returns 2, w')
    /\ get_job 2 (store w') = Some r
    /\ tasks w' = [2].
Proof.
  destruct (schedule_job_records example_clock "enum4linux"
              [VStr "enum4linux-ng"; VStr "-a"; VStr "10.0.0.5"] None None
              None (Some 1) example_world)
    as (w' & r & Hrun & _ & Hget & _ & _ & _ & _ & Htasks & _).
  - exact example_store_ok.
  - exists w', r. split; [exact Hrun|]. split; [exact Hget | exact Htasks].
Defined.

Lemma getnp_rule_records_hashes_witness :
  exists w' ss o,
    _apply_rules example_clock example_repr 1
      [("impacket_getnp", asrep_result)] example_world = (Returns tt, w')
    /\ sessions w' = sessions example_world ++ ss
    /\ outputs (store w') = outputs (store example_world) ++ [o].
Proof.
  destruct (getnp_rule_records_hashes example_clock example_repr
              asrep_outputs 1 [("impacket_getnp", asrep_result)]
              asrep_result example_world
              eq_refl eq_refl eq_refl eq_refl eq_refl)
    as (w' & ss & o & Hrun & Hse & _ & Hout & _).
  exists w', ss, o. split; [exact Hrun|]. split; [exact Hse | exact Hout].
Defined.

Lemma parser_crackmapexec_json_feeds_rule_witness :
  exists w' ss,
    _apply_rules example_clock example_repr 1
      [("crackmapexec_json",
        VDict [("valid_credentials",
                VList [cred_value (mk_credential (VStr "10.0.0.5")
                                     (VStr "admin") VNone)])])]
      example_world = (Returns tt, w')
    /\ sessions w' = sessions example_world ++ ss.
Proof.
  destruct (parser_crackmapexec_json_feeds_rule example_clock example_repr
              example_json_loads (fun s => s) cme_outputs
              (VDict [("valid_credentials",
                       VList [cred_value (mk_credential (VStr "10.0.0.5")
                                            (VStr "admin") VNone)])])
              eq_refl) as (creds & _ & Hrule).
  destruct (Hrule 1 example_world) as (w' & ss & Hrun & Hse & _); [lia|].
  exists w', ss. split; [exact Hrun | exact Hse].
Defined.

Lemma pipeline_keeps_meta_entries_witness :
  exists r',
    get_job 1
      (store (snd (_run_and_process example_clock example_repr
                     example_registry 1 (spawned rdp_process)
                     example_world)))
    = Some r'
    /\ meta_entry (j_meta r') "phase" = Some (VStr "discovery").
Proof.
  destruct (pipeline_keeps_meta_entries example_clock example_repr
              example_registry 1 1 (spawned rdp_process) example_world
              (mk_job 1 0 0 "echo" [VStr "echo"; VStr "hello"] "" (VDict [])
                      "pending" None (VDict [("phase", VStr "discovery")]))
              eq_refl) as (r' & Hget & Hkeys).
  exists r'. split; [exact Hget|].
  rewrite Hkeys by discriminate. reflexivity.
Defined.

Lemma gate_off_schedules_nothing_witness :
  jobs (store (snd (_apply_rules example_clock example_repr 1
                      (cme_results [full_cred]) example_world)))
  = jobs (store example_world).
Proof.
  destruct (gate_off_schedules_nothing example_clock example_repr 1
              (cme_results [full_cred]) example_world eq_refl eq_refl)
    as (Hjobs & _).
  exact Hjobs.
Defined.
